(** * VDA IR Remote Card: a verification development

    A shallow embedding of the logic of [vda-ir-remote-card.js] (version
    1.9.0): the shared response cache [VDADataCache], the rate-limited
    [VDAMatrixQueryQueue], the matrix resolver of [VDAIRRemoteCard]
    ([_loadMatrixDevice], [_queryMatrixRouting], [_loadSourceDevice]) and its
    command dispatcher (the click handler of [_render], [_startRepeat],
    [_stopRepeat], [_sendCommand], [_sendGroupPowerCommand],
    [_sendMatrixCommand]).

    Conventions of the embedding:
    - a JavaScript string is a [string]; a character is one code unit in the
      Latin-1 range (the registry's identifiers and the matrix replies are
      ASCII text);
    - a JSON scalar whose dynamic type the code relies on (a port, an input
      index, an [input_value]) is a [Js.JsVal]; numbers are integers;
    - [Date.now()] is an integer number of milliseconds ([Z]); one
      synchronous run of the code reads one clock value;
    - in the cache and the queue, where callers interleave, an awaited call
      is an event of a step function: the code up to the [await] is one
      step, the continuation is the step of the event that settles the call;
    - in the methods of the card, the outcome of an awaited call (resolved
      or thrown, and the reply) is a parameter of the method, and timers
      run on a virtual clock that advances one millisecond at a time. *)

From stdpp Require Import base gmap strings list.
From Stdlib Require Import ZArith String Ascii List Lia DecimalString.

Local Open Scope string_scope.

(** ** JavaScript values and string primitives *)

Module Js.

Inductive JsVal : Type :=
| JUndefined
| JNull
| JBool (b : bool)
| JNum (n : Z)
| JStr (s : string).

(** [ToBoolean]. *)
Definition truthy (v : JsVal) : bool :=
  match v with
  | JUndefined | JNull => false
  | JBool b => b
  | JNum n => negb (n =? 0)%Z
  | JStr s => negb (s =? "")
  end.

(** [String(v)] and the conversion of a template literal. *)
Definition toString (v : JsVal) : string :=
  match v with
  | JUndefined => "undefined"
  | JNull => "null"
  | JBool true => "true"
  | JBool false => "false"
  | JNum n => NilZero.string_of_int (Z.to_int n)
  | JStr s => s
  end.

(** [a === b]. *)
Definition strictEq (a b : JsVal) : bool :=
  match a, b with
  | JUndefined, JUndefined => true
  | JNull, JNull => true
  | JBool x, JBool y => Bool.eqb x y
  | JNum x, JNum y => (x =? y)%Z
  | JStr x, JStr y => (x =? y)
  | _, _ => false
  end.

(** [\d]. *)
Definition isDigit (c : ascii) : bool :=
  let n := nat_of_ascii c in (48 <=? n)%nat && (n <=? 57)%nat.

(** [\s], and the characters [trim] removes: TAB, LF, VT, FF, CR, space
    and the no-break space. *)
Definition isSpace (c : ascii) : bool :=
  let n := nat_of_ascii c in
  ((9 <=? n)%nat && (n <=? 13)%nat) || (n =? 32)%nat || (n =? 160)%nat.

(** One character of [toLowerCase]: A-Z, and the Latin-1 capitals
    U+00C0..U+00DE except the multiplication sign U+00D7. *)
Definition lowerChar (c : ascii) : ascii :=
  let n := nat_of_ascii c in
  if ((65 <=? n)%nat && (n <=? 90)%nat)
     || ((192 <=? n)%nat && (n <=? 222)%nat && negb (n =? 215)%nat)
  then ascii_of_nat (n + 32) else c.

Fixpoint toLowerCase (s : string) : string :=
  match s with
  | EmptyString => EmptyString
  | String c r => String (lowerChar c) (toLowerCase r)
  end.

(** [s.startsWith(p)]. *)
Definition startsWith (p s : string) : bool := String.prefix p s.

(** [s.includes(p)]. *)
Fixpoint includes (p s : string) : bool :=
  String.prefix p s
  || match s with
     | EmptyString => false
     | String _ r => includes p r
     end.

(** [s.endsWith(p)]. *)
Fixpoint endsWith (p s : string) : bool :=
  (s =? p)
  || match s with
     | EmptyString => false
     | String _ r => endsWith p r
     end.

Fixpoint trimStart (s : string) : string :=
  match s with
  | EmptyString => EmptyString
  | String c r => if isSpace c then trimStart r else s
  end.

Fixpoint trimEnd (s : string) : string :=
  match s with
  | EmptyString => EmptyString
  | String c r =>
      match trimEnd r with
      | EmptyString => if isSpace c then EmptyString else String c EmptyString
      | r' => String c r'
      end
  end.

(** [s.trim()]. *)
Definition trim (s : string) : string := trimEnd (trimStart s).

(** [s.replace(pat, by_)] for a string pattern: the first occurrence
    only.  The replacement text is inserted as it is. *)
Fixpoint replaceFirst (pat by_ s : string) : string :=
  if String.prefix pat s
  then by_ ++ substring (String.length pat) (String.length s - String.length pat) s
  else match s with
       | EmptyString => EmptyString
       | String c r => String c (replaceFirst pat by_ r)
       end.

(** The maximal run of digits at the head of [s], and what follows it. *)
Fixpoint takeDigits (s : string) : string :=
  match s with
  | String c r => if isDigit c then String c (takeDigits r) else EmptyString
  | EmptyString => EmptyString
  end.

Fixpoint dropDigits (s : string) : string :=
  match s with
  | String c r => if isDigit c then dropDigits r else s
  | EmptyString => EmptyString
  end.

(** Whether [s] holds a digit at all. *)
Fixpoint hasDigit (s : string) : bool :=
  match s with
  | String c r => isDigit c || hasDigit r
  | EmptyString => false
  end.

(** [\d+] at the head of [s]: the captured digits, if there is one. *)
Definition digits1 (s : string) : option string :=
  match takeDigits s with
  | EmptyString => None
  | d => Some d
  end.

(** A letter compared under the [i] flag. *)
Definition ciChar (lower : ascii) (c : ascii) : bool :=
  Ascii.eqb (lowerChar c) lower && (nat_of_ascii c <? 128)%nat.

(** [x || y] on optional strings as the code uses it for names: the first
    one when it is a non-empty string. *)
Definition orElse (x : option string) (y : string) : string :=
  match x with
  | Some s => if truthy (JStr s) then s else y
  | None => y
  end.

End Js.


(** ** The card: data model *)

Module Card.
Import Js.

(** A controlled (IR) device of the [devices] registry. *)
Record Device : Type := {
  device_id : string;
  name : string;
  device_profile_id : option string;
  matrix_device_id : option string;
  matrix_device_type : option string;
  matrix_port : JsVal
}.

(** A platform-native device of the [ha_devices] registry. *)
Record HADevice : Type := {
  ha_device_id : string;
  ha_name : string;
  entity_id : option string;
  media_player_entity_id : option string;
  device_family : option string
}.

(** [this._sourceDevice] holds either kind of record. *)
Inductive SourceDevice : Type :=
| SourceHA (d : HADevice)
| SourceIR (d : Device).

Definition source_device_id (d : SourceDevice) : string :=
  match d with
  | SourceHA h => ha_device_id h
  | SourceIR i => device_id i
  end.

(** A matrix command: one value of the matrix's [commands] object, or one
    object built from an input slot ([_generated]). *)
Record InputCommand : Type := {
  command_id : option string;
  cmd_name : option string;
  input_value : JsVal;
  is_input_option : bool;
  cmd_device_id : option string;
  _generated : bool
}.

(** One entry of [matrix_inputs]. *)
Record MatrixInput : Type := {
  index : JsVal;
  input_name : option string;
  input_device_id : option string;
  enabled : option bool
}.

(** The matrix detail record; [commands] is [Object.values(commands)], in
    its order; an absent list is the empty one. *)
Record MatrixDevice : Type := {
  commands : list InputCommand;
  matrix_inputs : list MatrixInput;
  query_template : option string;
  routing_template : option string
}.

(** A resolved member of a device group; [member_commands] is
    [Object.entries(member.commands || {})] with each command's [name]. *)
Record Member : Type := {
  member_device_id : string;
  member_name : string;
  member_type : string;
  member_commands : list (string * option string)
}.

Record DeviceGroup : Type := {
  group_id : string;
  sequence_delay_ms : option Z
}.

(** A profile reply: [Object.keys(codes)] of a built-in profile, the
    [learned_commands] of a custom one. *)
Record Profile : Type := {
  codes : list string;
  learned_commands : list string;
  device_type : option string
}.

(** The outcome of [fetch] followed by [resp.ok] and [resp.json()]. *)
Inductive Fetched (A : Type) : Type :=
| FetchThrows
| FetchNotOk
| FetchOk (a : A).
Arguments FetchThrows {A}.
Arguments FetchNotOk {A}.
Arguments FetchOk {A} a.

(** What the card reads from the platform while it resolves a source. *)
Record Env : Type := {
  fetchHACommands : string -> Fetched (list string);
  fetchBuiltinProfile : string -> Fetched Profile;
  fetchProfile : string -> Fetched Profile;
  hassStates : string -> bool
}.

(** One [hass.callService('vda_ir_control', service, data)]. *)
Record ServiceCall : Type := {
  service : string;
  call_device_id : option string;
  call_arg : string
}.

(** The closures the card hands to [setTimeout] and [setInterval]. *)
Inductive Callback : Type :=
| CbClearSent                      (* click handler: _lastSent = null; _render() *)
| CbClearSentIf (marker : string)  (* if (_lastSent === marker) { _lastSent = null; _render() } *)
| CbFillDelay (command : string)   (* _startRepeat: start the fill or fade animation *)
| CbRepeat (command : string)      (* _startRepeat: _sendCommandSilent(command) *)
| CbSettle                         (* _stopRepeat: _lastSent = null; _updateToast(null) *)
| CbGroupStatusClear.              (* _sendGroupPowerCommand: _groupPowerStatus = null *)

(** A pending timer; [period] is set for [setInterval].  A timer handle is
    an integer greater than zero. *)
Record Timer : Type := {
  timer_id : positive;
  due : Z;
  period : option Z;
  callback : Callback
}.

(** The instance state ([this]) and the part of the browser it acts on:
    the clock, the timer table and the service calls issued so far. *)
Record Card : Type := mkCard {
  _device : option Device;
  _allDevices : list Device;
  _haDevices : list HADevice;
  _deviceGroup : option DeviceGroup;
  _groupMemberDevices : list Member;
  _matrixDevice : option MatrixDevice;
  _matrixInputCommands : list InputCommand;
  _selectedMatrixInput : option string;
  _sourceDevice : option SourceDevice;
  _sourceCommands : list string;
  _sourceIsHADevice : bool;
  _sourceMediaPlayerEntity : option string;
  _sourceDeviceType : option string;
  _showRemote : bool;
  _lastSent : option string;
  _lastSendTime : option Z;
  _isHolding : bool;
  _holdCommand : option string;
  _repeatInterval : option positive;
  _fillDelayTimeout : option positive;
  _isSendingGroupPower : bool;
  _groupPowerStatus : option string;
  toastInDom : bool;
  clock : Z;
  timers : list Timer;
  nextTimerId : positive;
  calls : list ServiceCall
}.

(** Assignments to one field of [this]. *)
Definition set_matrixDevice (v : option MatrixDevice) (s : Card) : Card :=
  mkCard (_device s) (_allDevices s) (_haDevices s) (_deviceGroup s)
    (_groupMemberDevices s) v (_matrixInputCommands s) (_selectedMatrixInput
    s) (_sourceDevice s) (_sourceCommands s) (_sourceIsHADevice s)
    (_sourceMediaPlayerEntity s) (_sourceDeviceType s) (_showRemote s)
    (_lastSent s) (_lastSendTime s) (_isHolding s) (_holdCommand s)
    (_repeatInterval s) (_fillDelayTimeout s) (_isSendingGroupPower s)
    (_groupPowerStatus s) (toastInDom s) (clock s) (timers s) (nextTimerId
    s) (calls s).
Definition set_matrixInputCommands (v : list InputCommand) (s : Card) : Card :=
  mkCard (_device s) (_allDevices s) (_haDevices s) (_deviceGroup s)
    (_groupMemberDevices s) (_matrixDevice s) v (_selectedMatrixInput s)
    (_sourceDevice s) (_sourceCommands s) (_sourceIsHADevice s)
    (_sourceMediaPlayerEntity s) (_sourceDeviceType s) (_showRemote s)
    (_lastSent s) (_lastSendTime s) (_isHolding s) (_holdCommand s)
    (_repeatInterval s) (_fillDelayTimeout s) (_isSendingGroupPower s)
    (_groupPowerStatus s) (toastInDom s) (clock s) (timers s) (nextTimerId
    s) (calls s).
Definition set_selectedMatrixInput (v : option string) (s : Card) : Card :=
  mkCard (_device s) (_allDevices s) (_haDevices s) (_deviceGroup s)
    (_groupMemberDevices s) (_matrixDevice s) (_matrixInputCommands s) v
    (_sourceDevice s) (_sourceCommands s) (_sourceIsHADevice s)
    (_sourceMediaPlayerEntity s) (_sourceDeviceType s) (_showRemote s)
    (_lastSent s) (_lastSendTime s) (_isHolding s) (_holdCommand s)
    (_repeatInterval s) (_fillDelayTimeout s) (_isSendingGroupPower s)
    (_groupPowerStatus s) (toastInDom s) (clock s) (timers s) (nextTimerId
    s) (calls s).
Definition set_sourceDevice (v : option SourceDevice) (s : Card) : Card :=
  mkCard (_device s) (_allDevices s) (_haDevices s) (_deviceGroup s)
    (_groupMemberDevices s) (_matrixDevice s) (_matrixInputCommands s)
    (_selectedMatrixInput s) v (_sourceCommands s) (_sourceIsHADevice s)
    (_sourceMediaPlayerEntity s) (_sourceDeviceType s) (_showRemote s)
    (_lastSent s) (_lastSendTime s) (_isHolding s) (_holdCommand s)
    (_repeatInterval s) (_fillDelayTimeout s) (_isSendingGroupPower s)
    (_groupPowerStatus s) (toastInDom s) (clock s) (timers s) (nextTimerId
    s) (calls s).
Definition set_sourceCommands (v : list string) (s : Card) : Card :=
  mkCard (_device s) (_allDevices s) (_haDevices s) (_deviceGroup s)
    (_groupMemberDevices s) (_matrixDevice s) (_matrixInputCommands s)
    (_selectedMatrixInput s) (_sourceDevice s) v (_sourceIsHADevice s)
    (_sourceMediaPlayerEntity s) (_sourceDeviceType s) (_showRemote s)
    (_lastSent s) (_lastSendTime s) (_isHolding s) (_holdCommand s)
    (_repeatInterval s) (_fillDelayTimeout s) (_isSendingGroupPower s)
    (_groupPowerStatus s) (toastInDom s) (clock s) (timers s) (nextTimerId
    s) (calls s).
Definition set_sourceIsHADevice (v : bool) (s : Card) : Card :=
  mkCard (_device s) (_allDevices s) (_haDevices s) (_deviceGroup s)
    (_groupMemberDevices s) (_matrixDevice s) (_matrixInputCommands s)
    (_selectedMatrixInput s) (_sourceDevice s) (_sourceCommands s) v
    (_sourceMediaPlayerEntity s) (_sourceDeviceType s) (_showRemote s)
    (_lastSent s) (_lastSendTime s) (_isHolding s) (_holdCommand s)
    (_repeatInterval s) (_fillDelayTimeout s) (_isSendingGroupPower s)
    (_groupPowerStatus s) (toastInDom s) (clock s) (timers s) (nextTimerId
    s) (calls s).
Definition set_sourceMediaPlayerEntity (v : option string) (s : Card) : Card :=
  mkCard (_device s) (_allDevices s) (_haDevices s) (_deviceGroup s)
    (_groupMemberDevices s) (_matrixDevice s) (_matrixInputCommands s)
    (_selectedMatrixInput s) (_sourceDevice s) (_sourceCommands s)
    (_sourceIsHADevice s) v (_sourceDeviceType s) (_showRemote s) (_lastSent
    s) (_lastSendTime s) (_isHolding s) (_holdCommand s) (_repeatInterval s)
    (_fillDelayTimeout s) (_isSendingGroupPower s) (_groupPowerStatus s)
    (toastInDom s) (clock s) (timers s) (nextTimerId s) (calls s).
Definition set_sourceDeviceType (v : option string) (s : Card) : Card :=
  mkCard (_device s) (_allDevices s) (_haDevices s) (_deviceGroup s)
    (_groupMemberDevices s) (_matrixDevice s) (_matrixInputCommands s)
    (_selectedMatrixInput s) (_sourceDevice s) (_sourceCommands s)
    (_sourceIsHADevice s) (_sourceMediaPlayerEntity s) v (_showRemote s)
    (_lastSent s) (_lastSendTime s) (_isHolding s) (_holdCommand s)
    (_repeatInterval s) (_fillDelayTimeout s) (_isSendingGroupPower s)
    (_groupPowerStatus s) (toastInDom s) (clock s) (timers s) (nextTimerId
    s) (calls s).
Definition set_showRemote (v : bool) (s : Card) : Card :=
  mkCard (_device s) (_allDevices s) (_haDevices s) (_deviceGroup s)
    (_groupMemberDevices s) (_matrixDevice s) (_matrixInputCommands s)
    (_selectedMatrixInput s) (_sourceDevice s) (_sourceCommands s)
    (_sourceIsHADevice s) (_sourceMediaPlayerEntity s) (_sourceDeviceType s)
    v (_lastSent s) (_lastSendTime s) (_isHolding s) (_holdCommand s)
    (_repeatInterval s) (_fillDelayTimeout s) (_isSendingGroupPower s)
    (_groupPowerStatus s) (toastInDom s) (clock s) (timers s) (nextTimerId
    s) (calls s).
Definition set_lastSent (v : option string) (s : Card) : Card :=
  mkCard (_device s) (_allDevices s) (_haDevices s) (_deviceGroup s)
    (_groupMemberDevices s) (_matrixDevice s) (_matrixInputCommands s)
    (_selectedMatrixInput s) (_sourceDevice s) (_sourceCommands s)
    (_sourceIsHADevice s) (_sourceMediaPlayerEntity s) (_sourceDeviceType s)
    (_showRemote s) v (_lastSendTime s) (_isHolding s) (_holdCommand s)
    (_repeatInterval s) (_fillDelayTimeout s) (_isSendingGroupPower s)
    (_groupPowerStatus s) (toastInDom s) (clock s) (timers s) (nextTimerId
    s) (calls s).
Definition set_lastSendTime (v : option Z) (s : Card) : Card :=
  mkCard (_device s) (_allDevices s) (_haDevices s) (_deviceGroup s)
    (_groupMemberDevices s) (_matrixDevice s) (_matrixInputCommands s)
    (_selectedMatrixInput s) (_sourceDevice s) (_sourceCommands s)
    (_sourceIsHADevice s) (_sourceMediaPlayerEntity s) (_sourceDeviceType s)
    (_showRemote s) (_lastSent s) v (_isHolding s) (_holdCommand s)
    (_repeatInterval s) (_fillDelayTimeout s) (_isSendingGroupPower s)
    (_groupPowerStatus s) (toastInDom s) (clock s) (timers s) (nextTimerId
    s) (calls s).
Definition set_isHolding (v : bool) (s : Card) : Card :=
  mkCard (_device s) (_allDevices s) (_haDevices s) (_deviceGroup s)
    (_groupMemberDevices s) (_matrixDevice s) (_matrixInputCommands s)
    (_selectedMatrixInput s) (_sourceDevice s) (_sourceCommands s)
    (_sourceIsHADevice s) (_sourceMediaPlayerEntity s) (_sourceDeviceType s)
    (_showRemote s) (_lastSent s) (_lastSendTime s) v (_holdCommand s)
    (_repeatInterval s) (_fillDelayTimeout s) (_isSendingGroupPower s)
    (_groupPowerStatus s) (toastInDom s) (clock s) (timers s) (nextTimerId
    s) (calls s).
Definition set_holdCommand (v : option string) (s : Card) : Card :=
  mkCard (_device s) (_allDevices s) (_haDevices s) (_deviceGroup s)
    (_groupMemberDevices s) (_matrixDevice s) (_matrixInputCommands s)
    (_selectedMatrixInput s) (_sourceDevice s) (_sourceCommands s)
    (_sourceIsHADevice s) (_sourceMediaPlayerEntity s) (_sourceDeviceType s)
    (_showRemote s) (_lastSent s) (_lastSendTime s) (_isHolding s) v
    (_repeatInterval s) (_fillDelayTimeout s) (_isSendingGroupPower s)
    (_groupPowerStatus s) (toastInDom s) (clock s) (timers s) (nextTimerId
    s) (calls s).
Definition set_repeatInterval (v : option positive) (s : Card) : Card :=
  mkCard (_device s) (_allDevices s) (_haDevices s) (_deviceGroup s)
    (_groupMemberDevices s) (_matrixDevice s) (_matrixInputCommands s)
    (_selectedMatrixInput s) (_sourceDevice s) (_sourceCommands s)
    (_sourceIsHADevice s) (_sourceMediaPlayerEntity s) (_sourceDeviceType s)
    (_showRemote s) (_lastSent s) (_lastSendTime s) (_isHolding s)
    (_holdCommand s) v (_fillDelayTimeout s) (_isSendingGroupPower s)
    (_groupPowerStatus s) (toastInDom s) (clock s) (timers s) (nextTimerId
    s) (calls s).
Definition set_fillDelayTimeout (v : option positive) (s : Card) : Card :=
  mkCard (_device s) (_allDevices s) (_haDevices s) (_deviceGroup s)
    (_groupMemberDevices s) (_matrixDevice s) (_matrixInputCommands s)
    (_selectedMatrixInput s) (_sourceDevice s) (_sourceCommands s)
    (_sourceIsHADevice s) (_sourceMediaPlayerEntity s) (_sourceDeviceType s)
    (_showRemote s) (_lastSent s) (_lastSendTime s) (_isHolding s)
    (_holdCommand s) (_repeatInterval s) v (_isSendingGroupPower s)
    (_groupPowerStatus s) (toastInDom s) (clock s) (timers s) (nextTimerId
    s) (calls s).
Definition set_isSendingGroupPower (v : bool) (s : Card) : Card :=
  mkCard (_device s) (_allDevices s) (_haDevices s) (_deviceGroup s)
    (_groupMemberDevices s) (_matrixDevice s) (_matrixInputCommands s)
    (_selectedMatrixInput s) (_sourceDevice s) (_sourceCommands s)
    (_sourceIsHADevice s) (_sourceMediaPlayerEntity s) (_sourceDeviceType s)
    (_showRemote s) (_lastSent s) (_lastSendTime s) (_isHolding s)
    (_holdCommand s) (_repeatInterval s) (_fillDelayTimeout s) v
    (_groupPowerStatus s) (toastInDom s) (clock s) (timers s) (nextTimerId
    s) (calls s).
Definition set_groupPowerStatus (v : option string) (s : Card) : Card :=
  mkCard (_device s) (_allDevices s) (_haDevices s) (_deviceGroup s)
    (_groupMemberDevices s) (_matrixDevice s) (_matrixInputCommands s)
    (_selectedMatrixInput s) (_sourceDevice s) (_sourceCommands s)
    (_sourceIsHADevice s) (_sourceMediaPlayerEntity s) (_sourceDeviceType s)
    (_showRemote s) (_lastSent s) (_lastSendTime s) (_isHolding s)
    (_holdCommand s) (_repeatInterval s) (_fillDelayTimeout s)
    (_isSendingGroupPower s) v (toastInDom s) (clock s) (timers s)
    (nextTimerId s) (calls s).
Definition set_toastInDom (v : bool) (s : Card) : Card :=
  mkCard (_device s) (_allDevices s) (_haDevices s) (_deviceGroup s)
    (_groupMemberDevices s) (_matrixDevice s) (_matrixInputCommands s)
    (_selectedMatrixInput s) (_sourceDevice s) (_sourceCommands s)
    (_sourceIsHADevice s) (_sourceMediaPlayerEntity s) (_sourceDeviceType s)
    (_showRemote s) (_lastSent s) (_lastSendTime s) (_isHolding s)
    (_holdCommand s) (_repeatInterval s) (_fillDelayTimeout s)
    (_isSendingGroupPower s) (_groupPowerStatus s) v (clock s) (timers s)
    (nextTimerId s) (calls s).
Definition set_clock (v : Z) (s : Card) : Card :=
  mkCard (_device s) (_allDevices s) (_haDevices s) (_deviceGroup s)
    (_groupMemberDevices s) (_matrixDevice s) (_matrixInputCommands s)
    (_selectedMatrixInput s) (_sourceDevice s) (_sourceCommands s)
    (_sourceIsHADevice s) (_sourceMediaPlayerEntity s) (_sourceDeviceType s)
    (_showRemote s) (_lastSent s) (_lastSendTime s) (_isHolding s)
    (_holdCommand s) (_repeatInterval s) (_fillDelayTimeout s)
    (_isSendingGroupPower s) (_groupPowerStatus s) (toastInDom s) v (timers
    s) (nextTimerId s) (calls s).
Definition set_timers (v : list Timer) (s : Card) : Card :=
  mkCard (_device s) (_allDevices s) (_haDevices s) (_deviceGroup s)
    (_groupMemberDevices s) (_matrixDevice s) (_matrixInputCommands s)
    (_selectedMatrixInput s) (_sourceDevice s) (_sourceCommands s)
    (_sourceIsHADevice s) (_sourceMediaPlayerEntity s) (_sourceDeviceType s)
    (_showRemote s) (_lastSent s) (_lastSendTime s) (_isHolding s)
    (_holdCommand s) (_repeatInterval s) (_fillDelayTimeout s)
    (_isSendingGroupPower s) (_groupPowerStatus s) (toastInDom s) (clock s)
    v (nextTimerId s) (calls s).
Definition set_nextTimerId (v : positive) (s : Card) : Card :=
  mkCard (_device s) (_allDevices s) (_haDevices s) (_deviceGroup s)
    (_groupMemberDevices s) (_matrixDevice s) (_matrixInputCommands s)
    (_selectedMatrixInput s) (_sourceDevice s) (_sourceCommands s)
    (_sourceIsHADevice s) (_sourceMediaPlayerEntity s) (_sourceDeviceType s)
    (_showRemote s) (_lastSent s) (_lastSendTime s) (_isHolding s)
    (_holdCommand s) (_repeatInterval s) (_fillDelayTimeout s)
    (_isSendingGroupPower s) (_groupPowerStatus s) (toastInDom s) (clock s)
    (timers s) v (calls s).
Definition set_calls (v : list ServiceCall) (s : Card) : Card :=
  mkCard (_device s) (_allDevices s) (_haDevices s) (_deviceGroup s)
    (_groupMemberDevices s) (_matrixDevice s) (_matrixInputCommands s)
    (_selectedMatrixInput s) (_sourceDevice s) (_sourceCommands s)
    (_sourceIsHADevice s) (_sourceMediaPlayerEntity s) (_sourceDeviceType s)
    (_showRemote s) (_lastSent s) (_lastSendTime s) (_isHolding s)
    (_holdCommand s) (_repeatInterval s) (_fillDelayTimeout s)
    (_isSendingGroupPower s) (_groupPowerStatus s) (toastInDom s) (clock s)
    (timers s) (nextTimerId s) v.

(** [x && ...] on an optional string: the string when it is non-empty. *)
Definition nonEmpty (x : option string) : option string :=
  match x with
  | Some s => if truthy (JStr s) then Some s else None
  | None => None
  end.

(** [a === b] on two optional strings ([undefined] is [None]). *)
Definition optStrEq (a b : option string) : bool :=
  match a, b with
  | Some x, Some y => (x =? y)
  | None, None => true
  | _, _ => false
  end.

(** [_render]: of the document it rebuilds, the state keeps whether the
    [.sent-toast] element exists (it is part of the modal of a device card). *)
Definition _render (s : Card) : Card :=
  set_toastInDom
    (negb (bool_decide (is_Some (_deviceGroup s)))
     && bool_decide (is_Some (_device s)) && _showRemote s) s.

(** *** [_loadMatrixDevice] *)

(** [input.enabled !== false]. *)
Definition slotEnabled (input : MatrixInput) : bool :=
  match enabled input with
  | Some false => false
  | _ => true
  end.

(** The object built for an input slot (lines 303-309). *)
Definition generatedCommand (input : MatrixInput) : InputCommand := {|
  command_id := Some ("route_input_" ++ toString (index input));
  cmd_name := Some (orElse (input_name input) ("Input " ++ toString (index input)));
  input_value := JStr (toString (index input));
  is_input_option := false;
  cmd_device_id := input_device_id input;
  _generated := true
|}.

(** [cmd.command_id && cmd.command_id.includes(outputSuffix)]. *)
Definition routesToOutput (outputSuffix : string) (cmd : InputCommand) : bool :=
  match nonEmpty (command_id cmd) with
  | Some id => includes outputSuffix id
  | None => false
  end.

(** Lines 280-310: the value assigned to [this._matrixInputCommands]. *)
Definition inputCommands (deviceOutput : JsVal) (m : MatrixDevice) : list InputCommand :=
  let declared := List.filter is_input_option (commands m) in
  let narrowed :=
    if truthy deviceOutput && (0 <? length declared)%nat then
      let outputSuffix := "_out" ++ toString deviceOutput in
      let filteredCommands := List.filter (routesToOutput outputSuffix) declared in
      if (0 <? length filteredCommands)%nat then filteredCommands else declared
    else declared in
  if (length narrowed =? 0)%nat
  then List.map generatedCommand (List.filter slotEnabled (matrix_inputs m))
  else narrowed.

(** [_loadMatrixDevice], given the outcome of the matrix detail request.
    The routing query it starts in the background is [_queryMatrixRouting]
    below. *)
Definition _loadMatrixDevice (reply : Fetched MatrixDevice) (s : Card) : Card :=
  let cleared := set_matrixInputCommands [] (set_matrixDevice None s) in
  match _device s with
  | None => cleared
  | Some d =>
      match nonEmpty (matrix_device_id d) with
      | None => cleared
      | Some _ =>
          match reply with
          | FetchThrows => cleared
          | FetchNotOk => s
          | FetchOk m =>
              set_matrixInputCommands (inputCommands (matrix_port d) m)
                (set_matrixDevice (Some m) s)
          end
      end
  end.

(** *** [_loadSourceDevice] *)

(** The fixed list of the [catch] branch (line 510). *)
Definition commonCommands : list string :=
  ["up"; "down"; "left"; "right"; "select"; "menu"; "home"; "back";
   "play_pause"; "power"].

(** Lines 480-494: the entity used for the now-playing display. *)
Definition mediaPlayerEntity (env : Env) (haDevice : HADevice) (s : Card) : Card :=
  match nonEmpty (media_player_entity_id haDevice) with
  | Some e => set_sourceMediaPlayerEntity (Some e) s
  | None =>
      match nonEmpty (entity_id haDevice) with
      | Some e =>
          if startsWith "remote." e then
            let suffix := replaceFirst "remote." "" e in
            let possibleMediaPlayer := "media_player." ++ suffix in
            if hassStates env possibleMediaPlayer
            then set_sourceMediaPlayerEntity (Some possibleMediaPlayer) s
            else s
          else if startsWith "media_player." e
          then set_sourceMediaPlayerEntity (Some e) s
          else set_sourceMediaPlayerEntity None s
      | None => set_sourceMediaPlayerEntity None s
      end
  end.

(** Lines 496-511: the commands of a platform-native source. *)
Definition loadHACommands (env : Env) (haDevice : HADevice) (s : Card) : Card :=
  match fetchHACommands env (ha_device_id haDevice) with
  | FetchOk cmds =>
      set_sourceDeviceType (device_family haDevice)
        (set_sourceCommands (List.map toLowerCase cmds) s)
  | FetchNotOk => s
  | FetchThrows => set_sourceCommands commonCommands s
  end.

(** Lines 523-549: the commands of an IR source, from its profile. *)
Definition loadProfileCommands (env : Env) (sourceDevice : Device) (s : Card) : Card :=
  match nonEmpty (device_profile_id sourceDevice) with
  | None => s
  | Some profileId =>
      if startsWith "builtin:" profileId then
        match fetchBuiltinProfile env (substring 8 (String.length profileId - 8) profileId) with
        | FetchOk profile =>
            set_sourceDeviceType (device_type profile)
              (set_sourceCommands (codes profile) s)
        | _ => s
        end
      else
        match fetchProfile env profileId with
        | FetchOk profile =>
            set_sourceDeviceType (device_type profile)
              (set_sourceCommands (learned_commands profile) s)
        | _ => s
        end
  end.

Definition _loadSourceDevice (env : Env) (s : Card) : Card :=
  let s := set_sourceIsHADevice false (set_sourceCommands [] (set_sourceDevice None s)) in
  match _matrixDevice s, nonEmpty (_selectedMatrixInput s) with
  | Some m, Some selected =>
      match List.find (fun c => optStrEq (command_id c) (Some selected))
                      (_matrixInputCommands s) with
      | None => s
      | Some inputCmd =>
          let inputIndex := input_value inputCmd in
          match List.find (fun i => toString (index i) =? toString inputIndex)
                          (matrix_inputs m) with
          | None => s
          | Some matrixInput =>
              match nonEmpty (input_device_id matrixInput) with
              | None => s
              | Some linked =>
                  match List.find (fun d => ha_device_id d =? linked) (_haDevices s) with
                  | Some haDevice =>
                      let s := set_sourceIsHADevice true
                                 (set_sourceDevice (Some (SourceHA haDevice)) s) in
                      loadHACommands env haDevice (mediaPlayerEntity env haDevice s)
                  | None =>
                      match List.find (fun d => device_id d =? linked) (_allDevices s) with
                      | None => s
                      | Some sourceDevice =>
                          let s := set_sourceMediaPlayerEntity None
                                     (set_sourceIsHADevice false
                                        (set_sourceDevice (Some (SourceIR sourceDevice)) s)) in
                          loadProfileCommands env sourceDevice s
                      end
                  end
              end
          end
      end
  | _, _ => s
  end.

(** *** [_queryMatrixRouting]: reading the reply *)

(** An unanchored regular expression tries its pattern at each position
    from the left; [at_] is the pattern anchored at the head of its
    argument, returning capture group 1. *)
Fixpoint search (at_ : string -> option string) (s : string) : option string :=
  match at_ s with
  | Some d => Some d
  | None =>
      match s with
      | EmptyString => None
      | String _ r => search at_ r
      end
  end.

(** A literal of lowercase letters under the [i] flag: what follows it. *)
Fixpoint ciLiteral (lit s : string) : option string :=
  match lit with
  | EmptyString => Some s
  | String l lit' =>
      match s with
      | String c r => if ciChar l c then ciLiteral lit' r else None
      | EmptyString => None
      end
  end.

(** [/in(\d+)/i] at the head. *)
Definition atIn (s : string) : option string :=
  match ciLiteral "in" s with
  | Some r => digits1 r
  | None => None
  end.

(** [/input\s*(\d+)/i] at the head. *)
Definition atInput (s : string) : option string :=
  match ciLiteral "input" s with
  | Some r => digits1 (trimStart r)
  | None => None
  end.

(** [/(\d+)\s*$/] at the head: the greedy run of digits, then only white
    space up to the end (a shorter run is followed by a digit and fails). *)
Definition atDigitsEnd (s : string) : option string :=
  match digits1 s with
  | Some d => match trimStart (dropDigits s) with
              | EmptyString => Some d
              | _ => None
              end
  | None => None
  end.

(** [/(\d+)/] at the head. *)
Definition atDigits (s : string) : option string := digits1 s.

(** [a || b] on match results. *)
Definition orMatch (a b : option string) : option string :=
  match a with
  | Some d => Some d
  | None => b
  end.

(** Lines 388-400: [inputMatch[1]] for a reply text, if a pattern matched. *)
Definition parseInputNumber (text : string) : option string :=
  let response := trim text in
  orMatch (search atIn response)
    (orMatch (search atInput response)
       (orMatch (search atDigitsEnd response)
          (search atDigits response))).

(** Lines 402-404: the command whose [input_value] is the parsed text. *)
Definition matchingCmd (cmds : list InputCommand) (inputNum : string) : option InputCommand :=
  List.find (fun cmd => strictEq (input_value cmd) (JStr inputNum)
                        || strictEq (input_value cmd) (JStr (toString (JStr inputNum))))
            cmds.

(** Lines 384-413, given the awaited [result]: [FetchNotOk] is a [null]
    result, [FetchOk v] a reply object whose [response] field is [v]. *)
Definition _queryMatrixRouting (env : Env) (result : Fetched JsVal) (s : Card) : Card :=
  match result with
  | FetchOk v =>
      if truthy v then
        match parseInputNumber (toString v) with
        | Some inputNum =>
            match matchingCmd (_matrixInputCommands s) inputNum with
            | Some cmd =>
                _render (_loadSourceDevice env
                           (set_selectedMatrixInput (command_id cmd) s))
            | None => s
            end
        | None => s
        end
      else s
  | _ => s
  end.

(** ** The card: command dispatcher *)

Local Open Scope Z_scope.

(** *** Timers and rendering *)

Definition setTimeout (cb : Callback) (delay : Z) (s : Card) : Card * positive :=
  let id := nextTimerId s in
  let t := {| timer_id := id; due := clock s + delay; period := None; callback := cb |} in
  (set_nextTimerId (Pos.succ id) (set_timers (timers s ++ [t]) s), id).

Definition setInterval (cb : Callback) (delay : Z) (s : Card) : Card * positive :=
  let id := nextTimerId s in
  let t := {| timer_id := id; due := clock s + delay; period := Some delay; callback := cb |} in
  (set_nextTimerId (Pos.succ id) (set_timers (timers s ++ [t]) s), id).

(** [clearTimeout(id)] and [clearInterval(id)]. *)
Definition clearTimer (id : positive) (s : Card) : Card :=
  set_timers (List.filter (fun t => negb (timer_id t =? id)%positive) (timers s)) s.

(** [_updateToast(command, false)]: with the toast in the document only the
    document changes. *)
Definition _updateToast (command : option string) (s : Card) : Card :=
  if toastInDom s then s
  else match nonEmpty command with
       | Some c => if _showRemote s then _render (set_lastSent (Some c) s) else s
       | None => s
       end.

(** *** Sending *)

(** [this._lastSendTime && now - this._lastSendTime < 150]. *)
Definition debounced (s : Card) : bool :=
  match _lastSendTime s with
  | Some t => negb (t =? 0) && (clock s - t <? 150)
  | None => false
  end.

Definition callService (svc : string) (target : option string) (arg : string) (s : Card) : Card :=
  set_calls (calls s ++ [{| service := svc; call_device_id := target; call_arg := arg |}]) s.

(** [_sendCommandSilent]: nothing follows the awaited call. *)
Definition _sendCommandSilent (command : string) (s : Card) : Card :=
  match _device s with
  | None => s
  | Some d =>
      if debounced s then s
      else callService "send_command" (Some (device_id d)) command
             (set_lastSendTime (Some (clock s)) s)
  end.

(** [_sendCommand]; [ok] tells whether the awaited call resolved. *)
Definition _sendCommand (ok : bool) (command : string) (s : Card) : Card :=
  match _device s with
  | None => s
  | Some d =>
      if debounced s then s
      else
        let s := callService "send_command" (Some (device_id d)) command
                   (set_lastSendTime (Some (clock s)) s) in
        if ok
        then fst (setTimeout (CbClearSentIf command) 1000
                    (_render (set_lastSent (Some command) s)))
        else s
  end.

(** [_sendCommandToDevice] up to its [await]: the state, and whether a call
    was issued. *)
Definition _sendCommandToDevice_start (command deviceId : string) (s : Card) : Card * bool :=
  if negb (truthy (JStr deviceId)) then (s, false)
  else if debounced s then (s, false)
  else
    let s := set_lastSendTime (Some (clock s)) s in
    let isHADevice :=
      _sourceIsHADevice s
      && match _sourceDevice s with
         | Some src => (source_device_id src =? deviceId)%string
         | None => false
         end in
    (callService (if isHADevice then "send_ha_command" else "send_command")
       (Some deviceId) command s, true).

(** [_sendCommandToDevice] after its [await]. *)
Definition _sendCommandToDevice_resume (ok : bool) (command : string) (s : Card) : Card :=
  if ok
  then fst (setTimeout (CbClearSentIf command) 1000
              (_render (set_lastSent (Some command) s)))
  else s.

Definition _sendCommandToDevice (ok : bool) (command deviceId : string) (s : Card) : Card :=
  let (s, issued) := _sendCommandToDevice_start command deviceId s in
  if issued then _sendCommandToDevice_resume ok command s else s.

(** *** The listeners installed by [_render] *)

Definition inList (x : string) (l : list string) : bool :=
  existsb (String.eqb x) l.

Definition repeatableCommands : list string :=
  ["volume_up"; "volume_down"; "channel_up"; "channel_down"; "chanup"; "chandown"].

Definition volumeCommands : list string := ["volume_up"; "volume_down"; "mute"].

(** The branch the click handler takes (lines 1292-1313). *)
Inductive Route : Type :=
| RouteTv (tvDeviceId : string)
| RouteDevice (targetDeviceId : string)
| RouteSource (source : SourceDevice)
| RouteOwn.

Definition route (s : Card) (command : string)
    (targetDeviceId tvDeviceId : option string) (isSource : bool) : Route :=
  match nonEmpty tvDeviceId with
  | Some tv => RouteTv tv
  | None =>
      match nonEmpty targetDeviceId with
      | Some target => RouteDevice target
      | None =>
          match (if isSource then _sourceDevice s else None) with
          | Some src => RouteSource src
          | None =>
              match (if negb (inList command volumeCommands)
                     then _sourceDevice s else None) with
              | Some src => RouteSource src
              | None => RouteOwn
              end
          end
      end
  end.


(** The click listener of a [data-command] button that is not repeatable;
    [ok] is the outcome of the call it issues. *)
Definition onClick (ok : bool) (command : string)
    (targetDeviceId tvDeviceId : option string) (isSource : bool) (s : Card) : Card :=
  match route s command targetDeviceId tvDeviceId isSource with
  | RouteTv tv =>
      let (s, issued) := _sendCommandToDevice_start command tv s in
      let s := fst (setTimeout CbClearSent 1000
                      (_render (set_lastSent (Some ("power_tv_" ++ tv)%string) s))) in
      if issued then _sendCommandToDevice_resume ok command s else s
  | RouteDevice target =>
      let (s, issued) := _sendCommandToDevice_start command target s in
      let s := fst (setTimeout CbClearSent 1000
                      (_render (set_lastSent (Some (command ++ "_" ++ target)%string) s))) in
      if issued then _sendCommandToDevice_resume ok command s else s
  | RouteSource src => _sendCommandToDevice ok command (source_device_id src) s
  | RouteOwn => _sendCommand ok command s
  end.

(** The listeners of [#modal-overlay] and [#close-modal]. *)
Definition closeModal (s : Card) : Card :=
  _render (set_lastSent None (set_showRemote false s)).

(** The listener of [#open-remote]. *)
Definition openRemote (env : Env) (s : Card) : Card :=
  let s := match _matrixDevice s, nonEmpty (_selectedMatrixInput s) with
           | Some _, Some _ => _loadSourceDevice env s
           | _, _ => s
           end in
  _render (set_showRemote true s).

(** *** Press and hold *)

(** [_startRepeat]; [_volumeLevel] and [_holdStartTime], which only feed the
    icon and the animation, are left out. *)
Definition _startRepeat (command : string) (s : Card) : Card :=
  let s := set_holdCommand (Some command) (set_isHolding true s) in
  let s := _updateToast (Some command) s in
  let s := _sendCommandSilent command s in
  let (s, fillId) := setTimeout (CbFillDelay command) 250 s in
  let s := set_fillDelayTimeout (Some fillId) s in
  let (s, repeatId) := setInterval (CbRepeat command) 200 s in
  set_repeatInterval (Some repeatId) s.

Definition _stopRepeat (s : Card) : Card :=
  let s := match _repeatInterval s with
           | Some id => set_repeatInterval None (clearTimer id s)
           | None => s
           end in
  let s := match _fillDelayTimeout s with
           | Some id => set_fillDelayTimeout None (clearTimer id s)
           | None => s
           end in
  if _isHolding s then
    let cmd := _holdCommand s in
    let s := set_holdCommand None (set_isHolding false s) in
    let s := _updateToast cmd s in
    fst (setTimeout CbSettle 500 s)
  else s.

(** Whether [t] is the timer of the handle stored in a field. *)
Definition hasHandle (field : option positive) (t : Timer) : bool :=
  match field with
  | Some id => (timer_id t =? id)%positive
  | None => false
  end.

(** The timeout [_stopRepeat] sets while a hold is released. *)
Definition settleTimer (s : Card) : Timer :=
  {| timer_id := nextTimerId s; due := clock s + 500; period := None;
     callback := CbSettle |}.

(** What the press of a [data-command] button does: a repeatable command
    has the hold listeners, any other one the click listener. *)
Definition press (ok : bool) (command : string)
    (targetDeviceId tvDeviceId : option string) (isSource : bool) (s : Card) : Card :=
  if inList command repeatableCommands
  then _startRepeat command s
  else onClick ok command targetDeviceId tvDeviceId isSource s.

(** *** The timer loop *)

Definition runCallback (cb : Callback) (s : Card) : Card :=
  match cb with
  | CbClearSent => _render (set_lastSent None s)
  | CbClearSentIf marker =>
      if optStrEq (_lastSent s) (Some marker)
      then _render (set_lastSent None s) else s
  | CbFillDelay _ => s
  | CbRepeat command => _sendCommandSilent command s
  | CbSettle => _updateToast None (set_lastSent None s)
  | CbGroupStatusClear => _render (set_groupPowerStatus None s)
  end.

Definition rearm (id : positive) (p : Z) (t : Timer) : Timer :=
  if (timer_id t =? id)%positive
  then {| timer_id := timer_id t; due := due t + p; period := period t;
          callback := callback t |}
  else t.

(** One timer found due, run if it was not cleared in the meantime: a
    timeout leaves the table, an interval is due again one period later. *)
Definition fireTimer (s : Card) (t : Timer) : Card :=
  if existsb (fun u => (timer_id u =? timer_id t)%positive) (timers s) then
    let s := match period t with
             | Some p => set_timers (List.map (rearm (timer_id t) p) (timers s)) s
             | None => clearTimer (timer_id t) s
             end in
    runCallback (callback t) s
  else s.

(** The timers whose callback sends a command. *)
Definition dispatching (t : Timer) : bool :=
  match callback t with
  | CbRepeat _ => true
  | _ => false
  end.

(** The interval [_startRepeat] sets, with handle [id], next due at
    [dueAt]. *)
Definition repeatTimer (id : positive) (dueAt : Z) (command : string) : Timer :=
  {| timer_id := id; due := dueAt; period := Some 200; callback := CbRepeat command |}.

(** No repeat interval is in the table: no hold is in progress. *)
Definition noRepeatPending (s : Card) : Prop :=
  List.filter dispatching (timers s) = [].

(** The handles in use are older than the next one the browser gives. *)
Definition handlesFresh (s : Card) : Prop :=
  forall t, In t (timers s) -> (timer_id t < nextTimerId s)%positive.

(** One millisecond passes; the timers due are run in creation order. *)
Definition tick (s : Card) : Card :=
  let s := set_clock (clock s + 1) s in
  fold_left fireTimer (List.filter (fun t => due t <=? clock s) (timers s)) s.

Fixpoint advance (ms : nat) (s : Card) : Card :=
  match ms with
  | O => s
  | S n => advance n (tick s)
  end.

(** *** Group power *)

Inductive GroupEffect : Type :=
| SendTo (c : ServiceCall) (ok : bool)
| WaitMs (ms : Z).

(** Line 1756: the entry of a serial member's commands used for power. *)
Definition powerCmd (member : Member) : option (string * option string) :=
  List.find (fun e => (fst e =? "power")%string
                      || match snd e with
                         | Some n => (toLowerCase n =? "power")%string
                         | None => false
                         end)
            (member_commands member).

(** The body of the [try] for one member: what is sent, and the increment
    of [successCount]. *)
Definition sendPower (ok : bool) (member : Member) : list GroupEffect * nat :=
  if (member_type member =? "controlled")%string then
    ([SendTo {| service := "send_command";
                call_device_id := Some (member_device_id member);
                call_arg := "power" |} ok],
     if ok then 1%nat else 0%nat)
  else if (member_type member =? "serial")%string then
    match powerCmd member with
    | Some e =>
        ([SendTo {| service := "send_serial_command";
                    call_device_id := Some (member_device_id member);
                    call_arg := fst e |} ok],
         if ok then 1%nat else 0%nat)
    | None => ([], 0%nat)
    end
  else ([], 0%nat).

(** The [for] loop from index [i] on, [total] being the number of members;
    [ok j] is the outcome of the call made for member [j]. *)
Fixpoint groupPowerLoop (ok : nat -> bool) (delay : Z) (total i : nat)
    (members : list Member) (successCount : nat) : list GroupEffect * nat :=
  match members with
  | [] => ([], successCount)
  | member :: rest =>
      let (sent, inc) := sendPower (ok i) member in
      let waits := if (i <? total - 1)%nat then [WaitMs delay] else [] in
      let (later, n) :=
        groupPowerLoop ok delay total (S i) rest (successCount + inc)%nat in
      ((sent ++ waits ++ later)%list, n)
  end.

(** The description of the loop: each member's send in order, one wait
    between two members, none after the last. *)
Fixpoint sendsWithWaitsBetween (ok : nat -> bool) (delay : Z) (i : nat)
    (members : list Member) : list GroupEffect :=
  match members with
  | [] => []
  | member :: rest =>
      match rest with
      | [] => fst (sendPower (ok i) member)
      | _ :: _ =>
          (fst (sendPower (ok i) member) ++ [WaitMs delay]
           ++ sendsWithWaitsBetween ok delay (S i) rest)%list
      end
  end.

(** [this._deviceGroup.sequence_delay_ms || 20]. *)
Definition sequenceDelay (g : DeviceGroup) : Z :=
  match sequence_delay_ms g with
  | Some d => if d =? 0 then 20 else d
  | None => 20
  end.

Definition callsOf (tr : list GroupEffect) : list ServiceCall :=
  flat_map (fun e => match e with SendTo c _ => [c] | WaitMs _ => [] end) tr.


(** The number of sends that succeeded. *)
Definition successes (tr : list GroupEffect) : nat :=
  length (List.filter (fun e => match e with SendTo _ b => b | WaitMs _ => false end) tr).

(** The call a member's power command is. *)
Definition powerCall (member : Member) : list ServiceCall :=
  callsOf (fst (sendPower true member)).

Definition sentSummary (successCount total : nat) : string :=
  ("Sent to " ++ toString (JNum (Z.of_nat successCount)) ++ "/"
   ++ toString (JNum (Z.of_nat total)) ++ " devices")%string.

(** [_sendGroupPowerCommand]: the final state, the sends and waits in the
    order they happen, and the final [successCount].  The waits are part of
    the trace; the card's other timers are not run during them. *)
Definition _sendGroupPowerCommand (ok : nat -> bool) (s : Card)
    : Card * list GroupEffect * nat :=
  match _deviceGroup s with
  | None => (s, [], 0%nat)
  | Some g =>
      let members := _groupMemberDevices s in
      if (length members =? 0)%nat then (s, [], 0%nat)
      else
        let delay := sequenceDelay g in
        let (tr, successCount) :=
          groupPowerLoop ok delay (length members) 0 members 0 in
        let s := set_calls (calls s ++ callsOf tr) s in
        let s := _render (set_groupPowerStatus
                            (Some (sentSummary successCount (length members)))
                            (set_isSendingGroupPower false s)) in
        (fst (setTimeout CbGroupStatusClear 3000 s), tr, successCount)
  end.

(** *** Matrix input selection *)

(** Lines 1870-1884: what follows a call that resolved. *)
Definition matrixCommandSent (env : Env) (commandId : string) (s : Card) : Card :=
  let marker := ("Matrix: " ++ commandId)%string in
  let s := set_lastSent (Some marker) (set_selectedMatrixInput (Some commandId) s) in
  let s := _render (_loadSourceDevice env s) in
  fst (setTimeout (CbClearSentIf marker) 2000 s).

(** [_sendMatrixCommand]; [ok] tells whether the awaited call resolved. *)
Definition _sendMatrixCommand (env : Env) (ok : bool) (commandId : string) (s : Card) : Card :=
  match _matrixDevice s, _device s with
  | Some m, Some d =>
      let matrixType := matrix_device_type d in
      let matrixId := matrix_device_id d in
      let cmd := List.find (fun c => optStrEq (command_id c) (Some commandId))
                           (_matrixInputCommands s) in
      match (match cmd with
             | Some c => if _generated c && optStrEq matrixType (Some "serial")
                         then Some c else None
             | None => None
             end) with
      | Some c =>
          match nonEmpty (routing_template m) with
          | None => s
          | Some template =>
              let rawCommand :=
                replaceFirst "{output}" (toString (matrix_port d))
                  (replaceFirst "{input}" (toString (input_value c)) template) in
              let s := callService "send_raw_serial_command" matrixId rawCommand s in
              if ok then matrixCommandSent env commandId s else s
          end
      | None =>
          let serviceName := if optStrEq matrixType (Some "network")
                             then "send_network_command"
                             else "send_serial_command" in
          let s := callService serviceName matrixId commandId s in
          if ok then matrixCommandSent env commandId s else s
      end
  | _, _ => s
  end.

End Card.

(** ** The shared response cache *)

Module VDADataCache.
Local Open Scope Z_scope.

(** [_ttl]. *)
Definition _ttl : Z := 5000.

Section Cache.
Variables V E : Type.

(** One entry of [_data]. *)
Record Entry : Type := {
  value : V;
  timestamp : Z
}.

(** The promise stored in [_loading] for a key: pending (with the key its
    handlers captured), or settled. *)
Inductive Promise : Type :=
| Pending (key : string)
| Resolved (v : V)
| Rejected (e : E).

(** The cache object, the promises it created, and the producers it has
    invoked so far (a producer is named by a label).  The keys of [_data]
    and [_loading] are the resource names the cards use; the properties an
    object inherits are not among them. *)
Record State : Type := mkState {
  _data : gmap string Entry;
  _loading : gmap string positive;
  promises : gmap positive Promise;
  nextPromise : positive;
  invoked : list (string * nat)
}.

(** What a caller of [fetch] is given: the cached value, or the promise of
    [_loading]. *)
Inductive Handle : Type :=
| Ready (v : V)
| Shared (p : positive).

(** [this._data[key] && (now - this._data[key].timestamp) < this._ttl]. *)
Definition fresh (key : string) (now : Z) (s : State) : option V :=
  match _data s !! key with
  | Some e => if now - timestamp e <? _ttl then Some (value e) else None
  | None => None
  end.

(** [fetch(key, fetchFn)] called at time [now]. *)
Definition fetch (key : string) (fetchFn : nat) (now : Z) (s : State) : State * Handle :=
  match fresh key now s with
  | Some v => (s, Ready v)
  | None =>
      match _loading s !! key with
      | Some p => (s, Shared p)
      | None =>
          let p := nextPromise s in
          (mkState (_data s) (<[key := p]> (_loading s))
                   (<[p := Pending key]> (promises s)) (Pos.succ p)
                   (invoked s ++ [(key, fetchFn)]),
           Shared p)
      end
  end.

(** The [then] handler: the producer behind promise [p] resolved. *)
Definition resolved (p : positive) (v : V) (now : Z) (s : State) : State :=
  match promises s !! p with
  | Some (Pending key) =>
      mkState (<[key := {| value := v; timestamp := now |}]> (_data s))
              (delete key (_loading s))
              (<[p := Resolved v]> (promises s)) (nextPromise s) (invoked s)
  | _ => s
  end.

(** The [catch] handler: the producer behind promise [p] failed. *)
Definition rejected (p : positive) (e : E) (s : State) : State :=
  match promises s !! p with
  | Some (Pending key) =>
      mkState (_data s) (delete key (_loading s))
              (<[p := Rejected e]> (promises s)) (nextPromise s) (invoked s)
  | _ => s
  end.

Definition invalidate (key : string) (s : State) : State :=
  mkState (delete key (_data s)) (_loading s) (promises s) (nextPromise s) (invoked s).

Definition invalidateAll (s : State) : State :=
  mkState ∅ (_loading s) (promises s) (nextPromise s) (invoked s).

(** What a caller awaiting a handle has received so far. *)
Definition received (s : State) (h : Handle) : option (V + E) :=
  match h with
  | Ready v => Some (inl v)
  | Shared p =>
      match promises s !! p with
      | Some (Resolved v) => Some (inl v)
      | Some (Rejected e) => Some (inr e)
      | _ => None
      end
  end.

(** What can happen to the cache. *)
Inductive Event : Type :=
| EFetch (key : string) (fetchFn : nat) (now : Z)
| EResolved (p : positive) (v : V) (now : Z)
| ERejected (p : positive) (e : E)
| EInvalidate (key : string)
| EInvalidateAll.

Definition step (s : State) (ev : Event) : State :=
  match ev with
  | EFetch key fetchFn now => fst (fetch key fetchFn now s)
  | EResolved p v now => resolved p v now s
  | ERejected p e => rejected p e s
  | EInvalidate key => invalidate key s
  | EInvalidateAll => invalidateAll s
  end.

Definition run (s : State) (evs : list Event) : State := fold_left step evs s.

(** The number of producer invocations made for [key]. *)
Definition invocations (key : string) (s : State) : nat :=
  length (List.filter (fun i => (fst i =? key)%string) (invoked s)).

(** The loading markers are the pending promises, and the next handle is
    unused: the states the cache can be in. *)
Definition wellFormed (s : State) : Prop :=
  (forall key p, _loading s !! key = Some p <-> promises s !! p = Some (Pending key))
  /\ (forall p, is_Some (promises s !! p) -> (p < nextPromise s)%positive).

(** An event of a window opened at [t1] and shorter than the time-to-live,
    during which the producer of [key] does not fail and [key] is not
    evicted; the clock does not run backwards. *)
Definition inWindow (key : string) (t1 : Z) (s : State) (ev : Event) : Prop :=
  match ev with
  | EFetch k _ now => k = key -> now - t1 < _ttl
  | EResolved _ _ now => t1 <= now
  | ERejected p _ => promises s !! p <> Some (Pending key)
  | EInvalidate k => k <> key
  | EInvalidateAll => False
  end.

Fixpoint windowRun (key : string) (t1 : Z) (s : State) (evs : list Event) : Prop :=
  match evs with
  | [] => True
  | ev :: rest => inWindow key t1 s ev /\ windowRun key t1 (step s ev) rest
  end.

(** An event that happens after [t1] and does not settle promise [p]. *)
Definition leavesPending (p : positive) (t1 : Z) (ev : Event) : Prop :=
  match ev with
  | EFetch _ _ now => t1 <= now
  | EResolved q _ _ => q <> p
  | ERejected q _ => q <> p
  | EInvalidate _ => True
  | EInvalidateAll => True
  end.

(** The empty cache. *)
Definition init : State := mkState ∅ ∅ ∅ 1%positive [].

End Cache.

Arguments value {V}.
Arguments timestamp {V}.
Arguments _data {V E}.
Arguments _loading {V E}.
Arguments promises {V E}.
Arguments nextPromise {V E}.
Arguments invoked {V E}.
Arguments Ready {V}.
Arguments Shared {V}.
Arguments Pending {V E}.
Arguments Resolved {V E}.
Arguments Rejected {V E}.
Arguments fresh {V E}.
Arguments fetch {V E}.
Arguments resolved {V E}.
Arguments rejected {V E}.
Arguments invalidate {V E}.
Arguments invalidateAll {V E}.
Arguments received {V E}.
Arguments EFetch {V E}.
Arguments EResolved {V E}.
Arguments ERejected {V E}.
Arguments EInvalidate {V E}.
Arguments EInvalidateAll {V E}.
Arguments step {V E}.
Arguments run {V E}.
Arguments invocations {V E}.
Arguments wellFormed {V E}.
Arguments inWindow {V E}.
Arguments windowRun {V E}.
Arguments leavesPending {V E}.
Arguments init {V E}.

End VDADataCache.

(** ** The rate-limited query queue *)

Module VDAMatrixQueryQueue.
Local Open Scope Z_scope.

(** [_minInterval]. *)
Definition _minInterval : Z := 300.

Section Queue.
Variables R E : Type.

(** How a [queryFn] ends. *)
Inductive Outcome : Type :=
| Returned (r : R)
| Threw (e : E).

(** Where [_processQueue] is suspended: not running, at the [await] of the
    spacing timer (set to fire at [until]), or at the [await] of the
    operation it started.  An operation is named by a label. *)
Inductive Phase : Type :=
| Idle
| Waiting (op : nat) (until : Z)
| Running (op : nat).

(** What the outside observes: an operation is started, a handle settles. *)
Inductive Observed : Type :=
| Started (op : nat) (at_ : Z)
| Settled (op : nat) (o : Outcome).

Record State : Type := mkState {
  _queue : list nat;
  _processing : bool;
  _lastQueryTime : Z;
  phase : Phase;
  observed : list Observed
}.

(** Lines 72-74: the operation is started at time [now]. *)
Definition start (op : nat) (now : Z) (s : State) : State :=
  mkState (_queue s) (_processing s) now (Running op)
          (observed s ++ [Started op now]).

(** The [while] loop, entered at its test at time [now], up to its next
    [await]. *)
Definition loop (now : Z) (s : State) : State :=
  match _queue s with
  | [] => mkState [] false (_lastQueryTime s) Idle (observed s)
  | op :: rest =>
      let s := mkState rest (_processing s) (_lastQueryTime s) (phase s) (observed s) in
      let elapsed := now - _lastQueryTime s in
      if elapsed <? _minInterval
      then mkState (_queue s) (_processing s) (_lastQueryTime s)
                   (Waiting op (now + (_minInterval - elapsed))) (observed s)
      else start op now s
  end.

Definition _processQueue (now : Z) (s : State) : State :=
  if _processing s || (length (_queue s) =? 0)%nat then s
  else loop now (mkState (_queue s) true (_lastQueryTime s) (phase s) (observed s)).

(** [enqueue(queryFn)] called at time [now]. *)
Definition enqueue (op : nat) (now : Z) (s : State) : State :=
  _processQueue now
    (mkState (_queue s ++ [op]) (_processing s) (_lastQueryTime s) (phase s) (observed s)).

(** The spacing timer fires at time [now]. *)
Definition timerFired (now : Z) (s : State) : State :=
  match phase s with
  | Waiting op _ => start op now s
  | _ => s
  end.

(** The running operation ends at time [now]: its handle is settled and
    the loop goes on. *)
Definition opSettled (o : Outcome) (now : Z) (s : State) : State :=
  match phase s with
  | Running op =>
      loop now (mkState (_queue s) (_processing s) (_lastQueryTime s) (phase s)
                        (observed s ++ [Settled op o]))
  | _ => s
  end.

Inductive Event : Type :=
| EEnqueue (op : nat) (now : Z)
| ETimer (now : Z)
| ESettled (o : Outcome) (now : Z).

Definition step (s : State) (ev : Event) : State :=
  match ev with
  | EEnqueue op now => enqueue op now s
  | ETimer now => timerFired now s
  | ESettled o now => opSettled o now s
  end.

Definition run (s : State) (evs : list Event) : State := fold_left step evs s.

(** A timer does not fire before the time it was set for. *)
Definition timely (s : State) (ev : Event) : Prop :=
  match ev, phase s with
  | ETimer now, Waiting _ until => until <= now
  | _, _ => True
  end.

Fixpoint timelyRun (s : State) (evs : list Event) : Prop :=
  match evs with
  | [] => True
  | ev :: rest => timely s ev /\ timelyRun (step s ev) rest
  end.

Definition enqueuedOps (evs : list Event) : list nat :=
  flat_map (fun ev => match ev with EEnqueue op _ => [op] | _ => [] end) evs.

Definition startedOps (s : State) : list nat :=
  flat_map (fun o => match o with Started op _ => [op] | _ => [] end) (observed s).

Definition startTimes (s : State) : list Z :=
  flat_map (fun o => match o with Started _ t => [t] | _ => [] end) (observed s).

Definition settledOps (s : State) : list (nat * Outcome) :=
  flat_map (fun o => match o with Settled op r => [(op, r)] | _ => [] end) (observed s).

(** The operation taken off the queue and not started yet. *)
Definition pendingStart (s : State) : list nat :=
  match phase s with
  | Waiting op _ => [op]
  | _ => []
  end.

(** Consecutive times at least [gap] apart. *)
Fixpoint spaced (gap : Z) (ts : list Z) : Prop :=
  match ts with
  | a :: (b :: _) as rest => gap <= b - a /\ spaced gap rest
  | _ => True
  end.

(** Starts and settlements alternate, each settlement being that of the
    operation started just before; [running] is the operation started and
    not settled yet. *)
Fixpoint alternates (running : option nat) (obs : list Observed) : Prop :=
  match obs with
  | [] => True
  | Started op _ :: rest => running = None /\ alternates (Some op) rest
  | Settled op _ :: rest => running = Some op /\ alternates None rest
  end.

Definition oneAtATime (obs : list Observed) : Prop := alternates None obs.

(** The operation being run. *)
Definition runningOp (s : State) : list nat :=
  match phase s with
  | Running op => [op]
  | _ => []
  end.

(** The environment that fires each timer when it is due and ends the
    operation [op] after [duration op] with [outcomeOf op]. *)
Fixpoint drive (fuel : nat) (outcomeOf : nat -> Outcome) (duration : nat -> Z)
    (s : State) : State :=
  match fuel with
  | O => s
  | S fuel' =>
      match phase s with
      | Idle => s
      | Waiting _ until => drive fuel' outcomeOf duration (timerFired until s)
      | Running op =>
          drive fuel' outcomeOf duration
            (opSettled (outcomeOf op) (_lastQueryTime s + duration op) s)
      end
  end.

(** The queue object as the script creates it. *)
Definition init : State := mkState [] false 0 Idle [].

End Queue.

Arguments Returned {R E}.
Arguments Threw {R E}.
Arguments Started {R E}.
Arguments Settled {R E}.
Arguments _queue {R E}.
Arguments _processing {R E}.
Arguments _lastQueryTime {R E}.
Arguments phase {R E}.
Arguments observed {R E}.
Arguments start {R E}.
Arguments loop {R E}.
Arguments _processQueue {R E}.
Arguments enqueue {R E}.
Arguments timerFired {R E}.
Arguments opSettled {R E}.
Arguments EEnqueue {R E}.
Arguments ETimer {R E}.
Arguments ESettled {R E}.
Arguments step {R E}.
Arguments run {R E}.
Arguments timely {R E}.
Arguments timelyRun {R E}.
Arguments enqueuedOps {R E}.
Arguments startedOps {R E}.
Arguments startTimes {R E}.
Arguments settledOps {R E}.
Arguments pendingStart {R E}.
Arguments alternates {R E}.
Arguments oneAtATime {R E}.
Arguments runningOp {R E}.
Arguments init {R E}.
Arguments drive {R E}.

End VDAMatrixQueryQueue.

(** * The card: loading the device data, and the buttons it renders *)

Module CardView.
Import Js Card.

(** ** The rest of the instance state *)

(** A serial device of the [serial_devices] registry; [serial_commands] is
    [Object.entries(commands || {})] with each command's [name]. *)
Record SerialDevice : Type := {
  serial_device_id : string;
  serial_name : string;
  serial_commands : list (string * option string)
}.

(** One entry of a group's [members]. *)
Record MemberRef : Type := {
  ref_device_type : option string;
  ref_device_id : string
}.

(** A group of the [device_groups] registry. *)
Record GroupData : Type := {
  group : DeviceGroup;
  members : option (list MemberRef)
}.

(** What the four cached requests of [_loadDeviceData] resolve to
    ([groupsData.groups || []] and the like). *)
Record Registries : Type := {
  groups : list GroupData;
  devices : list Device;
  serial_devices : list SerialDevice;
  ha_devices : list HADevice
}.

(** [this._config]: the fields the card's logic reads.  [quick_buttons] and
    [tv_devices] are [None] when absent (or not an array). *)
Record Config : Type := {
  config_device_id : string;
  quick_buttons : option (list string);
  tv_devices : option (list string)
}.

(** The instance: the state of [Card], and the fields read by the loading
    and rendering code. *)
Record RemoteCard : Type := mkRemoteCard {
  base : Card;
  _config : Config;
  _isDeviceGroup : bool;
  _commands : list string;
  _deviceType : option string;
  _outputDevices : list Device;
  _tvDevices : list Device
}.

Definition set_base (v : Card) (r : RemoteCard) : RemoteCard :=
  mkRemoteCard v (_config r) (_isDeviceGroup r) (_commands r) (_deviceType r)
    (_outputDevices r) (_tvDevices r).
Definition set_config (v : Config) (r : RemoteCard) : RemoteCard :=
  mkRemoteCard (base r) v (_isDeviceGroup r) (_commands r) (_deviceType r)
    (_outputDevices r) (_tvDevices r).
Definition set_isDeviceGroup (v : bool) (r : RemoteCard) : RemoteCard :=
  mkRemoteCard (base r) (_config r) v (_commands r) (_deviceType r)
    (_outputDevices r) (_tvDevices r).
Definition set_commands (v : list string) (r : RemoteCard) : RemoteCard :=
  mkRemoteCard (base r) (_config r) (_isDeviceGroup r) v (_deviceType r)
    (_outputDevices r) (_tvDevices r).
Definition set_deviceType (v : option string) (r : RemoteCard) : RemoteCard :=
  mkRemoteCard (base r) (_config r) (_isDeviceGroup r) (_commands r) v
    (_outputDevices r) (_tvDevices r).
Definition set_outputDevices (v : list Device) (r : RemoteCard) : RemoteCard :=
  mkRemoteCard (base r) (_config r) (_isDeviceGroup r) (_commands r) (_deviceType r)
    v (_tvDevices r).
Definition set_tvDevices (v : list Device) (r : RemoteCard) : RemoteCard :=
  mkRemoteCard (base r) (_config r) (_isDeviceGroup r) (_commands r) (_deviceType r)
    (_outputDevices r) v.

Definition set_device (v : option Device) (s : Card) : Card :=
  mkCard v (_allDevices s) (_haDevices s) (_deviceGroup s)
    (_groupMemberDevices s) (_matrixDevice s) (_matrixInputCommands s)
    (_selectedMatrixInput s) (_sourceDevice s) (_sourceCommands s) (_sourceIsHADevice s)
    (_sourceMediaPlayerEntity s) (_sourceDeviceType s) (_showRemote s)
    (_lastSent s) (_lastSendTime s) (_isHolding s) (_holdCommand s)
    (_repeatInterval s) (_fillDelayTimeout s) (_isSendingGroupPower s)
    (_groupPowerStatus s) (toastInDom s) (clock s) (timers s) (nextTimerId s) (calls s).
Definition set_allDevices (v : list Device) (s : Card) : Card :=
  mkCard (_device s) v (_haDevices s) (_deviceGroup s)
    (_groupMemberDevices s) (_matrixDevice s) (_matrixInputCommands s)
    (_selectedMatrixInput s) (_sourceDevice s) (_sourceCommands s) (_sourceIsHADevice s)
    (_sourceMediaPlayerEntity s) (_sourceDeviceType s) (_showRemote s)
    (_lastSent s) (_lastSendTime s) (_isHolding s) (_holdCommand s)
    (_repeatInterval s) (_fillDelayTimeout s) (_isSendingGroupPower s)
    (_groupPowerStatus s) (toastInDom s) (clock s) (timers s) (nextTimerId s) (calls s).
Definition set_haDevices (v : list HADevice) (s : Card) : Card :=
  mkCard (_device s) (_allDevices s) v (_deviceGroup s)
    (_groupMemberDevices s) (_matrixDevice s) (_matrixInputCommands s)
    (_selectedMatrixInput s) (_sourceDevice s) (_sourceCommands s) (_sourceIsHADevice s)
    (_sourceMediaPlayerEntity s) (_sourceDeviceType s) (_showRemote s)
    (_lastSent s) (_lastSendTime s) (_isHolding s) (_holdCommand s)
    (_repeatInterval s) (_fillDelayTimeout s) (_isSendingGroupPower s)
    (_groupPowerStatus s) (toastInDom s) (clock s) (timers s) (nextTimerId s) (calls s).
Definition set_deviceGroup (v : option DeviceGroup) (s : Card) : Card :=
  mkCard (_device s) (_allDevices s) (_haDevices s) v
    (_groupMemberDevices s) (_matrixDevice s) (_matrixInputCommands s)
    (_selectedMatrixInput s) (_sourceDevice s) (_sourceCommands s) (_sourceIsHADevice s)
    (_sourceMediaPlayerEntity s) (_sourceDeviceType s) (_showRemote s)
    (_lastSent s) (_lastSendTime s) (_isHolding s) (_holdCommand s)
    (_repeatInterval s) (_fillDelayTimeout s) (_isSendingGroupPower s)
    (_groupPowerStatus s) (toastInDom s) (clock s) (timers s) (nextTimerId s) (calls s).
Definition set_groupMemberDevices (v : list Member) (s : Card) : Card :=
  mkCard (_device s) (_allDevices s) (_haDevices s) (_deviceGroup s)
    v (_matrixDevice s) (_matrixInputCommands s)
    (_selectedMatrixInput s) (_sourceDevice s) (_sourceCommands s) (_sourceIsHADevice s)
    (_sourceMediaPlayerEntity s) (_sourceDeviceType s) (_showRemote s)
    (_lastSent s) (_lastSendTime s) (_isHolding s) (_holdCommand s)
    (_repeatInterval s) (_fillDelayTimeout s) (_isSendingGroupPower s)
    (_groupPowerStatus s) (toastInDom s) (clock s) (timers s) (nextTimerId s) (calls s).

(** The state the constructor leaves, the browser's clock reading [now]. *)
Definition constructed (now : Z) : RemoteCard := {|
  base := {|
    _device := None;
    _allDevices := [];
    _haDevices := [];
    _deviceGroup := None;
    _groupMemberDevices := [];
    _matrixDevice := None;
    _matrixInputCommands := [];
    _selectedMatrixInput := None;
    _sourceDevice := None;
    _sourceCommands := [];
    _sourceIsHADevice := false;
    _sourceMediaPlayerEntity := None;
    _sourceDeviceType := None;
    _showRemote := false;
    _lastSent := None;
    _lastSendTime := None;
    _isHolding := false;
    _holdCommand := None;
    _repeatInterval := None;
    _fillDelayTimeout := None;
    _isSendingGroupPower := false;
    _groupPowerStatus := None;
    toastInDom := false;
    clock := now;
    timers := [];
    nextTimerId := 1;
    calls := []
  |};
  _config := {| config_device_id := ""; quick_buttons := None; tv_devices := None |};
  _isDeviceGroup := false;
  _commands := [];
  _deviceType := None;
  _outputDevices := [];
  _tvDevices := []
|}.

(** [setConfig(config)]: [None] when it throws. *)
Definition setConfig (config : Config) (r : RemoteCard) : option RemoteCard :=
  if negb (truthy (JStr (config_device_id config))) then None
  else Some (set_config config r).

(** ** [_loadDeviceData] *)

(** Lines 215-223: the record kept for one member, [null] being [None].
    The spread of a controlled device carries no [commands]. *)
Definition hydrate (allDevices : list Device) (serialDevices : list SerialDevice)
    (member : MemberRef) : option Member :=
  if optStrEq (ref_device_type member) (Some "controlled") then
    match List.find (fun d => device_id d =? ref_device_id member) allDevices with
    | Some device =>
        Some {| member_device_id := device_id device; member_name := name device;
                member_type := "controlled"; member_commands := [] |}
    | None => None
    end
  else if optStrEq (ref_device_type member) (Some "serial") then
    match List.find (fun d => serial_device_id d =? ref_device_id member) serialDevices with
    | Some device =>
        Some {| member_device_id := serial_device_id device;
                member_name := serial_name device;
                member_type := "serial"; member_commands := serial_commands device |}
    | None => None
    end
  else None.

(** [_loadCommands]; [None] when it throws: [profileId.startsWith] on a
    device without profile id, or a request that fails. *)
Definition _loadCommands (env : Env) (r : RemoteCard) : option RemoteCard :=
  match _device (base r) with
  | None => Some r
  | Some d =>
      match device_profile_id d with
      | None => None
      | Some profileId =>
          if startsWith "builtin:" profileId then
            match fetchBuiltinProfile env
                    (substring 8 (String.length profileId - 8) profileId) with
            | FetchThrows => None
            | FetchNotOk => Some r
            | FetchOk profile =>
                Some (set_deviceType (device_type profile)
                        (set_commands (codes profile) r))
            end
          else
            match fetchProfile env profileId with
            | FetchThrows => None
            | FetchNotOk => Some r
            | FetchOk profile =>
                Some (set_deviceType (device_type profile)
                        (set_commands (learned_commands profile) r))
            end
      end
  end.

(** Lines 234-240: the other devices on the same matrix output. *)
Definition sharesOutput (own d : Device) : bool :=
  negb (device_id d =? device_id own)
  && strictEq (matrix_port d) (matrix_port own)
  && optStrEq (matrix_device_id d) (matrix_device_id own).

(** Lines 228-248: what is loaded for a device, up to a throw. *)
Definition loadDevice (env : Env) (matrixReply : Fetched MatrixDevice)
    (allDevices : list Device) (d : Device) (r : RemoteCard) : RemoteCard :=
  match _loadCommands env r with
  | None => r
  | Some r =>
      let r := set_base (_loadMatrixDevice matrixReply (base r)) r in
      let r := if truthy (matrix_port d)
                  && bool_decide (is_Some (nonEmpty (matrix_device_id d)))
               then set_outputDevices (List.filter (sharesOutput d) allDevices) r
               else r in
      match tv_devices (_config r) with
      | Some ids =>
          set_tvDevices
            (omap (fun tvId => List.find (fun d => device_id d =? tvId) allDevices) ids) r
      | None => r
      end
  end.

(** [_loadDeviceData], called by the [hass] setter (so [_hass] is set);
    [data] is what the four cached requests give, [None] when one of them
    is rejected, and [matrixReply] the outcome of the matrix detail
    request. *)
Definition _loadDeviceData (env : Env) (data : option Registries)
    (matrixReply : Fetched MatrixDevice) (r : RemoteCard) : RemoteCard :=
  if negb (truthy (JStr (config_device_id (_config r)))) then r
  else
    match data with
    | None => set_base (_render (base r)) r
    | Some data =>
        let id := config_device_id (_config r) in
        let found := List.find (fun g => group_id (group g) =? id) (groups data) in
        let r := set_isDeviceGroup (bool_decide (is_Some found))
                   (set_base (set_deviceGroup (option_map group found) (base r)) r) in
        let allDevices := devices data in
        let r := set_base (set_allDevices allDevices (base r)) r in
        let r := if negb (_isDeviceGroup r)
                 then set_base (set_device
                                  (List.find (fun d => device_id d =? id) allDevices)
                                  (base r)) r
                 else r in
        let r := set_base (set_haDevices (ha_devices data) (base r)) r in
        let r := match found with
                 | Some g =>
                     match members g with
                     | Some ms =>
                         set_base (set_groupMemberDevices
                                     (omap (hydrate allDevices (serial_devices data)) ms)
                                     (base r)) r
                     | None => r
                     end
                 | None => r
                 end in
        let r := match _device (base r) with
                 | Some d =>
                     if negb (_isDeviceGroup r)
                     then loadDevice env matrixReply allDevices d r
                     else r
                 | None => r
                 end in
        set_base (_render (base r)) r
    end.

(** A producer of [_loadDeviceData]: [resp.ok ? resp.json() : { devices: [] }],
    [None] when the request fails. *)
Definition registry {A : Type} (resp : Fetched (list A)) : option (list A) :=
  match resp with
  | FetchThrows => None
  | FetchNotOk => Some []
  | FetchOk l => Some l
  end.

(** ** [_queryMatrixRouting]: the request *)

(** What [_queryMatrixRouting] asks for: the key under which the reply is
    cached, the serial device the query is sent to and its payload. *)
Record RoutingQuery : Type := {
  cacheKey : string;
  queryMatrixId : option string;
  queryCmd : string
}.

(** The text a template literal gives for [matrix_device_id]. *)
Definition idText (id : option string) : string :=
  match id with
  | Some s => s
  | None => "undefined"
  end.

(** Lines 343-358: [None] when the function returns before it asks (no
    matrix, no output port, a matrix that is not serial, no query
    template). *)
Definition routingQuery (s : Card) : option RoutingQuery :=
  match _matrixDevice s, _device s with
  | Some m, Some d =>
      if negb (truthy (matrix_port d)) then None
      else if negb (optStrEq (matrix_device_type d) (Some "serial")) then None
      else
        match nonEmpty (query_template m) with
        | None => None
        | Some queryTemplate =>
            let outputNum := matrix_port d in
            let matrixId := matrix_device_id d in
            Some {| cacheKey := "matrix_routing_" ++ idText matrixId ++ "_"
                                ++ toString outputNum;
                    queryMatrixId := matrixId;
                    queryCmd := replaceFirst "{output}" (toString outputNum) queryTemplate |}
        end
  | _, _ => None
  end.

(** ** [_getQuickButtons] *)

(** The [defaults] table; the device types are its keys. *)
Definition defaults (deviceType : option string) : list string :=
  match deviceType with
  | Some "tv" => ["power"; "volume_up"; "volume_down"; "mute"]
  | Some "cable_box" => ["power"; "guide"; "channel_up"; "channel_down"]
  | Some "soundbar" => ["power"; "volume_up"; "volume_down"; "mute"]
  | Some "streaming" => ["power"; "home"; "play_pause"; "back"]
  | _ => ["power"; "volume_up"; "volume_down"]
  end.

Definition _getQuickButtons (r : RemoteCard) : list string :=
  match quick_buttons (_config r) with
  | Some configured => List.filter (fun cmd => inList cmd (_commands r)) configured
  | None => List.filter (fun cmd => inList cmd (_commands r)) (defaults (_deviceType r))
  end.

(** ** The buttons of the document *)

(** A [data-command] button: its [data-command], [data-device-id],
    [data-tv-device-id] and [data-source] attributes. *)
Record Button : Type := {
  data_command : string;
  data_device_id : option string;
  data_tv_device_id : option string;
  data_source : bool
}.

(** A button with the [data-command] attribute only. *)
Definition commandButton (cmd : string) : Button :=
  {| data_command := cmd; data_device_id := None; data_tv_device_id := None;
     data_source := false |}.

Definition deviceButton (cmd deviceId : string) : Button :=
  {| data_command := cmd; data_device_id := Some deviceId; data_tv_device_id := None;
     data_source := false |}.

Definition tvButton (tv : Device) : Button :=
  {| data_command := "power"; data_device_id := None;
     data_tv_device_id := Some (device_id tv); data_source := false |}.

Definition sourceButton (cmd : string) : Button :=
  {| data_command := cmd; data_device_id := None; data_tv_device_id := None;
     data_source := true |}.

(** [cond ? button : ''] for a fixed command. *)
Definition buttonIf (cond : bool) (cmd : string) : list Button :=
  if cond then [commandButton cmd] else [].

(** [l.some(p) ? button(l.find(p)) : '']. *)
Definition buttonFor (p : string -> bool) (l : list string) : list Button :=
  match List.find p l with
  | Some cmd => [commandButton cmd]
  | None => []
  end.

(** [/^[0-9]$/.test(c)]. *)
Definition isDigitCommand (c : string) : bool :=
  match c with
  | String ch EmptyString => isDigit ch
  | _ => false
  end.

Definition navNames : list string :=
  ["up"; "down"; "left"; "right"; "enter"; "select"; "center"; "back"; "exit";
   "menu"; "home"; "guide"; "info"].

Definition dpadNames : list string :=
  ["up"; "down"; "left"; "right"; "select"; "enter"; "center"].

Definition playNames : list string :=
  ["play"; "pause"; "play_pause"; "stop"; "rewind"; "fast_forward"; "record";
   "replay"; "ffwd"; "rew"; "next"; "previous"; "advance"].

Definition numpadKeys : list string :=
  ["1"; "2"; "3"; "4"; "5"; "6"; "7"; "8"; "9"; "0"].

(** Line 1535: [this._matrixDevice && this._sourceDevice &&
    this._sourceCommands.length > 0]. *)
Definition hasSourceDevice (r : RemoteCard) : bool :=
  bool_decide (is_Some (_matrixDevice (base r)))
  && bool_decide (is_Some (_sourceDevice (base r)))
  && (0 <? length (_sourceCommands (base r)))%nat.

(** The command lists of lines 1538-1549. *)
Definition remoteCommands (r : RemoteCard) : list string :=
  if hasSourceDevice r then _sourceCommands (base r) else _commands r.

Definition powerCmds (r : RemoteCard) : list string :=
  List.filter (includes "power") (remoteCommands r).
Definition volCmds (r : RemoteCard) : list string :=
  List.filter (fun c => includes "volume" c || (c =? "mute")) (_commands r).
Definition chanCmds (r : RemoteCard) : list string :=
  List.filter (fun c => includes "channel" c || includes "chan" c) (remoteCommands r).
Definition navCmds (r : RemoteCard) : list string :=
  List.filter (fun c => inList c navNames) (remoteCommands r).
Definition numCmds (r : RemoteCard) : list string :=
  List.filter isDigitCommand (remoteCommands r).
Definition inputCmds (r : RemoteCard) : list string :=
  List.filter (fun c => includes "hdmi" c || includes "source" c || includes "input" c)
              (remoteCommands r).
Definition playCmds (r : RemoteCard) : list string :=
  List.filter (fun c => inList c playNames) (remoteCommands r).

(** The power row (lines 1568-1600). *)
Definition powerSection (r : RemoteCard) (d : Device) : list Button :=
  if hasSourceDevice r then
    (deviceButton "power" (device_id d)
     :: List.map tvButton (_tvDevices r)
     ++ (if inList "power" (powerCmds r) then [sourceButton "power"] else []))%list
  else List.map commandButton (powerCmds r).

(** The D-pad and the row under it (lines 1603-1622). *)
Definition navSection (r : RemoteCard) : list Button :=
  let nav := navCmds r in
  if (0 <? length nav)%nat then
    (buttonIf (inList "up" nav) "up"
     ++ buttonIf (inList "left" nav) "left"
     ++ (if inList "select" nav || inList "enter" nav || inList "center" nav
         then [commandButton (if inList "select" nav then "select"
                              else if inList "center" nav then "center" else "enter")]
         else [])
     ++ buttonIf (inList "right" nav) "right"
     ++ buttonIf (inList "down" nav) "down"
     ++ List.map commandButton (List.filter (fun c => negb (inList c dpadNames)) nav))%list
  else [].

(** Volume and channel (lines 1625-1645). *)
Definition volChanSection (r : RemoteCard) : list Button :=
  let vol := volCmds r in
  let chan := chanCmds r in
  if (0 <? length vol)%nat || (0 <? length chan)%nat then
    ((if (0 <? length vol)%nat
      then (buttonIf (inList "volume_up" vol) "volume_up"
            ++ buttonIf (inList "mute" vol) "mute"
            ++ buttonIf (inList "volume_down" vol) "volume_down")%list
      else [])
     ++ (if (0 <? length chan)%nat
         then (buttonFor (fun c => (c =? "channel_up") || (c =? "chanup")) chan
               ++ buttonFor (fun c => (c =? "channel_down") || (c =? "chandown")) chan)%list
         else []))%list
  else [].

(** The number pad (lines 1648-1657). *)
Definition numSection (r : RemoteCard) : list Button :=
  let num := numCmds r in
  if (0 <? length num)%nat
  then flat_map (fun n => buttonIf (inList n num) n) numpadKeys
  else [].

(** Playback (lines 1660-1672). *)
Definition playSection (r : RemoteCard) : list Button :=
  let play := playCmds r in
  if (0 <? length play)%nat then
    (buttonFor (fun c => inList c ["rewind"; "rew"; "previous"; "replay"]) play
     ++ buttonIf (inList "play" play) "play"
     ++ buttonIf (inList "play_pause" play) "play_pause"
     ++ buttonIf (inList "pause" play) "pause"
     ++ buttonIf (inList "stop" play) "stop"
     ++ buttonFor (fun c => inList c ["fast_forward"; "ffwd"; "next"; "advance"]) play)%list
  else [].

(** The inputs row (lines 1674-1696): the buttons of a matrix carry
    [data-matrix-command], not [data-command]. *)
Definition inputSection (r : RemoteCard) : list Button :=
  if bool_decide (is_Some (_matrixDevice (base r)))
     && (0 <? length (_matrixInputCommands (base r)))%nat
  then []
  else List.map commandButton (inputCmds r).

(** The [data-command] buttons of [_renderRemoteContent], in document
    order; it is called for a card that has a device. *)
Definition _renderRemoteContent (r : RemoteCard) : list Button :=
  match _device (base r) with
  | Some d =>
      (powerSection r d ++ navSection r ++ volChanSection r ++ numSection r
       ++ playSection r ++ inputSection r)%list
  | None => []
  end.

(** The [data-command] buttons of the card header (lines 1175-1202). *)
Definition headerButtons (r : RemoteCard) (d : Device) : list Button :=
  if bool_decide (is_Some (_matrixDevice (base r)))
     && (0 <? length (_matrixInputCommands (base r)))%nat
  then ((if inList "power" (_commands r) then [deviceButton "power" (device_id d)] else [])
        ++ List.map tvButton (_tvDevices r))%list
  else List.map commandButton (_getQuickButtons r).

(** The [data-command] buttons of the document [_render] builds: none for
    a group or without a device, else the header's, and the remote's while
    the modal is shown. *)
Definition documentButtons (r : RemoteCard) : list Button :=
  if _isDeviceGroup r && bool_decide (is_Some (_deviceGroup (base r))) then []
  else match _device (base r) with
       | Some d =>
           (headerButtons r d
            ++ (if _showRemote (base r) then _renderRemoteContent r else []))%list
       | None => []
       end.

(** The listeners [_render] attaches to a button, applied to its
    attributes. *)
Definition pressButton (ok : bool) (b : Button) (r : RemoteCard) : RemoteCard :=
  set_base (press ok (data_command b) (data_device_id b) (data_tv_device_id b)
              (data_source b) (base r)) r.

End CardView.

(** * The card editor *)

Module CardEditor.
Import Js Card.

(** The instance state of [VDAIRRemoteCardEditor]. *)
Record Editor : Type := mkEditor {
  _config : CardView.Config;
  _devices : list Device;
  _deviceGroups : list CardView.GroupData;
  _availableCommands : list string
}.

Definition set_availableCommands (v : list string) (e : Editor) : Editor :=
  mkEditor (_config e) (_devices e) (_deviceGroups e) v.

(** [_updateConfig('quick_buttons', value)]. *)
Definition updateQuickButtons (v : option (list string)) (e : Editor) : Editor :=
  mkEditor {| CardView.config_device_id := CardView.config_device_id (_config e);
              CardView.quick_buttons := v;
              CardView.tv_devices := CardView.tv_devices (_config e) |}
           (_devices e) (_deviceGroups e) (_availableCommands e).

(** [_loadAvailableCommands], [_hass] being set. *)
Definition _loadAvailableCommands (env : Env) (e : Editor) : Editor :=
  let id := CardView.config_device_id (_config e) in
  if negb (truthy (JStr id)) then set_availableCommands [] e
  else if existsb (fun g => group_id (CardView.group g) =? id) (_deviceGroups e)
  then set_availableCommands [] e
  else
    match List.find (fun d => device_id d =? id) (_devices e) with
    | None => set_availableCommands [] e
    | Some device =>
        match nonEmpty (device_profile_id device) with
        | None => set_availableCommands [] e
        | Some profileId =>
            match (if startsWith "builtin:" profileId
                   then fetchBuiltinProfile env (replaceFirst "builtin:" "" profileId)
                   else fetchProfile env profileId) with
            | FetchOk profile => set_availableCommands (codes profile) e
            | FetchNotOk => e
            | FetchThrows => set_availableCommands [] e
            end
        end
    end.

(** The [change] listener of a quick-button checkbox; [checked] tells the
    boxes that are checked, one box standing for each available command. *)
Definition quickButtonsChanged (checked : string -> bool) (e : Editor) : Editor :=
  let sel := List.filter checked (_availableCommands e) in
  updateQuickButtons (if (0 <? length sel)%nat then Some sel else None) e.

(** [\w]. *)
Definition isWord (c : ascii) : bool :=
  let n := nat_of_ascii c in
  ((48 <=? n)%nat && (n <=? 57)%nat) || ((65 <=? n)%nat && (n <=? 90)%nat)
  || ((97 <=? n)%nat && (n <=? 122)%nat) || (n =? 95)%nat.

(** [toUpperCase] of one character matched by [\w]. *)
Definition upperWord (c : ascii) : ascii :=
  let n := nat_of_ascii c in
  if (97 <=? n)%nat && (n <=? 122)%nat then ascii_of_nat (n - 32) else c.

(** [s.replace(/_/g, ' ')]. *)
Fixpoint underscoresToSpaces (s : string) : string :=
  match s with
  | EmptyString => EmptyString
  | String c r =>
      String (if Ascii.eqb c "_" then " "%char else c) (underscoresToSpaces r)
  end.

(** [s.replace(/\b\w/g, c => c.toUpperCase())]; [afterWord] tells whether
    the character before is a [\w]. *)
Fixpoint upperAtWordStart (afterWord : bool) (s : string) : string :=
  match s with
  | EmptyString => EmptyString
  | String c r =>
      String (if isWord c && negb afterWord then upperWord c else c)
             (upperAtWordStart (isWord c) r)
  end.

Definition _formatCommandName (cmd : string) : string :=
  upperAtWordStart false (underscoresToSpaces cmd).

End CardEditor.

(** ** Concrete registries and cards *)

Module Scenario.
Import Js Card.

(** A declared, input-selectable matrix command. *)
Definition declared (id : string) (title : string) (input : string) : InputCommand := {|
  command_id := Some id;
  cmd_name := Some title;
  input_value := JStr input;
  is_input_option := true;
  cmd_device_id := None;
  _generated := false
|}.

Definition slot (i : Z) (title : option string) (linked : option string)
    (on : option bool) : MatrixInput :=
  {| index := JNum i; input_name := title; input_device_id := linked; enabled := on |}.

(** A matrix with more than nine outputs: input 1 routed to output 1, and
    input 2 routed to output 10. *)
Definition wideMatrix : MatrixDevice := {|
  commands := [declared "route_in1_out1" "HDMI 1 -> Output 1" "1";
               declared "route_in2_out10" "HDMI 2 -> Output 10" "2"];
  matrix_inputs := [];
  query_template := None;
  routing_template := None
|}.

(** A matrix without declared commands: three enabled slots, one disabled. *)
Definition slotMatrix : MatrixDevice := {|
  commands := [];
  matrix_inputs := [slot 1 (Some "Apple TV") (Some "atv") None;
                    slot 2 None (Some "cable") (Some true);
                    slot 3 (Some "Console") None (Some false);
                    slot 4 (Some "") None None];
  query_template := Some "r av out{output}";
  routing_template := Some "s in {input} av out {output}"
|}.

(** Eight numbered slots, as a serial matrix reports them. *)
Definition eightSlots : MatrixDevice := {|
  commands := [];
  matrix_inputs := List.map (fun i => slot i None None None) [1; 2; 3; 4; 5; 6; 7; 8]%Z;
  query_template := Some "r av out{output}";
  routing_template := Some "s in {input} av out {output}"
|}.

Definition tv : Device := {|
  device_id := "living_tv";
  name := "Living Room TV";
  device_profile_id := Some "builtin:samsung_tv";
  matrix_device_id := Some "orei";
  matrix_device_type := Some "serial";
  matrix_port := JNum 1
|}.

Definition cable : Device := {|
  device_id := "cable";
  name := "Cable Box";
  device_profile_id := Some "cable_profile";
  matrix_device_id := None;
  matrix_device_type := None;
  matrix_port := JUndefined
|}.

Definition appleTv : HADevice := {|
  ha_device_id := "atv";
  ha_name := "Apple TV";
  entity_id := Some "remote.apple_tv";
  media_player_entity_id := None;
  device_family := Some "apple_tv"
|}.

(** The card of [tv] right after its constructor and [_loadDeviceData]
    found the device, at clock [now]. *)
Definition cardAt (now : Z) : Card := {|
  _device := Some tv;
  _allDevices := [tv; cable];
  _haDevices := [appleTv];
  _deviceGroup := None;
  _groupMemberDevices := [];
  _matrixDevice := None;
  _matrixInputCommands := [];
  _selectedMatrixInput := None;
  _sourceDevice := None;
  _sourceCommands := [];
  _sourceIsHADevice := false;
  _sourceMediaPlayerEntity := None;
  _sourceDeviceType := None;
  _showRemote := false;
  _lastSent := None;
  _lastSendTime := None;
  _isHolding := false;
  _holdCommand := None;
  _repeatInterval := None;
  _fillDelayTimeout := None;
  _isSendingGroupPower := false;
  _groupPowerStatus := None;
  toastInDom := false;
  clock := now;
  timers := [];
  nextTimerId := 1%positive;
  calls := []
|}.

(** The same card linked to a matrix. *)
Definition matrixCard (m : MatrixDevice) : Card :=
  _loadMatrixDevice (FetchOk m) (cardAt 1000).


(** A platform that answers. *)
Definition online : Env := {|
  fetchHACommands := fun _ => FetchOk ["Up"; "Down"; "Select"; "MENU"; "Power"];
  fetchBuiltinProfile := fun _ =>
    FetchOk {| codes := ["power"; "volume_up"; "volume_down"; "mute"];
               learned_commands := []; device_type := Some "tv" |};
  fetchProfile := fun _ =>
    FetchOk {| codes := []; learned_commands := ["power"; "channel_up"; "channel_down"; "guide"];
               device_type := Some "cable_box" |};
  hassStates := fun e => (e =? "media_player.apple_tv")
|}.

(** The card with input 2 selected: the source is the cable box. *)
Definition sourceCard : Card :=
  _loadSourceDevice online
    (set_selectedMatrixInput (Some "route_input_2") (matrixCard slotMatrix)).

(** A group of three: the television, a serial amplifier whose power
    command is known by its name, a projector. *)
Definition cinema : list Member := [
  {| member_device_id := "living_tv"; member_name := "TV";
     member_type := "controlled"; member_commands := [] |};
  {| member_device_id := "amp"; member_name := "Amplifier";
     member_type := "serial";
     member_commands := [("vol_up", Some "Volume +"); ("pwr", Some "Power")] |};
  {| member_device_id := "projector"; member_name := "Projector";
     member_type := "controlled"; member_commands := [] |}
].

Definition groupCard (delay : option Z) : Card :=
  mkCard None [tv; cable] [] (Some {| group_id := "cinema"; sequence_delay_ms := delay |})
    cinema None [] None None [] false None None false None None false None None None
    false None false 1000 [] 1%positive [].

(** The send to the second member fails, the others succeed. *)
Definition secondFails (i : nat) : bool := negb (i =? 1)%nat.

End Scenario.

(** ** A household: the registries the cards load from *)

Module Household.
Import Js Card CardView Scenario.

Definition projector : Device := {|
  device_id := "projector";
  name := "Projector";
  device_profile_id := None;
  matrix_device_id := Some "orei";
  matrix_device_type := Some "serial";
  matrix_port := JNum 1
|}.

Definition amp : SerialDevice := {|
  serial_device_id := "amp";
  serial_name := "Amplifier";
  serial_commands := [("pwr", Some "Power"); ("vol+", Some "Volume up")]
|}.

(** A group of four references, one of them to a device that is gone. *)
Definition cinemaGroup : GroupData := {|
  group := {| group_id := "cinema"; sequence_delay_ms := Some 20%Z |};
  members := Some [ {| ref_device_type := Some "controlled"; ref_device_id := "living_tv" |};
                    {| ref_device_type := Some "serial"; ref_device_id := "amp" |};
                    {| ref_device_type := Some "controlled"; ref_device_id := "old_dvd" |};
                    {| ref_device_type := Some "controlled"; ref_device_id := "projector" |} ]
|}.

Definition registries : Registries := {|
  groups := [cinemaGroup];
  devices := [tv; cable; projector];
  serial_devices := [amp];
  ha_devices := [appleTv]
|}.

(** A card configured for [id], before [_loadDeviceData]. *)
Definition configured (id : string) (tvs : option (list string)) : RemoteCard :=
  set_config {| config_device_id := id; quick_buttons := None; tv_devices := tvs |}
             (constructed 1000).


(** The card of the television on the matrix, input 2 selected and the
    remote opened: the source is the cable box. *)
Definition tvOnMatrix : RemoteCard :=
  let r := _loadDeviceData online (Some registries) (FetchOk slotMatrix)
             (configured "living_tv" (Some ["projector"])) in
  set_base (openRemote online (set_selectedMatrixInput (Some "route_input_2") (base r))) r.



(** The card of the group. *)
Definition cinemaCard : RemoteCard :=
  _loadDeviceData online (Some registries) FetchNotOk (configured "cinema" None).

End Household.

(** * Properties *)

(** ** The matrix resolver *)

Module ResolverProofs.
Import Js Card Scenario.

(** The fallback applies exactly when no command is declared selectable. *)
Lemma inputCommands_declared (port : JsVal) (m : MatrixDevice) :
  List.filter is_input_option (commands m) <> [] ->
  inputCommands port m <> []
  /\ incl (inputCommands port m) (List.filter is_input_option (commands m)).
Proof.
  intros Hne. unfold inputCommands.
  set (declared := List.filter is_input_option (commands m)) in *.
  destruct declared as [|c cs] eqn:Hd; [congruence|].
  destruct (truthy port); cbn [andb length Nat.ltb Nat.leb].
  - set (f := List.filter _ (c :: cs)).
    assert (Hf : incl f (c :: cs)) by (intros x Hx; apply filter_In in Hx; tauto).
    destruct f as [|x xs] eqn:Hfe; cbn.
    + split; [congruence| apply incl_refl].
    + split; [congruence| exact Hf].
  - cbn. split; [congruence| apply incl_refl].
Qed.

Lemma inputCommands_generated (port : JsVal) (m : MatrixDevice) :
  List.filter is_input_option (commands m) = [] ->
  inputCommands port m
  = List.map generatedCommand (List.filter slotEnabled (matrix_inputs m)).
Proof.
  intros He. unfold inputCommands. rewrite He. cbn.
  destruct (truthy port); reflexivity.
Qed.

(** The spec's example: three enabled slots and one disabled one give
    three generated options, named by the slot or by its position. *)
Example inputCommands_slotMatrix :
  List.map (fun c => (command_id c, cmd_name c, _generated c))
           (inputCommands (JNum 1) slotMatrix)
  = [(Some "route_input_1", Some "Apple TV", true);
     (Some "route_input_2", Some "Input 2", true);
     (Some "route_input_4", Some "Input 4", true)].
Proof. reflexivity. Qed.

(** C1 (the code at the failing input): on a matrix with an output 10, the
    card wired to output 1 keeps the command that routes to output 10,
    because [_out1] occurs inside [route_in2_out10]; that identifier does
    not end with [_out1]. *)
Theorem inputCommands_output1_keeps_output10 :
  List.map command_id (inputCommands (JNum 1) wideMatrix)
  = [Some "route_in1_out1"; Some "route_in2_out10"]
  /\ endsWith "_out1" "route_in2_out10" = false
  /\ includes "_out1" "route_in2_out10" = true.
Proof. repeat split; reflexivity. Qed.

(** *** The routing reply *)

Lemma digits1_hasDigit (s d : string) : digits1 s = Some d -> hasDigit s = true.
Proof.
  unfold digits1. destruct s as [|c r]; cbn; [discriminate|].
  destruct (isDigit c); [reflexivity | discriminate].
Qed.

Lemma trimStart_hasDigit (s : string) :
  hasDigit (trimStart s) = true -> hasDigit s = true.
Proof.
  induction s as [|c r IH]; cbn; [trivial|].
  destruct (isSpace c); [|trivial].
  intros H. rewrite (IH H). apply orb_true_r.
Qed.

Lemma trimEnd_hasDigit (s : string) :
  hasDigit (trimEnd s) = true -> hasDigit s = true.
Proof.
  induction s as [|c r IH]; cbn; [trivial|].
  destruct (trimEnd r) as [|c' r'] eqn:Hr.
  - destruct (isSpace c); cbn; [discriminate|].
    rewrite orb_false_r. intros ->. reflexivity.
  - cbn [hasDigit]. intros H. apply orb_true_iff in H as [H|H].
    + rewrite H. reflexivity.
    + rewrite (IH H). apply orb_true_r.
Qed.

Lemma trim_hasDigit (s : string) : hasDigit (trim s) = true -> hasDigit s = true.
Proof. intros H. apply trimStart_hasDigit, trimEnd_hasDigit, H. Qed.

Lemma ciLiteral_hasDigit (lit s r : string) :
  ciLiteral lit s = Some r -> hasDigit r = true -> hasDigit s = true.
Proof.
  revert s. induction lit as [|l lit IH]; intros s; cbn.
  - intros [= ->]. trivial.
  - destruct s as [|c s']; [discriminate|].
    destruct (ciChar l c); [|discriminate].
    intros H Hr. cbn. rewrite (IH _ H Hr). apply orb_true_r.
Qed.

(** A pattern that only matches where a digit follows finds nothing in a
    text without digits. *)
Definition needsDigit (at_ : string -> option string) : Prop :=
  forall s d, at_ s = Some d -> hasDigit s = true.

Lemma search_hasDigit (at_ : string -> option string) :
  needsDigit at_ -> needsDigit (search at_).
Proof.
  intros Hat s. induction s as [|c r IH]; intros d; cbn.
  - destruct (at_ "") eqn:H0; [|discriminate]. intros _. exact (Hat _ _ H0).
  - destruct (at_ (String c r)) eqn:H0.
    + intros _. exact (Hat _ _ H0).
    + intros H. rewrite (IH _ H). apply orb_true_r.
Qed.

Lemma atIn_needsDigit : needsDigit atIn.
Proof.
  intros s d. unfold atIn. destruct (ciLiteral "in" s) as [r|] eqn:Hl; [|discriminate].
  intros H. eapply ciLiteral_hasDigit; [exact Hl|]. eapply digits1_hasDigit, H.
Qed.

Lemma atInput_needsDigit : needsDigit atInput.
Proof.
  intros s d. unfold atInput.
  destruct (ciLiteral "input" s) as [r|] eqn:Hl; [|discriminate].
  intros H. eapply ciLiteral_hasDigit; [exact Hl|].
  eapply trimStart_hasDigit, digits1_hasDigit, H.
Qed.

Lemma atDigitsEnd_needsDigit : needsDigit atDigitsEnd.
Proof.
  intros s d. unfold atDigitsEnd. destruct (digits1 s) eqn:Hd; [|discriminate].
  intros _. eapply digits1_hasDigit, Hd.
Qed.

Lemma atDigits_needsDigit : needsDigit atDigits.
Proof. intros s d. apply digits1_hasDigit. Qed.

Lemma parseInputNumber_hasDigit (text d : string) :
  parseInputNumber text = Some d -> hasDigit text = true.
Proof.
  unfold parseInputNumber, orMatch. intros H. apply trim_hasDigit.
  destruct (search atIn (trim text)) eqn:H1.
  { eapply search_hasDigit; [apply atIn_needsDigit | exact H1]. }
  destruct (search atInput (trim text)) eqn:H2.
  { eapply search_hasDigit; [apply atInput_needsDigit | exact H2]. }
  destruct (search atDigitsEnd (trim text)) eqn:H3.
  { eapply search_hasDigit; [apply atDigitsEnd_needsDigit | exact H3]. }
  eapply search_hasDigit; [apply atDigits_needsDigit | exact H].
Qed.

Lemma parseInputNumber_no_digit (text : string) :
  hasDigit text = false -> parseInputNumber text = None.
Proof.
  intros H. destruct (parseInputNumber text) as [d|] eqn:Hp; [|reflexivity].
  apply parseInputNumber_hasDigit in Hp. congruence.
Qed.

(** The comparison of line 403 is one of strings: equality with the text
    of the capture group. *)
Lemma matchingCmd_find (cmds : list InputCommand) (inputNum : string) :
  matchingCmd cmds inputNum
  = List.find (fun cmd => strictEq (input_value cmd) (JStr inputNum)) cmds.
Proof.
  unfold matchingCmd. induction cmds as [|c cs IH]; cbn; [reflexivity|].
  rewrite orb_diag. destruct (strictEq _ _); [reflexivity | exact IH].
Qed.

(** *** What [_loadSourceDevice] leaves alone *)

Ltac load_cases :=
  unfold _loadSourceDevice, loadHACommands, mediaPlayerEntity, loadProfileCommands;
  cbn;
  repeat (match goal with
          | |- context [match ?x with _ => _ end] => destruct x; cbn
          end);
  try reflexivity.

Lemma loadSourceDevice_selected (env : Env) (s : Card) :
  _selectedMatrixInput (_loadSourceDevice env s) = _selectedMatrixInput s.
Proof. load_cases. Qed.

(** *** The claims on the routing reply *)

(** C3 (counterexample): the reply [input 07] does not resolve input 7.
    The capture group is the text [07]; compared as a string with the
    [input_value] ["7"] of input 7 it matches no command, so no input is
    selected, while the reply [input 7] selects input 7. *)
Lemma reply_input_07_selects_nothing :
  parseInputNumber "input 07" <> Some "7"
  /\ _selectedMatrixInput
       (_queryMatrixRouting online (FetchOk (JStr "input 07")) (matrixCard eightSlots))
     = None
  /\ _selectedMatrixInput
       (_queryMatrixRouting online (FetchOk (JStr "input 7")) (matrixCard eightSlots))
     = Some "route_input_7".
Proof.
  split; [intros H; vm_compute in H; discriminate H|].
  split; reflexivity.
Qed.

(** C3 (amended): the reply is trimmed and the four patterns are tried in
    the order [in<digits>], [input <digits>], digits at the end, any
    digits, the first match giving the captured digit text as it stands:
    ["av out1 in3"] gives ["3"], ["input 07"] gives ["07"], a text without
    digits gives no match.  The input selected is the first command whose
    [input_value] is that very text; without one the selection is kept. *)
Theorem routing_reply_resolution :
  parseInputNumber "av out1 in3" = Some "3"
  /\ parseInputNumber "input 07" = Some "07"
  /\ (forall text, hasDigit text = false -> parseInputNumber text = None)
  /\ (forall text,
        parseInputNumber text =
        match search atIn (trim text), search atInput (trim text),
              search atDigitsEnd (trim text) with
        | Some d, _, _ => Some d
        | None, Some d, _ => Some d
        | None, None, Some d => Some d
        | None, None, None => search atDigits (trim text)
        end)
  /\ (forall env s v,
        _selectedMatrixInput (_queryMatrixRouting env (FetchOk v) s) =
        match (if truthy v then parseInputNumber (toString v) else None) with
        | Some d =>
            match List.find (fun c => strictEq (input_value c) (JStr d))
                            (_matrixInputCommands s) with
            | Some c => command_id c
            | None => _selectedMatrixInput s
            end
        | None => _selectedMatrixInput s
        end).
Proof.
  split; [reflexivity|]. split; [reflexivity|].
  split; [exact parseInputNumber_no_digit|]. split.
  - intros text. unfold parseInputNumber, orMatch.
    destruct (search atIn (trim text)), (search atInput (trim text)),
      (search atDigitsEnd (trim text)); reflexivity.
  - intros env s v. unfold _queryMatrixRouting.
    destruct (truthy v); [|reflexivity].
    destruct (parseInputNumber (toString v)) as [d|]; [|reflexivity].
    rewrite matchingCmd_find.
    destruct (List.find _ _) as [c|]; [|reflexivity].
    cbn [_render _selectedMatrixInput set_toastInDom].
    rewrite loadSourceDevice_selected. reflexivity.
Qed.

Lemma routing_reply_resolution_witness :
  hasDigit "no reply" = false /\ parseInputNumber "no reply" = None.
Proof.
  split; [reflexivity|].
  apply (proj1 (proj2 (proj2 routing_reply_resolution))). reflexivity.
Defined.

(** The order of the patterns shows on replies that several of them match. *)
Example parse_in_before_input : parseInputNumber "input 5 in2" = Some "2".
Proof. reflexivity. Qed.

Example parse_input_before_end : parseInputNumber "input 5 of 8" = Some "5".
Proof. reflexivity. Qed.

Example parse_end_before_any : parseInputNumber "12 34" = Some "34".
Proof. reflexivity. Qed.

Example parse_any_last : parseInputNumber "12 34x" = Some "12".
Proof. reflexivity. Qed.

(** *** The source device *)

Lemma commonCommands_not_empty : commonCommands <> [].
Proof. discriminate. Qed.



Example online_source_commands_lowercase :
  _sourceCommands (_loadSourceDevice online
                     (set_selectedMatrixInput (Some "route_input_1") (matrixCard slotMatrix)))
  = ["up"; "down"; "select"; "menu"; "power"].
Proof. reflexivity. Qed.

End ResolverProofs.

(** ** The command dispatcher *)

Module DispatcherProofs.
Import Js Card Scenario.
Local Open Scope Z_scope.

(** *** Matrix input selection *)

(** C10: when the call made by [_sendMatrixCommand] throws, the selected
    input, the source device with its commands and the last-sent marker are
    what they were, and no timer is set; so whenever one of them differs
    after [_sendMatrixCommand], the call had succeeded. *)
Theorem sendMatrixCommand_atomic (env : Env) (commandId : string) (s : Card) :
  (_selectedMatrixInput (_sendMatrixCommand env false commandId s) = _selectedMatrixInput s
   /\ _sourceDevice (_sendMatrixCommand env false commandId s) = _sourceDevice s
   /\ _sourceCommands (_sendMatrixCommand env false commandId s) = _sourceCommands s
   /\ _sourceIsHADevice (_sendMatrixCommand env false commandId s) = _sourceIsHADevice s
   /\ _lastSent (_sendMatrixCommand env false commandId s) = _lastSent s
   /\ timers (_sendMatrixCommand env false commandId s) = timers s)
  /\ forall ok,
       _selectedMatrixInput (_sendMatrixCommand env ok commandId s) <> _selectedMatrixInput s
       \/ _sourceDevice (_sendMatrixCommand env ok commandId s) <> _sourceDevice s
       \/ _lastSent (_sendMatrixCommand env ok commandId s) <> _lastSent s ->
       ok = true.
Proof.
  assert (H : _selectedMatrixInput (_sendMatrixCommand env false commandId s) = _selectedMatrixInput s
   /\ _sourceDevice (_sendMatrixCommand env false commandId s) = _sourceDevice s
   /\ _sourceCommands (_sendMatrixCommand env false commandId s) = _sourceCommands s
   /\ _sourceIsHADevice (_sendMatrixCommand env false commandId s) = _sourceIsHADevice s
   /\ _lastSent (_sendMatrixCommand env false commandId s) = _lastSent s
   /\ timers (_sendMatrixCommand env false commandId s) = timers s).
  { unfold _sendMatrixCommand.
    repeat (match goal with
            | |- context [match ?x with _ => _ end] => destruct x; cbn
            end); repeat split; reflexivity. }
  split; [exact H|].
  intros [|] Hd; [reflexivity|].
  destruct H as (H1 & H2 & _ & _ & H3 & _). tauto.
Qed.

(** After a call that succeeded the selection and the marker are set. *)
Example sendMatrixCommand_success :
  let s' := _sendMatrixCommand online true "route_input_2" (matrixCard slotMatrix) in
  _selectedMatrixInput s' = Some "route_input_2"
  /\ _lastSent s' = Some "Matrix: route_input_2"
  /\ _sourceDevice s' = Some (SourceIR cable)
  /\ calls s' = [{| service := "send_raw_serial_command"; call_device_id := Some "orei";
                    call_arg := "s in 2 av out 1" |}].
Proof. repeat split; reflexivity. Qed.

Example sendMatrixCommand_failure :
  let s' := _sendMatrixCommand online false "route_input_2" (matrixCard slotMatrix) in
  _selectedMatrixInput s' = None /\ _lastSent s' = None /\ _sourceDevice s' = None
  /\ calls s' = [{| service := "send_raw_serial_command"; call_device_id := Some "orei";
                    call_arg := "s in 2 av out 1" |}].
Proof. repeat split; reflexivity. Qed.

Lemma sendMatrixCommand_atomic_witness :
  _selectedMatrixInput (_sendMatrixCommand online true "route_input_2" (matrixCard slotMatrix))
  <> _selectedMatrixInput (matrixCard slotMatrix)
  /\ true = true.
Proof.
  assert (H : _selectedMatrixInput
                (_sendMatrixCommand online true "route_input_2" (matrixCard slotMatrix))
              <> _selectedMatrixInput (matrixCard slotMatrix)) by (vm_compute; discriminate).
  split; [exact H|].
  exact (proj2 (sendMatrixCommand_atomic online "route_input_2" (matrixCard slotMatrix))
               true (or_introl H)).
Defined.

(** *** The click handler *)

Lemma resume_calls (ok : bool) (command : string) (s : Card) :
  calls (_sendCommandToDevice_resume ok command s) = calls s.
Proof. unfold _sendCommandToDevice_resume. destruct ok; reflexivity. Qed.

Lemma start_calls (command deviceId : string) (s : Card) :
  debounced s = false -> truthy (JStr deviceId) = true ->
  exists svc,
    snd (_sendCommandToDevice_start command deviceId s) = true
    /\ calls (fst (_sendCommandToDevice_start command deviceId s))
       = (calls s ++ [{| service := svc; call_device_id := Some deviceId;
                         call_arg := command |}])%list.
Proof.
  intros Hd Ht. unfold _sendCommandToDevice_start. rewrite Ht, Hd. cbn.
  eexists. split; reflexivity.
Qed.

Lemma sendCommand_calls (ok : bool) (command : string) (s : Card) (d : Device) :
  debounced s = false -> _device s = Some d ->
  calls (_sendCommand ok command s)
  = (calls s ++ [{| service := "send_command"; call_device_id := Some (device_id d);
                    call_arg := command |}])%list.
Proof.
  intros Hd Hdev. unfold _sendCommand. rewrite Hdev, Hd. destruct ok; reflexivity.
Qed.

Lemma sendCommandSilent_calls (command : string) (s : Card) (d : Device) :
  debounced s = false -> _device s = Some d ->
  calls (_sendCommandSilent command s)
  = (calls s ++ [{| service := "send_command"; call_device_id := Some (device_id d);
                    call_arg := command |}])%list.
Proof. intros Hd Hdev. unfold _sendCommandSilent. rewrite Hdev, Hd. reflexivity. Qed.

Lemma updateToast_frame (c : option string) (s : Card) :
  calls (_updateToast c s) = calls s
  /\ _device (_updateToast c s) = _device s
  /\ _lastSendTime (_updateToast c s) = _lastSendTime s
  /\ clock (_updateToast c s) = clock s
  /\ timers (_updateToast c s) = timers s
  /\ nextTimerId (_updateToast c s) = nextTimerId s.
Proof.
  unfold _updateToast. destruct (toastInDom s); [tauto|].
  destruct (nonEmpty c); [|tauto]. destruct (_showRemote s); cbn; tauto.
Qed.

Lemma updateToast_debounced (c : option string) (s : Card) :
  debounced (_updateToast c s) = debounced s.
Proof.
  unfold debounced.
  destruct (updateToast_frame c s) as (_ & _ & -> & -> & _). reflexivity.
Qed.

Lemma startRepeat_calls (command : string) (s : Card) (d : Device) :
  debounced s = false -> _device s = Some d ->
  calls (_startRepeat command s)
  = (calls s ++ [{| service := "send_command"; call_device_id := Some (device_id d);
                    call_arg := command |}])%list.
Proof.
  intros Hd Hdev. unfold _startRepeat. cbn.
  set (s1 := _updateToast (Some command) _).
  assert (H1 : debounced s1 = false) by (unfold s1; rewrite updateToast_debounced; exact Hd).
  assert (H2 : _device s1 = Some d)
    by (unfold s1; rewrite (proj1 (proj2 (updateToast_frame _ _))); exact Hdev).
  rewrite (sendCommandSilent_calls command s1 d H1 H2).
  unfold s1. rewrite (proj1 (updateToast_frame _ _)). reflexivity.
Qed.




(** The hold listeners always send to the widget's own device: with the
    cable box as the source, a channel command goes to the television. *)
Example held_channel_goes_to_own_device :
  _sourceDevice sourceCard = Some (SourceIR cable)
  /\ calls (press true "channel_up" None None false sourceCard)
     = [{| service := "send_command"; call_device_id := Some "living_tv";
           call_arg := "channel_up" |}].
Proof. split; reflexivity. Qed.

(** *** Group power *)

Lemma sendPower_calls (b : bool) (m : Member) :
  callsOf (fst (sendPower b m)) = powerCall m.
Proof.
  unfold powerCall, sendPower.
  destruct (member_type m =? "controlled")%string; [reflexivity|].
  destruct (member_type m =? "serial")%string; [|reflexivity].
  destruct (powerCmd m); reflexivity.
Qed.


Lemma sendPower_count (b : bool) (m : Member) :
  snd (sendPower b m) = successes (fst (sendPower b m)).
Proof.
  unfold sendPower, successes.
  destruct (member_type m =? "controlled")%string; [destruct b; reflexivity|].
  destruct (member_type m =? "serial")%string; [|reflexivity].
  destruct (powerCmd m); [destruct b|]; reflexivity.
Qed.

Lemma successes_app (a b : list GroupEffect) :
  successes (a ++ b) = (successes a + successes b)%nat.
Proof. unfold successes. rewrite List.filter_app, length_app. reflexivity. Qed.

Lemma callsOf_app (a b : list GroupEffect) : callsOf (a ++ b) = (callsOf a ++ callsOf b)%list.
Proof. unfold callsOf. apply flat_map_app. Qed.


(** The loop with its index test is the description: a wait follows every
    member but the last. *)
Lemma groupPowerLoop_between (ok : nat -> bool) (delay : Z) (members : list Member) :
  forall (total i acc : nat),
    total = (i + length members)%nat ->
    groupPowerLoop ok delay total i members acc
    = (sendsWithWaitsBetween ok delay i members,
       (acc + successes (sendsWithWaitsBetween ok delay i members))%nat).
Proof.
  induction members as [|m rest IH]; intros total i acc Htot.
  - cbn. f_equal. unfold successes. cbn. lia.
  - cbn [groupPowerLoop sendsWithWaitsBetween].
    pose proof (sendPower_count (ok i) m) as Hc.
    destruct (sendPower (ok i) m) as [sent inc]. cbn [fst snd] in *.
    rewrite (IH total (S i) (acc + inc)%nat) by (cbn in Htot; lia).
    destruct rest as [|m' rest'].
    + assert (Hlast : (i <? total - 1)%nat = false)
        by (apply Nat.ltb_ge; cbn in Htot; lia).
      rewrite Hlast. cbn [app sendsWithWaitsBetween]. rewrite app_nil_r. f_equal.
      subst inc. change (successes []) with 0%nat. lia.
    + assert (Hmid : (i <? total - 1)%nat = true)
        by (apply Nat.ltb_lt; cbn in Htot; lia).
      rewrite Hmid. f_equal.
      rewrite !successes_app. subst inc. change (successes [WaitMs delay]) with 0%nat. lia.
Qed.

Lemma between_calls (ok : nat -> bool) (delay : Z) (members : list Member) :
  forall i, callsOf (sendsWithWaitsBetween ok delay i members) = flat_map powerCall members.
Proof.
  induction members as [|m rest IH]; intros i; [reflexivity|].
  cbn [sendsWithWaitsBetween flat_map]. destruct rest as [|m' rest'].
  - cbn. rewrite app_nil_r. apply sendPower_calls.
  - rewrite !callsOf_app, sendPower_calls, IH. reflexivity.
Qed.






Example group_power_trace :
  snd (fst (_sendGroupPowerCommand secondFails (groupCard None)))
  = [SendTo {| service := "send_command"; call_device_id := Some "living_tv";
               call_arg := "power" |} true;
     WaitMs 20;
     SendTo {| service := "send_serial_command"; call_device_id := Some "amp";
               call_arg := "pwr" |} false;
     WaitMs 20;
     SendTo {| service := "send_command"; call_device_id := Some "projector";
               call_arg := "power" |} true].
Proof. reflexivity. Qed.

(** *** Timers: what a callback leaves alone *)

(** The part of the state a callback that sends nothing cannot change. *)
Definition sameDispatchState (s s' : Card) : Prop :=
  _device s' = _device s /\ clock s' = clock s /\ calls s' = calls s
  /\ _lastSendTime s' = _lastSendTime s /\ timers s' = timers s
  /\ nextTimerId s' = nextTimerId s /\ _isHolding s' = _isHolding s
  /\ _holdCommand s' = _holdCommand s /\ _repeatInterval s' = _repeatInterval s
  /\ _fillDelayTimeout s' = _fillDelayTimeout s.

Lemma sameDispatchState_refl (s : Card) : sameDispatchState s s.
Proof. unfold sameDispatchState. tauto. Qed.

Lemma updateToast_same (c : option string) (s : Card) :
  sameDispatchState s (_updateToast c s).
Proof.
  unfold _updateToast, sameDispatchState. destruct (toastInDom s); [tauto|].
  destruct (nonEmpty c); [|tauto]. destruct (_showRemote s); cbn; tauto.
Qed.

Lemma runCallback_same (cb : Callback) (s : Card) :
  (forall c, cb <> CbRepeat c) -> sameDispatchState s (runCallback cb s).
Proof.
  intros Hcb. destruct cb; cbn.
  - unfold sameDispatchState; cbn; tauto.
  - destruct (optStrEq (_lastSent s) (Some marker));
      unfold sameDispatchState; cbn; tauto.
  - apply sameDispatchState_refl.
  - exfalso. exact (Hcb command eq_refl).
  - destruct (updateToast_same None (set_lastSent None s)) as
      (H1 & H2 & H3 & H4 & H5 & H6 & H7 & H8 & H9 & H10).
    unfold sameDispatchState. cbn in *. tauto.
  - unfold sameDispatchState; cbn; tauto.
Qed.

Lemma sendCommandSilent_frame (command : string) (s : Card) :
  _device (_sendCommandSilent command s) = _device s
  /\ clock (_sendCommandSilent command s) = clock s
  /\ timers (_sendCommandSilent command s) = timers s
  /\ nextTimerId (_sendCommandSilent command s) = nextTimerId s
  /\ _isHolding (_sendCommandSilent command s) = _isHolding s
  /\ _holdCommand (_sendCommandSilent command s) = _holdCommand s
  /\ _repeatInterval (_sendCommandSilent command s) = _repeatInterval s
  /\ _fillDelayTimeout (_sendCommandSilent command s) = _fillDelayTimeout s.
Proof.
  unfold _sendCommandSilent. destruct (_device s) eqn:Hd; [|tauto].
  destruct (debounced s); cbn; repeat split; try reflexivity; congruence.
Qed.

(** The fields of the hold gesture are only written by [_startRepeat] and
    [_stopRepeat]. *)
Definition sameHold (s s' : Card) : Prop :=
  _device s' = _device s /\ nextTimerId s' = nextTimerId s
  /\ _isHolding s' = _isHolding s /\ _holdCommand s' = _holdCommand s
  /\ _repeatInterval s' = _repeatInterval s
  /\ _fillDelayTimeout s' = _fillDelayTimeout s.

Lemma sameHold_trans (a b c : Card) : sameHold a b -> sameHold b c -> sameHold a c.
Proof. unfold sameHold. intuition congruence. Qed.

Lemma fireTimer_sameHold (s : Card) (t : Timer) : sameHold s (fireTimer s t).
Proof.
  unfold fireTimer. destruct (existsb _ (timers s)); [|unfold sameHold; tauto].
  set (s1 := match period t with Some p => _ | None => _ end).
  assert (H1 : sameHold s s1)
    by (unfold s1; destruct (period t); unfold sameHold; cbn; tauto).
  apply (sameHold_trans _ _ _ H1).
  destruct (callback t) eqn:Hcb;
    try (destruct (runCallback_same (callback t) s1) as
           (A1 & A2 & A3 & A4 & A5 & A6 & A7 & A8 & A9 & A10);
         [intros c; rewrite Hcb; discriminate|];
         rewrite Hcb in *; unfold sameHold; tauto).
  cbn. destruct (sendCommandSilent_frame command s1) as
    (A1 & A2 & A3 & A4 & A5 & A6 & A7 & A8).
  unfold sameHold; tauto.
Qed.

Lemma fold_fireTimer_sameHold (D : list Timer) :
  forall s, sameHold s (fold_left fireTimer D s).
Proof.
  induction D as [|t D IH]; intros s; cbn.
  - unfold sameHold; tauto.
  - eapply sameHold_trans; [apply fireTimer_sameHold | apply IH].
Qed.

Lemma tick_sameHold (s : Card) : sameHold s (tick s).
Proof.
  unfold tick. eapply sameHold_trans; [|apply fold_fireTimer_sameHold].
  unfold sameHold; cbn; tauto.
Qed.

Lemma advance_sameHold (n : nat) : forall s, sameHold s (advance n s).
Proof.
  induction n as [|n IH]; intros s; cbn.
  - unfold sameHold; tauto.
  - eapply sameHold_trans; [apply tick_sameHold | apply IH].
Qed.

Lemma fireTimer_clock (s : Card) (t : Timer) : clock (fireTimer s t) = clock s.
Proof.
  unfold fireTimer. destruct (existsb _ (timers s)); [|reflexivity].
  set (s2 := match period t with Some p => _ | None => _ end).
  assert (H2 : clock s2 = clock s) by (unfold s2; destruct (period t); reflexivity).
  rewrite <- H2. destruct (callback t) eqn:Hcb;
    try (destruct (runCallback_same (callback t) s2) as (_ & A2 & _);
         [intros c; rewrite Hcb; discriminate|]; rewrite Hcb in A2; exact A2).
  cbn. apply (sendCommandSilent_frame command s2).
Qed.

Lemma fold_fireTimer_clock (D : list Timer) :
  forall s, clock (fold_left fireTimer D s) = clock s.
Proof.
  induction D as [|t D IH]; intros s; cbn; [reflexivity|].
  rewrite IH. apply fireTimer_clock.
Qed.

Lemma tick_clock (s : Card) : clock (tick s) = clock s + 1.
Proof. unfold tick. rewrite fold_fireTimer_clock. reflexivity. Qed.

(** *** Timers: the state seen by the sending callbacks *)

(** [Inv dev I C L T s]: the own device is [dev], the clock reads [T], the
    calls issued are [C], the last send was at [L], the sending timers of
    the table are exactly [I], and no other timer shares a handle with one
    of them. *)
Record Inv (dev : Device) (I : list Timer) (C : list ServiceCall) (L : option Z)
    (T : Z) (s : Card) : Prop := {
  inv_device : _device s = Some dev;
  inv_clock : clock s = T;
  inv_calls : calls s = C;
  inv_last : _lastSendTime s = L;
  inv_dispatching : List.filter dispatching (timers s) = I;
  inv_ids : forall t i, In t (timers s) -> dispatching t = false -> In i I ->
                        timer_id t <> timer_id i
}.

Lemma filter_swap {A : Type} (f g : A -> bool) (l : list A) :
  List.filter f (List.filter g l) = List.filter g (List.filter f l).
Proof.
  induction l as [|a l IH]; cbn; [reflexivity|].
  destruct (g a) eqn:Hg, (f a) eqn:Hf; cbn; rewrite ?Hg, ?Hf, IH; reflexivity.
Qed.

Lemma filter_same_on {A : Type} (f g : A -> bool) (l : list A) :
  (forall a, In a l -> f a = true -> g a = true) ->
  List.filter f (List.filter g l) = List.filter f l.
Proof.
  induction l as [|a l IH]; intros H; cbn; [reflexivity|].
  destruct (g a) eqn:Hg; cbn.
  - destruct (f a); rewrite IH; auto with datatypes.
  - destruct (f a) eqn:Hf.
    + rewrite (H a) in Hg; [discriminate | left; reflexivity | exact Hf].
    + apply IH. auto with datatypes.
Qed.

Lemma dispatching_rearm (id : positive) (p : Z) (t : Timer) :
  dispatching (rearm id p t) = dispatching t /\ timer_id (rearm id p t) = timer_id t.
Proof. unfold rearm. destruct (timer_id t =? id)%positive; split; reflexivity. Qed.

Lemma filter_dispatching_rearm (id : positive) (p : Z) (l : list Timer) :
  List.filter dispatching (List.map (rearm id p) l)
  = List.map (rearm id p) (List.filter dispatching l).
Proof.
  induction l as [|t l IH]; cbn; [reflexivity|].
  rewrite (proj1 (dispatching_rearm id p t)).
  destruct (dispatching t); cbn; rewrite IH; reflexivity.
Qed.

Lemma rearm_other (id : positive) (p : Z) (l : list Timer) :
  (forall i, In i l -> timer_id i <> id) -> List.map (rearm id p) l = l.
Proof.
  induction l as [|t l IH]; intros H; cbn; [reflexivity|].
  rewrite IH by auto with datatypes. f_equal. unfold rearm.
  destruct (Pos.eqb_spec (timer_id t) id) as [E|E]; [|reflexivity].
  exfalso. apply (H t); [left; reflexivity | exact E].
Qed.

Lemma In_filter_dispatching (t : Timer) (l : list Timer) :
  In t l -> dispatching t = true -> In t (List.filter dispatching l).
Proof. intros Hin Hd. apply filter_In. split; assumption. Qed.

(** Changing the table by the handle of a timer that sends nothing. *)
Lemma Inv_table_other (dev : Device) (I : list Timer) (C : list ServiceCall)
    (L : option Z) (T : Z) (s : Card) (t : Timer) :
  (forall i, In i I -> timer_id t <> timer_id i) ->
  Inv dev I C L T s ->
  Inv dev I C L T
    (match period t with
     | Some p => set_timers (List.map (rearm (timer_id t) p) (timers s)) s
     | None => clearTimer (timer_id t) s
     end).
Proof.
  intros Hid [H1 H2 H3 H4 H5 H6].
  destruct (period t) as [p|]; constructor; cbn; try assumption.
  - rewrite filter_dispatching_rearm, H5. apply rearm_other.
    intros i Hi E. exact (Hid i Hi (eq_sym E)).
  - intros u i Hu Hdu Hi. apply in_map_iff in Hu as (u0 & <- & Hu0).
    destruct (dispatching_rearm (timer_id t) p u0) as [Ed Ei].
    rewrite Ei. rewrite Ed in Hdu. exact (H6 u0 i Hu0 Hdu Hi).
  - rewrite <- H5. apply filter_same_on.
    intros u Hu Hdu. apply negb_true_iff. apply Pos.eqb_neq. intros E.
    apply (Hid u); [rewrite <- H5; apply In_filter_dispatching; assumption|].
    symmetry. exact E.
  - intros u i Hu Hdu Hi. apply filter_In in Hu as [Hu _]. exact (H6 u i Hu Hdu Hi).
Qed.

Lemma Inv_same (dev : Device) (I : list Timer) (C : list ServiceCall)
    (L : option Z) (T : Z) (s s' : Card) :
  sameDispatchState s s' -> Inv dev I C L T s -> Inv dev I C L T s'.
Proof.
  intros (A1 & A2 & A3 & A4 & A5 & _) [H1 H2 H3 H4 H5 H6].
  constructor; try (rewrite A5; assumption); congruence.
Qed.

(** A due timer that sends nothing leaves the invariant as it is. *)
Lemma fire_other (dev : Device) (I : list Timer) (C : list ServiceCall)
    (L : option Z) (T : Z) (s : Card) (t : Timer) :
  dispatching t = false ->
  (forall i, In i I -> timer_id t <> timer_id i) ->
  Inv dev I C L T s -> Inv dev I C L T (fireTimer s t).
Proof.
  intros Hd Hid HI. unfold fireTimer.
  destruct (existsb _ (timers s)); [|exact HI].
  eapply Inv_same; [|apply Inv_table_other; eassumption].
  apply runCallback_same. intros c E. unfold dispatching in Hd.
  rewrite E in Hd. discriminate.
Qed.

Lemma fold_others (dev : Device) (I : list Timer) (C : list ServiceCall)
    (L : option Z) (T : Z) (D : list Timer) :
  forall s,
    (forall t, In t D -> dispatching t = false) ->
    (forall t i, In t D -> dispatching t = false -> In i I -> timer_id t <> timer_id i) ->
    Inv dev I C L T s -> Inv dev I C L T (fold_left fireTimer D s).
Proof.
  induction D as [|t D IH]; intros s Hd Hid HI; cbn; [exact HI|].
  apply IH.
  - intros u Hu. apply Hd. right; exact Hu.
  - intros u i Hu. apply Hid. right; exact Hu.
  - apply fire_other; [apply Hd; left; reflexivity| |exact HI].
    intros i Hi. apply Hid; [left; reflexivity | apply Hd; left; reflexivity | exact Hi].
Qed.

(** The send of a tick is not held back when the last one is 150 ms old. *)
Definition notDebounced (L : option Z) (T : Z) : Prop :=
  match L with
  | Some l => l = 0 \/ 150 <= T - l
  | None => True
  end.

Lemma notDebounced_spec (s : Card) :
  notDebounced (_lastSendTime s) (clock s) <-> debounced s = false.
Proof.
  unfold notDebounced, debounced. destruct (_lastSendTime s) as [l|]; [|tauto].
  destruct (Z.eqb_spec l 0) as [E|E]; cbn.
  - split; [reflexivity | intros _; left; exact E].
  - rewrite Z.ltb_ge. split; [intros [H|H]; [contradiction | exact H] | right; assumption].
Qed.

Definition sendOwn (dev : Device) (command : string) : ServiceCall :=
  {| service := "send_command"; call_device_id := Some (device_id dev);
     call_arg := command |}.

(** The interval fires: one send, and the timer is due a period later. *)
Lemma fire_repeat (dev : Device) (id : positive) (d : Z) (command : string)
    (C : list ServiceCall) (L : option Z) (T : Z) (s : Card) :
  notDebounced L T ->
  Inv dev [repeatTimer id d command] C L T s ->
  Inv dev [repeatTimer id (d + 200) command] (C ++ [sendOwn dev command]) (Some T) T
      (fireTimer s (repeatTimer id d command)).
Proof.
  intros Hnd HI. pose proof HI as [H1 H2 H3 H4 H5 H6].
  unfold fireTimer.
  assert (Hin : In (repeatTimer id d command) (timers s)).
  { assert (Hf : In (repeatTimer id d command) (List.filter dispatching (timers s)))
      by (rewrite H5; left; reflexivity).
    apply filter_In in Hf. tauto. }
  assert (Hex : existsb (fun u => (timer_id u =? timer_id (repeatTimer id d command))%positive)
                        (timers s) = true).
  { apply existsb_exists. exists (repeatTimer id d command).
    split; [exact Hin | apply Pos.eqb_refl]. }
  rewrite Hex. cbn [period repeatTimer callback timer_id runCallback].
  set (s1 := set_timers _ s).
  assert (Hdeb : debounced s1 = false).
  { apply notDebounced_spec. unfold s1; cbn. rewrite H2, H4. exact Hnd. }
  unfold _sendCommandSilent.
  replace (_device s1) with (Some dev) by (unfold s1; cbn; congruence).
  rewrite Hdeb. unfold s1. constructor; cbn; try congruence.
  - rewrite H3. reflexivity.
  - rewrite filter_dispatching_rearm, H5. cbn. unfold rearm. cbn.
    rewrite Pos.eqb_refl. reflexivity.
  - intros u i Hu Hdu [<-|[]]. cbn.
    apply in_map_iff in Hu as (u0 & <- & Hu0).
    destruct (dispatching_rearm id 200 u0) as [Ed Ei].
    rewrite Ei. rewrite Ed in Hdu.
    exact (H6 u0 _ Hu0 Hdu (or_introl eq_refl)).
Qed.

Lemma filter_nil_all {A : Type} (f : A -> bool) (l : list A) :
  List.filter f l = [] -> forall a, In a l -> f a = false.
Proof.
  intros H a Ha. destruct (f a) eqn:E; [|reflexivity].
  assert (Hin : In a (List.filter f l)) by (apply filter_In; tauto).
  rewrite H in Hin. destruct Hin.
Qed.

Lemma fold_with_repeat (dev : Device) (id : positive) (d : Z) (command : string)
    (C : list ServiceCall) (L : option Z) (T : Z) (D : list Timer) :
  forall s,
    List.filter dispatching D = [repeatTimer id d command] ->
    (forall t, In t D -> dispatching t = false -> timer_id t <> id) ->
    notDebounced L T ->
    Inv dev [repeatTimer id d command] C L T s ->
    Inv dev [repeatTimer id (d + 200) command] (C ++ [sendOwn dev command]) (Some T) T
        (fold_left fireTimer D s).
Proof.
  induction D as [|t D IH]; intros s Hf Hid Hnd HI; cbn in Hf; [discriminate|].
  cbn [fold_left]. destruct (dispatching t) eqn:Hdt.
  - injection Hf as -> Hrest.
    apply fold_others.
    + apply filter_nil_all. exact Hrest.
    + intros u i Hu Hdu [<-|[]]. cbn. apply Hid; [right; exact Hu | exact Hdu].
    + exact (fire_repeat dev id d command C L T s Hnd HI).
  - apply IH; [exact Hf | | exact Hnd |].
    + intros u Hu. apply Hid. right; exact Hu.
    + apply fire_other; [exact Hdt| |exact HI].
      intros i [<-|[]]. cbn. apply Hid; [left; reflexivity | exact Hdt].
Qed.

(** A millisecond in which no sending timer is due. *)
Lemma tick_quiet (dev : Device) (I : list Timer) (C : list ServiceCall)
    (L : option Z) (T : Z) (s : Card) :
  (forall i, In i I -> T + 1 < due i) ->
  Inv dev I C L T s -> Inv dev I C L (T + 1) (tick s).
Proof.
  intros Hdue [H1 H2 H3 H4 H5 H6]. unfold tick.
  set (s1 := set_clock (clock s + 1) s).
  assert (HI1 : Inv dev I C L (T + 1) s1)
    by (unfold s1; constructor; cbn; try assumption; lia).
  assert (Hnone : forall t, In t (List.filter (fun t => due t <=? clock s1) (timers s1)) ->
                            dispatching t = false).
  { intros t Ht. apply filter_In in Ht as [Ht Hd].
    destruct (dispatching t) eqn:E; [|reflexivity]. exfalso.
    assert (Hi : In t I) by (rewrite <- H5; apply In_filter_dispatching; assumption).
    apply Z.leb_le in Hd. specialize (Hdue t Hi). unfold s1 in Hd; cbn in Hd. lia. }
  apply fold_others; [exact Hnone| |exact HI1].
  intros t i Ht Hdt Hi. apply filter_In in Ht as [Ht _].
  exact (H6 t i Ht Hdt Hi).
Qed.

(** The millisecond in which the interval is due. *)
Lemma tick_fire (dev : Device) (id : positive) (d : Z) (command : string)
    (C : list ServiceCall) (L : option Z) (T : Z) (s : Card) :
  d = T + 1 -> notDebounced L (T + 1) ->
  Inv dev [repeatTimer id d command] C L T s ->
  Inv dev [repeatTimer id (d + 200) command] (C ++ [sendOwn dev command])
      (Some (T + 1)) (T + 1) (tick s).
Proof.
  intros Hd Hnd [H1 H2 H3 H4 H5 H6]. unfold tick.
  set (s1 := set_clock (clock s + 1) s).
  assert (HI1 : Inv dev [repeatTimer id d command] C L (T + 1) s1)
    by (unfold s1; constructor; cbn; try assumption; lia).
  apply (fold_with_repeat dev id d command C L (T + 1)); [| |exact Hnd|exact HI1].
  - rewrite filter_swap. unfold s1 at 2; cbn [timers set_clock]. rewrite H5.
    cbn. unfold s1; cbn. rewrite H2.
    replace (d <=? T + 1) with true by (symmetry; apply Z.leb_le; lia). reflexivity.
  - intros t Ht Hdt. apply filter_In in Ht as [Ht _].
    exact (H6 t _ Ht Hdt (or_introl eq_refl)).
Qed.

(** *** Press and hold *)

Lemma advance_quiet (dev : Device) (C : list ServiceCall) (L : option Z) (n : nat) :
  forall T s, Inv dev [] C L T s -> Inv dev [] C L (T + Z.of_nat n) (advance n s).
Proof.
  induction n as [|n IH]; intros T s HI; cbn [advance].
  - replace (T + Z.of_nat 0) with T by lia. exact HI.
  - replace (T + Z.of_nat (S n)) with (T + 1 + Z.of_nat n) by lia.
    apply IH. apply tick_quiet; [intros i []|exact HI].
Qed.

Section Hold.
Variables (dev : Device) (id : positive) (t0 : Z) (command : string)
          (C0 : list ServiceCall).

(** The state [200 * k + r] ms into the hold ([r < 200]): [k] repeats were
    sent after the immediate one, the last of them [r] ms ago. *)
Definition HoldAt (k r : nat) (s : Card) : Prop :=
  Inv dev [repeatTimer id (t0 + 200 * Z.of_nat (S k)) command]
      (C0 ++ repeat (sendOwn dev command) (S k))
      (Some (t0 + 200 * Z.of_nat k))
      (t0 + 200 * Z.of_nat k + Z.of_nat r) s.

Lemma hold_tick (k r : nat) (s : Card) :
  (r < 200)%nat -> HoldAt k r s ->
  if (S r <? 200)%nat then HoldAt k (S r) (tick s) else HoldAt (S k) 0 (tick s).
Proof.
  intros Hr HI. unfold HoldAt in *.
  destruct (Nat.ltb_spec (S r) 200) as [Hlt|Hge].
  - replace (t0 + 200 * Z.of_nat k + Z.of_nat (S r))
      with (t0 + 200 * Z.of_nat k + Z.of_nat r + 1) by lia.
    apply tick_quiet; [|exact HI].
    intros i [<-|[]]. cbn. lia.
  - assert (Er : r = 199%nat) by lia. subst r.
    pose proof (tick_fire dev id (t0 + 200 * Z.of_nat (S k)) command
                  (C0 ++ repeat (sendOwn dev command) (S k))
                  (Some (t0 + 200 * Z.of_nat k))
                  (t0 + 200 * Z.of_nat k + Z.of_nat 199) s
                  ltac:(lia) ltac:(cbn; lia) HI) as H.
    assert (E1 : t0 + 200 * Z.of_nat (S k) + 200 = t0 + 200 * Z.of_nat (S (S k))) by lia.
    assert (E2 : t0 + 200 * Z.of_nat k + Z.of_nat 199 + 1 = t0 + 200 * Z.of_nat (S k)) by lia.
    assert (E3 : ((C0 ++ repeat (sendOwn dev command) (S k)) ++ [sendOwn dev command])%list
                 = (C0 ++ repeat (sendOwn dev command) (S (S k)))%list).
    { rewrite <- app_assoc. f_equal. symmetry. apply (repeat_cons (S k)). }
    rewrite E1, E2, E3 in H.
    replace (t0 + 200 * Z.of_nat (S k) + Z.of_nat 0) with (t0 + 200 * Z.of_nat (S k)) by lia.
    exact H.
Qed.

Lemma hold_advance (n : nat) :
  forall s k r,
    (r < 200)%nat -> HoldAt k r s ->
    exists k' r', (r' < 200)%nat /\ (200 * k' + r' = 200 * k + r + n)%nat
                  /\ HoldAt k' r' (advance n s).
Proof.
  induction n as [|n IH]; intros s k r Hr HI; cbn [advance].
  - exists k, r. split; [exact Hr | split; [lia | exact HI]].
  - pose proof (hold_tick k r s Hr HI) as Ht.
    destruct (Nat.ltb_spec (S r) 200) as [Hlt|Hge].
    + destruct (IH _ _ _ Hlt Ht) as (k' & r' & H1 & H2 & H3).
      exists k', r'. split; [exact H1 | split; [lia | exact H3]].
    + destruct (IH (tick s) (S k) 0%nat ltac:(lia) Ht) as (k' & r' & H1 & H2 & H3).
      exists k', r'. split; [exact H1 | split; [lia | exact H3]].
Qed.

Lemma hold_advance_calls (n : nat) (s : Card) :
  HoldAt 0 0 s ->
  exists d L,
    Inv dev [repeatTimer id d command]
        (C0 ++ repeat (sendOwn dev command) (1 + n / 200)) L
        (t0 + Z.of_nat n) (advance n s).
Proof.
  intros HI. destruct (hold_advance n s 0%nat 0%nat ltac:(lia) HI) as (k & r & H1 & H2 & H3).
  assert (Ek : k = (n / 200)%nat) by (apply (Nat.div_unique n 200 k r); lia).
  subst k. unfold HoldAt in H3.
  replace (t0 + 200 * Z.of_nat (n / 200) + Z.of_nat r) with (t0 + Z.of_nat n) in H3 by lia.
  eauto.
Qed.

End Hold.

Lemma filter_dispatching_app (a b : list Timer) :
  List.filter dispatching (a ++ b)
  = (List.filter dispatching a ++ List.filter dispatching b)%list.
Proof. apply List.filter_app. Qed.

(** The state right after the press. *)
Lemma startRepeat_Inv (command : string) (s : Card) (dev : Device) :
  _device s = Some dev -> debounced s = false ->
  noRepeatPending s -> handlesFresh s ->
  Inv dev [repeatTimer (Pos.succ (nextTimerId s)) (clock s + 200) command]
      (calls s ++ [sendOwn dev command]) (Some (clock s)) (clock s)
      (_startRepeat command s)
  /\ _repeatInterval (_startRepeat command s) = Some (Pos.succ (nextTimerId s))
  /\ _fillDelayTimeout (_startRepeat command s) = Some (nextTimerId s)
  /\ _isHolding (_startRepeat command s) = true
  /\ nextTimerId (_startRepeat command s) = Pos.succ (Pos.succ (nextTimerId s)).
Proof.
  intros Hdev Hdeb Hnone Hfresh. unfold _startRepeat. cbn.
  set (s1 := _updateToast (Some command) _).
  destruct (updateToast_same (Some command)
              (set_holdCommand (Some command) (set_isHolding true s)))
    as (A1 & A2 & A3 & A4 & A5 & A6 & A7 & A8 & A9 & A10).
  fold s1 in A1, A2, A3, A4, A5, A6, A7, A8, A9, A10. cbn in *.
  assert (Hdeb1 : debounced s1 = false) by (unfold debounced; rewrite A4, A2; exact Hdeb).
  unfold _sendCommandSilent. rewrite A1, Hdev, Hdeb1. cbn.
  rewrite A6, A2, A5.
  split; [|repeat split; first [reflexivity | exact A7]].
  constructor; cbn; try congruence.
  - rewrite A3. reflexivity.
  - rewrite <- app_assoc, filter_dispatching_app. rewrite Hnone. reflexivity.
  - intros t i Ht Hdt [<-|[]]. cbn.
    rewrite <- app_assoc in Ht. apply in_app_iff in Ht as [Ht|[<-|[<-|[]]]].
    + specialize (Hfresh t Ht). lia.
    + cbn. lia.
    + discriminate Hdt.
Qed.

Lemma filter_keep_all (l : list Timer) :
  List.filter (fun t => negb (hasHandle None t)) l = l.
Proof. induction l as [|a l IH]; cbn in *; [reflexivity | rewrite IH; reflexivity]. Qed.

(** Everything but the timer table and the two handle fields. *)
Definition sameButHandles (s s' : Card) : Prop :=
  _device s' = _device s /\ clock s' = clock s /\ calls s' = calls s
  /\ _lastSendTime s' = _lastSendTime s /\ nextTimerId s' = nextTimerId s
  /\ _isHolding s' = _isHolding s /\ _holdCommand s' = _holdCommand s.

Lemma stop_interval (s : Card) :
  let s1 := match _repeatInterval s with
            | Some id => set_repeatInterval None (clearTimer id s)
            | None => s
            end in
  timers s1 = List.filter (fun t => negb (hasHandle (_repeatInterval s) t)) (timers s)
  /\ _repeatInterval s1 = None
  /\ _fillDelayTimeout s1 = _fillDelayTimeout s
  /\ sameButHandles s s1.
Proof.
  unfold sameButHandles. destruct (_repeatInterval s) as [i|] eqn:E; cbn.
  - repeat split; reflexivity.
  - rewrite filter_keep_all. repeat split; try reflexivity. exact E.
Qed.

Lemma stop_delay (s : Card) :
  let s2 := match _fillDelayTimeout s with
            | Some id => set_fillDelayTimeout None (clearTimer id s)
            | None => s
            end in
  timers s2 = List.filter (fun t => negb (hasHandle (_fillDelayTimeout s) t)) (timers s)
  /\ _fillDelayTimeout s2 = None
  /\ _repeatInterval s2 = _repeatInterval s
  /\ sameButHandles s s2.
Proof.
  unfold sameButHandles. destruct (_fillDelayTimeout s) as [i|] eqn:E; cbn.
  - repeat split; reflexivity.
  - rewrite filter_keep_all. repeat split; try reflexivity. exact E.
Qed.

(** Release: the two handles leave the table, and a hold that was in
    progress sets the settle timeout. *)
Lemma stopRepeat_timers (s : Card) :
  timers (_stopRepeat s)
  = (List.filter (fun t => negb (hasHandle (_fillDelayTimeout s) t))
       (List.filter (fun t => negb (hasHandle (_repeatInterval s) t)) (timers s))
     ++ (if _isHolding s then [settleTimer s] else []))%list
  /\ _repeatInterval (_stopRepeat s) = None
  /\ _fillDelayTimeout (_stopRepeat s) = None
  /\ _isHolding (_stopRepeat s) = false
  /\ calls (_stopRepeat s) = calls s
  /\ clock (_stopRepeat s) = clock s
  /\ _device (_stopRepeat s) = _device s
  /\ _lastSendTime (_stopRepeat s) = _lastSendTime s.
Proof.
  unfold _stopRepeat.
  destruct (stop_interval s) as (T1 & R1 & F1 & D1 & K1 & C1 & L1 & N1 & H1 & HC1).
  set (s1 := match _repeatInterval s with Some id => _ | None => _ end) in *.
  destruct (stop_delay s1) as (T2 & F2 & R2 & D2 & K2 & C2 & L2 & N2 & H2 & HC2).
  set (s2 := match _fillDelayTimeout s1 with Some id => _ | None => _ end) in *.
  rewrite H2, H1. destruct (_isHolding s) eqn:Hh.
  - set (s3 := set_holdCommand None (set_isHolding false s2)).
    destruct (updateToast_same (_holdCommand s2) s3)
      as (A1 & A2 & A3 & A4 & A5 & A6 & A7 & A8 & A9 & A10).
    cbn. rewrite A5, A6, A2, A1, A3, A4, A7, A9, A10. cbn.
    unfold settleTimer. rewrite T2, T1, F1, N2, N1, K2, K1.
    repeat split; congruence.
  - rewrite app_nil_r, T2, T1, F1. repeat split; congruence.
Qed.

Lemma Inv_release (dev : Device) (id : positive) (d : Z) (command : string)
    (C : list ServiceCall) (L : option Z) (T : Z) (s : Card) :
  _repeatInterval s = Some id ->
  Inv dev [repeatTimer id d command] C L T s ->
  Inv dev [] C L T (_stopRepeat s).
Proof.
  intros Hrep [H1 H2 H3 H4 H5 H6].
  destruct (stopRepeat_timers s) as (Ht & _ & _ & _ & Hc & Hk & Hd & Hl).
  constructor; try congruence.
  - rewrite Ht, filter_dispatching_app.
    rewrite (filter_swap dispatching), (filter_swap dispatching), H5, Hrep.
    cbn. rewrite Pos.eqb_refl. cbn.
    destruct (_isHolding s); reflexivity.
  - intros t i _ _ [].
Qed.

(** C7 (counterexample): a hold that starts less than 150 ms after another
    command was sent dispatches nothing immediately: [_sendCommandSilent]
    takes its debounce exit.  The first dispatch of the hold is the one of
    the interval, 200 ms later. *)
Lemma hold_after_recent_send_is_debounced :
  calls (_sendCommand true "mute" (cardAt 1000))
  = [sendOwn tv "mute"]
  /\ calls (_startRepeat "volume_up"
              (advance 100 (_sendCommand true "mute" (cardAt 1000))))
     = [sendOwn tv "mute"]
  /\ calls (advance 199 (_startRepeat "volume_up"
                           (advance 100 (_sendCommand true "mute" (cardAt 1000)))))
     = [sendOwn tv "mute"]
  /\ calls (advance 200 (_startRepeat "volume_up"
                           (advance 100 (_sendCommand true "mute" (cardAt 1000)))))
     = [sendOwn tv "mute"; sendOwn tv "volume_up"].
Proof. repeat split; vm_compute; reflexivity. Qed.

(** C7 (amended): on a card with no hold in progress, a press-and-hold
    that starts when the debounce window of 150 ms is over dispatches the
    command once immediately and once more for every 200 ms it is held, to
    the widget's own device; nothing is dispatched after the release.  The
    release removes the interval and the delay timeout from the timer table
    and sets the one settle timeout, due 500 ms later. *)
Theorem hold_repeat_dispatches (command : string) (s : Card) (dev : Device)
    (held after : nat) :
  _device s = Some dev ->
  debounced s = false ->
  noRepeatPending s ->
  handlesFresh s ->
  calls (_startRepeat command s) = (calls s ++ [sendOwn dev command])%list
  /\ calls (advance held (_startRepeat command s))
     = (calls s ++ repeat (sendOwn dev command) (1 + held / 200))%list
  /\ calls (advance after (_stopRepeat (advance held (_startRepeat command s))))
     = calls (advance held (_startRepeat command s))
  /\ noRepeatPending (_stopRepeat (advance held (_startRepeat command s)))
  /\ timers (_stopRepeat (advance held (_startRepeat command s)))
     = (List.filter
          (fun t => negb (timer_id t =? nextTimerId s)%positive)
          (List.filter
             (fun t => negb (timer_id t =? Pos.succ (nextTimerId s))%positive)
             (timers (advance held (_startRepeat command s))))
        ++ [settleTimer (advance held (_startRepeat command s))])%list
  /\ _repeatInterval (_stopRepeat (advance held (_startRepeat command s))) = None
  /\ _fillDelayTimeout (_stopRepeat (advance held (_startRepeat command s))) = None.
Proof.
  intros Hdev Hdeb Hnone Hfresh.
  destruct (startRepeat_Inv command s dev Hdev Hdeb Hnone Hfresh)
    as (HI & Hrep & Hfill & Hhold & _).
  set (pressed := _startRepeat command s) in *.
  assert (H0 : HoldAt dev (Pos.succ (nextTimerId s)) (clock s) command (calls s) 0 0 pressed).
  { unfold HoldAt. cbn [repeat].
    replace (clock s + 200 * Z.of_nat 1) with (clock s + 200) by lia.
    replace (clock s + 200 * Z.of_nat 0 + Z.of_nat 0) with (clock s) by lia.
    replace (Some (clock s + 200 * Z.of_nat 0)) with (Some (clock s)) by (f_equal; lia).
    exact HI. }
  destruct (hold_advance_calls dev _ _ command _ held pressed H0) as (d & L & Hheld).
  destruct (advance_sameHold held pressed) as (_ & _ & Hh' & _ & Hrep' & Hfill').
  set (now := advance held pressed) in *.
  assert (Hrel : Inv dev [] (calls s ++ repeat (sendOwn dev command) (1 + held / 200)) L
                     (clock s + Z.of_nat held) (_stopRepeat now)).
  { eapply Inv_release; [|exact Hheld]. congruence. }
  destruct (stopRepeat_timers now) as (Ht & Hr1 & Hr2 & _).
  split; [exact (inv_calls _ _ _ _ _ _ HI)|].
  split; [exact (inv_calls _ _ _ _ _ _ Hheld)|].
  split.
  { rewrite (inv_calls _ _ _ _ _ _ (advance_quiet dev _ L after _ _ Hrel)).
    symmetry. exact (inv_calls _ _ _ _ _ _ Hheld). }
  split; [exact (inv_dispatching _ _ _ _ _ _ Hrel)|].
  split; [|split; assumption].
  rewrite Ht, Hrep', Hfill', Hrep, Hfill, Hh', Hhold. reflexivity.
Qed.

(** Held for 450 ms, then released: three dispatches, and none in the two
    seconds that follow. *)
Lemma hold_repeat_dispatches_witness :
  _device (cardAt 1000) = Some tv
  /\ debounced (cardAt 1000) = false
  /\ calls (advance 2000 (_stopRepeat (advance 450 (_startRepeat "volume_up" (cardAt 1000)))))
     = [sendOwn tv "volume_up"; sendOwn tv "volume_up"; sendOwn tv "volume_up"].
Proof.
  split; [reflexivity|]. split; [reflexivity|].
  destruct (hold_repeat_dispatches "volume_up" (cardAt 1000) tv 450 2000
              eq_refl eq_refl eq_refl ltac:(intros t []))
    as (_ & H2 & H3 & _).
  rewrite H3, H2. reflexivity.
Defined.

(** *** Closing the modal *)

(** C9 (counterexample): closing the modal cancels no timer.  The timeout
    [_sendCommand] set to clear the marker is still pending after the
    close; and a repeat interval running at the close keeps firing: 400 ms
    after it, two more commands have been dispatched. *)
Lemma closeModal_cancels_no_timer :
  timers (closeModal (_sendCommand true "power" (openRemote online (cardAt 1000))))
  = [{| timer_id := 1; due := 2000; period := None; callback := CbClearSentIf "power" |}]
  /\ _repeatInterval (closeModal (_startRepeat "volume_up" (openRemote online (cardAt 1000))))
     = Some 2%positive
  /\ timers (closeModal (_startRepeat "volume_up" (openRemote online (cardAt 1000))))
     = [{| timer_id := 1; due := 1250; period := None; callback := CbFillDelay "volume_up" |};
        repeatTimer 2 1200 "volume_up"]
  /\ calls (advance 400
              (closeModal (_startRepeat "volume_up" (openRemote online (cardAt 1000)))))
     = [sendOwn tv "volume_up"; sendOwn tv "volume_up"; sendOwn tv "volume_up"].
Proof. repeat split; vm_compute; reflexivity. Qed.

(** C9 (amended): closing the modal hides it and clears the last-sent
    marker; it leaves the timer table and the hold state as they are.  A
    marker timeout that fires on the closed card changes nothing (the
    guarded one of [_sendCommand] finds the marker cleared).  The repeat
    interval and the delay timeout are cancelled by the release
    ([_stopRepeat]), which removes their handles from the table. *)
Theorem closeModal_clears_marker_only (s : Card) :
  (_showRemote (closeModal s) = false
   /\ _lastSent (closeModal s) = None
   /\ timers (closeModal s) = timers s
   /\ _repeatInterval (closeModal s) = _repeatInterval s
   /\ _fillDelayTimeout (closeModal s) = _fillDelayTimeout s
   /\ _isHolding (closeModal s) = _isHolding s)
  /\ (forall marker, runCallback (CbClearSentIf marker) (closeModal s) = closeModal s)
  /\ runCallback CbClearSent (closeModal s) = closeModal s
  /\ (forall marker s0, _lastSent s0 <> Some marker ->
                        runCallback (CbClearSentIf marker) s0 = s0)
  /\ (timers (_stopRepeat s)
      = (List.filter (fun t => negb (hasHandle (_fillDelayTimeout s) t))
           (List.filter (fun t => negb (hasHandle (_repeatInterval s) t)) (timers s))
         ++ (if _isHolding s then [settleTimer s] else []))%list
      /\ _repeatInterval (_stopRepeat s) = None
      /\ _fillDelayTimeout (_stopRepeat s) = None).
Proof.
  split; [repeat split; reflexivity|].
  split; [intros marker; reflexivity|].
  split; [reflexivity|].
  split.
  - intros marker s0 Hne. cbn.
    destruct (_lastSent s0) as [m|]; cbn; [|reflexivity].
    destruct (String.eqb_spec m marker) as [->|]; [congruence | reflexivity].
  - destruct (stopRepeat_timers s) as (H1 & H2 & H3 & _). auto.
Qed.

Lemma closeModal_clears_marker_only_witness :
  _lastSent (closeModal (_sendCommand true "power" (openRemote online (cardAt 1000))))
  <> Some "power"
  /\ runCallback (CbClearSentIf "power")
       (closeModal (_sendCommand true "power" (openRemote online (cardAt 1000))))
     = closeModal (_sendCommand true "power" (openRemote online (cardAt 1000))).
Proof.
  assert (H : _lastSent (closeModal (_sendCommand true "power"
                                       (openRemote online (cardAt 1000))))
              <> Some "power") by discriminate.
  split; [exact H|].
  exact (proj1 (proj2 (proj2 (proj2
           (closeModal_clears_marker_only
              (closeModal (_sendCommand true "power" (openRemote online (cardAt 1000))))))))
           "power" _ H).
Defined.

End DispatcherProofs.

(** ** The shared response cache *)

Module CacheProofs.
Import VDADataCache.
Local Open Scope Z_scope.

Section Facts.
Variables V E : Type.
Implicit Types (s : State V E) (key : string) (p : positive).

Lemma invocations_snoc s key k fetchFn :
  length (List.filter (fun i => (fst i =? key)%string) (invoked s ++ [(k, fetchFn)]))
  = (invocations key s + if (k =? key)%string then 1 else 0)%nat.
Proof.
  unfold invocations. rewrite List.filter_app, length_app. cbn.
  destruct (k =? key)%string; reflexivity.
Qed.

(** A fetch either leaves the cache as it is, or starts the producer. *)
Lemma fetch_cases key fetchFn now s :
  (fst (fetch key fetchFn now s) = s
   /\ (is_Some (fresh key now s) \/ is_Some (_loading s !! key)))
  \/ (fresh key now s = None /\ _loading s !! key = None
      /\ fetch key fetchFn now s
         = (mkState V E (_data s) (<[key := nextPromise s]> (_loading s))
              (<[nextPromise s := Pending key]> (promises s))
              (Pos.succ (nextPromise s)) (invoked s ++ [(key, fetchFn)]),
            Shared (nextPromise s))).
Proof.
  unfold fetch. destruct (fresh key now s) as [v|] eqn:Hf.
  - left. split; [reflexivity | left; eauto].
  - destruct (_loading s !! key) as [p|] eqn:Hl.
    + left. split; [reflexivity | right; eauto].
    + right. auto.
Qed.

Lemma fresh_spec key now s v :
  fresh key now s = Some v
  <-> exists e, _data s !! key = Some e /\ now - timestamp e < _ttl /\ value e = v.
Proof.
  unfold fresh. destruct (_data s !! key) as [e|]; [|split; [discriminate | intros (e & H & _); discriminate]].
  destruct (Z.ltb_spec (now - timestamp e) _ttl) as [Hlt|Hge].
  - split; [intros [= <-]; eauto | intros (e' & [= <-] & _ & <-); reflexivity].
  - split; [discriminate | intros (e' & [= <-] & Hlt & _); lia].
Qed.

Lemma fresh_None key now s :
  fresh key now s = None
  <-> forall e, _data s !! key = Some e -> _ttl <= now - timestamp e.
Proof.
  unfold fresh. destruct (_data s !! key) as [e|].
  - destruct (Z.ltb_spec (now - timestamp e) _ttl) as [Hlt|Hge].
    + split; [discriminate | intros H; specialize (H e eq_refl); lia].
    + split; [intros _ e' [= <-]; exact Hge | reflexivity].
  - split; [intros _ e' H; discriminate | reflexivity].
Qed.

(** *** Well-formed states *)

Lemma init_wellFormed : wellFormed (@init V E).
Proof.
  split.
  - intros key p. cbn. rewrite !lookup_empty. split; discriminate.
  - intros p [x H]. cbn in H. rewrite lookup_empty in H. discriminate.
Qed.

Lemma settle_wellFormed s q k (st : Promise V E) data :
  (forall key, st <> Pending key) ->
  wellFormed s -> promises s !! q = Some (Pending k) ->
  wellFormed (mkState V E data (delete k (_loading s)) (<[q := st]> (promises s))
                (nextPromise s) (invoked s)).
Proof.
  intros Hst [Hwf Hlt] Hq. split; cbn.
  - intros key p. split.
    + intros Hl. destruct (decide (k = key)) as [->|Hk].
      { rewrite lookup_delete_eq in Hl. discriminate. }
      rewrite lookup_delete_ne in Hl by exact Hk.
      apply Hwf in Hl. destruct (decide (q = p)) as [->|Hp].
      { rewrite Hq in Hl. congruence. }
      rewrite lookup_insert_ne by exact Hp. exact Hl.
    + intros Hp. destruct (decide (q = p)) as [->|Hqp].
      { rewrite lookup_insert_eq in Hp. injection Hp as Hp. exfalso. exact (Hst _ Hp). }
      rewrite lookup_insert_ne in Hp by exact Hqp.
      destruct (decide (k = key)) as [->|Hk].
      { apply Hwf in Hp. apply Hwf in Hq. congruence. }
      rewrite lookup_delete_ne by exact Hk. apply Hwf. exact Hp.
  - intros p Hp. apply Hlt. destruct (decide (q = p)) as [->|Hqp].
    + rewrite Hq. eauto.
    + rewrite lookup_insert_ne in Hp by exact Hqp. exact Hp.
Qed.

Lemma step_wellFormed s ev : wellFormed s -> wellFormed (step s ev).
Proof.
  intros Hwf. destruct ev as [key fn now | p v now | p e | key |]; cbn.
  - destruct (fetch_cases key fn now s) as [[-> _]|(_ & Hl & ->)]; [exact Hwf|].
    destruct Hwf as [Hwf Hlt]. split; cbn.
    + intros k p. split.
      * intros H. destruct (decide (key = k)) as [->|Hk].
        { rewrite lookup_insert_eq in H. injection H as <-. apply lookup_insert_eq. }
        rewrite lookup_insert_ne in H by exact Hk. apply Hwf in H.
        assert (Hp : nextPromise s <> p).
        { intros <-. assert (Hs : is_Some (promises s !! nextPromise s)) by eauto.
          apply Hlt in Hs. lia. }
        rewrite lookup_insert_ne by exact Hp. exact H.
      * intros H. destruct (decide (nextPromise s = p)) as [<-|Hp].
        { rewrite lookup_insert_eq in H. injection H as <-. apply lookup_insert_eq. }
        rewrite lookup_insert_ne in H by exact Hp. apply Hwf in H.
        assert (Hk : key <> k) by congruence.
        rewrite lookup_insert_ne by exact Hk. exact H.
    + intros p Hp. destruct (decide (nextPromise s = p)) as [<-|Hne]; [lia|].
      rewrite lookup_insert_ne in Hp by exact Hne. apply Hlt in Hp. lia.
  - unfold resolved. destruct (promises s !! p) as [[k| |]|] eqn:Hp; try exact Hwf.
    apply settle_wellFormed; [discriminate | exact Hwf | exact Hp].
  - unfold rejected. destruct (promises s !! p) as [[k| |]|] eqn:Hp; try exact Hwf.
    apply settle_wellFormed; [discriminate | exact Hwf | exact Hp].
  - exact Hwf.
  - exact Hwf.
Qed.

Lemma run_wellFormed evs : forall s, wellFormed s -> wellFormed (run s evs).
Proof.
  induction evs as [|ev evs IH]; intros s Hwf; cbn; [exact Hwf|].
  apply IH, step_wellFormed, Hwf.
Qed.

(** *** At most one invocation in a window *)

(** The key is being loaded, or holds a value stored since [t1]. *)
Definition covered key (t1 : Z) s : Prop :=
  is_Some (_loading s !! key)
  \/ exists e, _data s !! key = Some e /\ t1 <= timestamp e.

Definition atMostOne key (t1 : Z) (base : nat) s : Prop :=
  invocations key s = base
  \/ (invocations key s = S base /\ covered key t1 s).

Lemma step_atMostOne key t1 base s ev :
  inWindow key t1 s ev -> atMostOne key t1 base s -> atMostOne key t1 base (step s ev).
Proof.
  intros Hw HQ. destruct ev as [k fn now | p v now | p e | k |]; cbn in *.
  - destruct (fetch_cases k fn now s) as [[-> _]|(Hf & Hl & ->)]; [exact HQ|].
    unfold atMostOne, invocations, covered in *. cbn.
    rewrite invocations_snoc. unfold invocations.
    destruct (String.eqb_spec k key) as [->|Hk].
    + destruct HQ as [Hb|[Hb Hc]].
      * right. split; [lia|]. left. rewrite lookup_insert_eq. eauto.
      * exfalso. destruct Hc as [[x Hx]|(e & He & Hts)]; [congruence|].
        pose proof (proj1 (fresh_None key now s) Hf e He). specialize (Hw eq_refl). lia.
    + rewrite Nat.add_0_r. rewrite lookup_insert_ne by exact Hk. exact HQ.
  - unfold resolved. destruct (promises s !! p) as [[k| |]|] eqn:Hp; try exact HQ.
    unfold atMostOne, invocations, covered in *. cbn.
    destruct HQ as [Hb|[Hb Hc]]; [left; exact Hb|]. right. split; [exact Hb|].
    destruct (decide (k = key)) as [->|Hk].
    + right. rewrite lookup_insert_eq. eexists. split; [reflexivity|]. cbn. exact Hw.
    + rewrite lookup_delete_ne, lookup_insert_ne by exact Hk. exact Hc.
  - unfold rejected. destruct (promises s !! p) as [[k| |]|] eqn:Hp; try exact HQ.
    unfold atMostOne, invocations, covered in *. cbn.
    assert (Hk : k <> key) by congruence.
    rewrite lookup_delete_ne by exact Hk. exact HQ.
  - unfold atMostOne, invocations, covered in *. cbn.
    rewrite lookup_delete_ne by exact Hw. exact HQ.
  - destruct Hw.
Qed.

Lemma run_atMostOne key t1 base evs :
  forall s, windowRun key t1 s evs -> atMostOne key t1 base s ->
            atMostOne key t1 base (run s evs).
Proof.
  induction evs as [|ev evs IH]; intros s Hw HQ; cbn; [exact HQ|].
  destruct Hw as [Hev Hrest]. apply IH; [exact Hrest|].
  apply step_atMostOne; assumption.
Qed.

(** *** Callers of a fetch in flight *)

(** Promise [pid] is the one being loaded for [key], and no value stored
    for [key] is fresh from [t1] on. *)
Definition inFlight key (pid : positive) (t1 : Z) s : Prop :=
  wellFormed s
  /\ _loading s !! key = Some pid
  /\ forall now, t1 <= now -> fresh key now s = None.

Lemma step_inFlight key pid t1 s ev :
  leavesPending pid t1 ev -> inFlight key pid t1 s ->
  inFlight key pid t1 (step s ev) /\ invocations key (step s ev) = invocations key s.
Proof.
  intros Hev (Hwf & Hl & Hstale).
  assert (Hwf' := step_wellFormed s ev Hwf).
  split; [split; [exact Hwf'|] |]; destruct ev as [k fn now | q v now | q e | k |]; cbn in *.
  - destruct (fetch_cases k fn now s) as [[-> _]|(Hf & Hlk & ->)]; [auto|].
    assert (Hk : k <> key) by congruence. cbn. split.
    + rewrite lookup_insert_ne by exact Hk. exact Hl.
    + intros t Ht. specialize (Hstale t Ht). unfold fresh in *. cbn. exact Hstale.
  - unfold resolved. destruct (promises s !! q) as [[k| |]|] eqn:Hq; auto.
    assert (Hk : k <> key).
    { intros ->. apply (proj1 Hwf) in Hq. congruence. }
    cbn. split.
    + rewrite lookup_delete_ne by exact Hk. exact Hl.
    + intros t Ht. specialize (Hstale t Ht). unfold fresh in *. cbn.
      rewrite lookup_insert_ne by exact Hk. exact Hstale.
  - unfold rejected. destruct (promises s !! q) as [[k| |]|] eqn:Hq; auto.
    assert (Hk : k <> key).
    { intros ->. apply (proj1 Hwf) in Hq. congruence. }
    cbn. split.
    + rewrite lookup_delete_ne by exact Hk. exact Hl.
    + intros t Ht. specialize (Hstale t Ht). unfold fresh in *. cbn. exact Hstale.
  - split; [exact Hl|]. intros t Ht. specialize (Hstale t Ht). unfold fresh in *. cbn.
    destruct (decide (k = key)) as [->|Hk].
    + rewrite lookup_delete_eq. reflexivity.
    + rewrite lookup_delete_ne by exact Hk. exact Hstale.
  - split; [exact Hl|]. intros t Ht. unfold fresh. cbn. rewrite lookup_empty. reflexivity.
  - destruct (fetch_cases k fn now s) as [[-> _]|(Hf & Hlk & ->)]; [reflexivity|].
    assert (Hk : k <> key) by congruence.
    unfold invocations at 1. cbn. rewrite invocations_snoc.
    destruct (String.eqb_spec k key); [contradiction | lia].
  - unfold resolved. destruct (promises s !! q) as [[k| |]|]; reflexivity.
  - unfold rejected. destruct (promises s !! q) as [[k| |]|]; reflexivity.
  - reflexivity.
  - reflexivity.
Qed.

Lemma run_inFlight key pid t1 evs :
  forall s, Forall (leavesPending pid t1) evs -> inFlight key pid t1 s ->
            inFlight key pid t1 (run s evs)
            /\ invocations key (run s evs) = invocations key s.
Proof.
  induction evs as [|ev evs IH]; intros s Hev HM; cbn; [auto|].
  inversion Hev as [|? ? H1 H2]; subst.
  destruct (step_inFlight key pid t1 s ev H1 HM) as [HM' Hn].
  destruct (IH _ H2 HM') as [HM'' Hn']. split; [exact HM''|].
  rewrite <- Hn. exact Hn'.
Qed.

Lemma fetch_shared_inFlight key fn t1 s s1 pid :
  wellFormed s -> fetch key fn t1 s = (s1, Shared pid) ->
  inFlight key pid t1 s1 /\ (invocations key s1 <= invocations key s + 1)%nat.
Proof.
  intros Hwf Hfetch.
  assert (Hwf1 : wellFormed s1).
  { change s1 with (fst (s1, @Shared V pid)). rewrite <- Hfetch.
    exact (step_wellFormed s (EFetch key fn t1) Hwf). }
  assert (Hmono : fresh key t1 s = None ->
                  forall now, t1 <= now -> fresh key now s = None).
  { intros H0 now Hnow. apply fresh_None. intros e He.
    pose proof (proj1 (fresh_None key t1 s) H0 e He). lia. }
  unfold fetch in Hfetch. destruct (fresh key t1 s) as [v|] eqn:Hf; [discriminate|].
  destruct (_loading s !! key) as [p|] eqn:Hl.
  - injection Hfetch as <- <-. split; [|lia]. split; [exact Hwf|]. split; [exact Hl|].
    apply Hmono. reflexivity.
  - injection Hfetch as <- <-. split.
    + split; [exact Hwf1|]. split; [cbn; apply lookup_insert_eq|].
      intros now Hnow. specialize (Hmono eq_refl now Hnow). unfold fresh in *. exact Hmono.
    + unfold invocations at 1. cbn. rewrite invocations_snoc.
      rewrite String.eqb_refl. lia.
Qed.

(** C4 (amended): (1) a fetch that finds a value younger than the
    time-to-live of 5000 ms returns it and leaves the cache, and so the
    list of producer invocations, as it is; (2) over a window shorter than
    the time-to-live in which no producer of the key fails and the key is
    not invalidated, any number of fetches of the key (two in particular)
    invoke a producer at most once; (3) a caller who fetches while the
    promise of an earlier caller is still pending is given that same
    promise, no producer is invoked for it, and when the promise resolves
    both are given the one resolved value. *)
Theorem fetch_contract (s : State V E) (key : string) :
  (forall fetchFn now e,
     _data s !! key = Some e -> now - timestamp e < _ttl ->
     fetch key fetchFn now s = (s, Ready (value e)))
  /\ (forall t1 evs,
        windowRun key t1 s evs ->
        (invocations key (run s evs) <= invocations key s + 1)%nat)
  /\ (forall fetchFn fetchFn' t1 t2 mid s1 pid,
        wellFormed s ->
        fetch key fetchFn t1 s = (s1, Shared pid) ->
        Forall (leavesPending pid t1) mid ->
        t1 <= t2 ->
        fetch key fetchFn' t2 (run s1 mid) = (run s1 mid, Shared pid)
        /\ invocations key (run s1 mid) = invocations key s1
        /\ (invocations key s1 <= invocations key s + 1)%nat
        /\ forall v now,
             received (resolved pid v now (run s1 mid)) (Shared pid) = Some (inl v)).
Proof.
  split; [|split].
  - intros fn now e He Hlt. unfold fetch.
    assert (Hf : fresh key now s = Some (value e))
      by (apply fresh_spec; eauto).
    rewrite Hf. reflexivity.
  - intros t1 evs Hw.
    destruct (run_atMostOne key t1 (invocations key s) evs s Hw (or_introl eq_refl))
      as [H|[H _]]; lia.
  - intros fn fn' t1 t2 mid s1 pid Hwf Hfetch Hmid Ht.
    destruct (fetch_shared_inFlight key fn t1 s s1 pid Hwf Hfetch) as [HM Hle].
    destruct (run_inFlight key pid t1 mid s1 Hmid HM) as [(Hwf2 & Hl2 & Hstale2) Hn].
    split; [|split; [exact Hn | split; [exact Hle|]]].
    + unfold fetch. rewrite (Hstale2 t2 Ht), Hl2. reflexivity.
    + intros v now. unfold resolved.
      rewrite (proj1 (proj1 Hwf2 key pid) Hl2). cbn.
      rewrite lookup_insert_eq. reflexivity.
Qed.

End Facts.

(** C4 (counterexample): the producer of the first fetch fails 100 ms
    later; a second fetch of the key 200 ms after the first invokes the
    producer again: two invocations within the time-to-live. *)
Lemma failed_producer_invoked_again :
  invocations "devices"
    (run (@init string string)
       [EFetch "devices" 7%nat 1000; ERejected 1%positive "network error";
        EFetch "devices" 7%nat 1200])
  = 2%nat
  /\ 1200 - 1000 < _ttl.
Proof. split; [vm_compute; reflexivity | reflexivity]. Qed.

(** Two fetches 200 ms apart, the producer resolving in between: one
    invocation; and two callers of a pending fetch are given one value. *)
Lemma fetch_contract_witness :
  windowRun "devices" 1000 (@init string string)
    [EFetch "devices" 7%nat 1000; EResolved 1%positive "payload" 1100;
     EFetch "devices" 8%nat 1200]
  /\ (invocations "devices"
        (run (@init string string)
           [EFetch "devices" 7%nat 1000; EResolved 1%positive "payload" 1100;
            EFetch "devices" 8%nat 1200])
      <= 0 + 1)%nat.
Proof.
  assert (Hw : windowRun "devices" 1000 (@init string string)
                 [EFetch "devices" 7%nat 1000; EResolved 1%positive "payload" 1100;
                  EFetch "devices" 8%nat 1200]).
  { cbn. repeat split; intros; reflexivity || lia. }
  split; [exact Hw|].
  exact (proj1 (proj2 (fetch_contract string string init "devices")) 1000 _ Hw).
Defined.

Example concurrent_callers_share :
  let s1 := fst (fetch "devices" 7%nat 1000 (@init string string)) in
  fetch "devices" 8%nat 1050 s1 = (s1, Shared 1%positive)
  /\ invoked s1 = [("devices", 7%nat)]
  /\ received (resolved 1%positive "payload" 1100 s1) (Shared 1%positive)
     = Some (inl "payload").
Proof. repeat split; vm_compute; reflexivity. Qed.

End CacheProofs.

(** ** The rate-limited query queue *)

Module QueueProofs.
Import VDAMatrixQueryQueue.
Local Open Scope Z_scope.

Section Facts.
Variables R E : Type.
Implicit Types (s : State R E) (obs : list (Observed R E)).

(** The operation left running by a sequence of observations. *)
Fixpoint runningAfter (running : option nat) obs : option nat :=
  match obs with
  | [] => running
  | Started op _ :: rest => runningAfter (Some op) rest
  | Settled _ _ :: rest => runningAfter None rest
  end.

Lemma alternates_started obs : forall running op t,
  alternates running obs -> runningAfter running obs = None ->
  alternates running (obs ++ [Started op t])
  /\ runningAfter running (obs ++ [Started op t]) = Some op.
Proof.
  induction obs as [|[op' t'|op' o'] obs IH]; intros running op t Ha Hr; cbn in *.
  - subst. auto.
  - destruct Ha as [-> Ha]. destruct (IH _ op t Ha Hr). auto.
  - destruct Ha as [-> Ha]. destruct (IH _ op t Ha Hr). auto.
Qed.

Lemma alternates_settled obs : forall running op o,
  alternates running obs -> runningAfter running obs = Some op ->
  alternates running (obs ++ [Settled op o])
  /\ runningAfter running (obs ++ [Settled op o]) = None.
Proof.
  induction obs as [|[op' t'|op' o'] obs IH]; intros running op o Ha Hr; cbn in *.
  - subst. auto.
  - destruct Ha as [-> Ha]. destruct (IH _ op o Ha Hr). auto.
  - destruct Ha as [-> Ha]. destruct (IH _ op o Ha Hr). auto.
Qed.

Lemma spaced_snoc (gap : Z) (ts : list Z) (t : Z) :
  spaced gap ts -> (ts <> [] -> gap <= t - List.last ts 0) -> spaced gap (ts ++ [t]).
Proof.
  induction ts as [|a ts IH]; intros Hs Hl; [exact I|].
  destruct ts as [|b ts].
  - cbn in *. split; [apply Hl; discriminate | exact I].
  - destruct Hs as [Hab Hs]. split; [exact Hab|].
    apply IH; [exact Hs|]. intros _. apply Hl. discriminate.
Qed.

(** What holds of every state of the queue, [enq] being the operations
    enqueued so far, in order. *)
Record Good (enq : list nat) s : Prop := {
  good_order : (startedOps s ++ pendingStart s ++ _queue s)%list = enq;
  good_alt : oneAtATime (observed s);
  good_running :
    runningAfter None (observed s)
    = match phase s with Running op => Some op | _ => None end;
  good_spaced : spaced _minInterval (startTimes s);
  good_last : startTimes s <> [] -> List.last (startTimes s) 0 = _lastQueryTime s;
  good_until : forall op u, phase s = Waiting op u -> u = _lastQueryTime s + _minInterval;
  good_flag : _processing s = true <-> phase s <> Idle;
  good_idle : phase s = Idle -> _queue s = []
}.

Lemma init_Good : Good [] (@init R E).
Proof.
  constructor; cbn; try reflexivity; try exact I; try discriminate.
  split; [discriminate | intros H; contradiction].
Qed.

(** The pending operation [op] is started at [now], late enough. *)
Lemma Good_start (enq : list nat) s op now :
  (startedOps s ++ [op] ++ _queue s)%list = enq ->
  oneAtATime (observed s) ->
  runningAfter None (observed s) = None ->
  spaced _minInterval (startTimes s) ->
  (startTimes s <> [] -> List.last (startTimes s) 0 = _lastQueryTime s) ->
  (startTimes s <> [] -> _minInterval <= now - _lastQueryTime s) ->
  _processing s = true ->
  Good enq (start op now s).
Proof.
  intros Ho Ha Hr Hs Hl Hgap Hp.
  destruct (alternates_started (observed s) None op now Ha Hr) as [Ha' Hr'].
  unfold start. constructor; cbn.
  - unfold startedOps, pendingStart in *. cbn. rewrite flat_map_app. cbn.
    rewrite <- app_assoc. exact Ho.
  - exact Ha'.
  - exact Hr'.
  - unfold startTimes. cbn. rewrite flat_map_app. cbn.
    apply spaced_snoc; [exact Hs|]. intros Hne.
    fold (startTimes s) in *. rewrite (Hl Hne). apply Hgap. exact Hne.
  - intros _. unfold startTimes. cbn. rewrite flat_map_app. cbn.
    apply List.last_last.
  - intros op' u H. discriminate.
  - split; [discriminate | intros _; exact Hp].
  - discriminate.
Qed.

(** The loop is entered at its test while nothing runs. *)
Lemma Good_loop (enq : list nat) s now :
  (startedOps s ++ _queue s)%list = enq ->
  oneAtATime (observed s) ->
  runningAfter None (observed s) = None ->
  spaced _minInterval (startTimes s) ->
  (startTimes s <> [] -> List.last (startTimes s) 0 = _lastQueryTime s) ->
  _processing s = true ->
  Good enq (loop now s).
Proof.
  intros Ho Ha Hr Hs Hl Hp. unfold loop.
  destruct (_queue s) as [|op rest] eqn:Hq.
  - constructor; cbn;
      [ unfold startedOps, pendingStart in *; cbn; exact Ho
      | exact Ha | exact Hr | exact Hs | exact Hl
      | intros op u H; discriminate
      | split; [discriminate | intros H; contradiction]
      | reflexivity ].
  - cbn. destruct (Z.ltb_spec (now - _lastQueryTime s) _minInterval) as [Hlt|Hge].
    + constructor; cbn;
        [ unfold startedOps, pendingStart in *; cbn; exact Ho
        | exact Ha | exact Hr | exact Hs | exact Hl
        | intros op' u [= _ <-]; lia
        | split; [discriminate | intros _; exact Hp]
        | discriminate ].
    + apply Good_start; cbn; [exact Ho | exact Ha | exact Hr | exact Hs | exact Hl | | exact Hp].
      intros _. exact Hge.
Qed.

Lemma step_Good (enq : list nat) s ev :
  Good enq s -> timely s ev -> Good (enq ++ enqueuedOps [ev]) (step s ev).
Proof.
  intros [Ho Ha Hr Hs Hl Hu Hf Hi] Ht.
  destruct ev as [op now | now | o now]; cbn [step enqueuedOps flat_map].
  - rewrite app_nil_r. unfold enqueue, _processQueue. cbn.
    rewrite length_app. cbn.
    replace (length (_queue s) + 1 =? 0)%nat with false
      by (symmetry; apply Nat.eqb_neq; lia).
    rewrite orb_false_r. destruct (_processing s) eqn:Hp.
    + constructor; cbn;
        [ unfold startedOps, pendingStart in *; cbn; rewrite <- Ho;
          rewrite <- !app_assoc; reflexivity
        | exact Ha | exact Hr | exact Hs | exact Hl | exact Hu
        | split; [intros _; apply Hf; reflexivity | reflexivity]
        | intros H; destruct (proj1 Hf eq_refl H) ].
    + assert (Hidle : phase s = Idle).
      { destruct (phase s) eqn:Hph; [reflexivity | |];
          exfalso; assert (Hx : false = true) by (apply Hf; discriminate);
          discriminate Hx. }
      specialize (Hi Hidle). rewrite Hidle in Hr.
      apply Good_loop; cbn; [ | exact Ha | exact Hr | exact Hs | exact Hl | reflexivity].
      unfold startedOps, pendingStart in *. cbn. rewrite <- Ho, Hidle, Hi. cbn.
      rewrite app_nil_r. reflexivity.
  - rewrite app_nil_r. unfold timerFired. cbn in Ht.
    destruct (phase s) as [|op u|op] eqn:Hph;
      try (constructor; rewrite ?Hph; assumption).
    specialize (Hu op u eq_refl). subst u.
    apply Good_start; try assumption.
    + unfold pendingStart in Ho. rewrite Hph in Ho. exact Ho.
    + intros _. lia.
    + apply Hf. discriminate.
  - rewrite app_nil_r. unfold opSettled.
    destruct (phase s) as [|op u|op] eqn:Hph;
      try (constructor; rewrite ?Hph; assumption).
    destruct (alternates_settled (observed s) None op o Ha Hr) as [Ha' Hr'].
    apply Good_loop; cbn; try assumption.
    + unfold startedOps, pendingStart in *. cbn. rewrite Hph in Ho. cbn in Ho.
      rewrite flat_map_app. cbn. rewrite app_nil_r. exact Ho.
    + unfold startTimes in *. cbn. rewrite flat_map_app. cbn. rewrite app_nil_r. exact Hs.
    + unfold startTimes in *. cbn. rewrite flat_map_app. cbn. rewrite app_nil_r. exact Hl.
    + apply Hf. discriminate.
Qed.

Lemma enqueuedOps_cons (ev : Event R E) (evs : list (Event R E)) :
  enqueuedOps (ev :: evs) = (enqueuedOps [ev] ++ enqueuedOps evs)%list.
Proof. unfold enqueuedOps. cbn. rewrite app_nil_r. reflexivity. Qed.

Lemma run_Good (evs : list (Event R E)) :
  forall enq s, Good enq s -> timelyRun s evs -> Good (enq ++ enqueuedOps evs) (run s evs).
Proof.
  induction evs as [|ev evs IH]; intros enq s HG Ht; cbn [run fold_left].
  - cbn. rewrite app_nil_r. exact HG.
  - destruct Ht as [Hev Hrest]. rewrite enqueuedOps_cons, app_assoc.
    apply IH; [|exact Hrest]. apply step_Good; assumption.
Qed.

(** *** Draining the queue *)

Definition measure s : nat :=
  (2 * length (_queue s)
   + match phase s with Idle => 0 | Waiting _ _ => 2 | Running _ => 1 end)%nat.

Lemma settledOps_snoc_started s obs op t :
  flat_map (fun o : Observed R E => match o with Settled op r => [(op, r)] | _ => [] end)
           (obs ++ [Started op t])
  = flat_map (fun o : Observed R E => match o with Settled op r => [(op, r)] | _ => [] end) obs.
Proof. rewrite flat_map_app. cbn. apply app_nil_r. Qed.

(** The loop takes the head of the queue and nothing else. *)
Lemma loop_takes_head s now :
  (runningOp (loop now s) ++ pendingStart (loop now s) ++ _queue (loop now s))%list
  = _queue s
  /\ settledOps (loop now s) = settledOps s
  /\ (measure (loop now s) <= 2 * length (_queue s))%nat.
Proof.
  unfold loop, measure, runningOp, pendingStart, settledOps.
  destruct (_queue s) as [|op rest]; cbn; [auto|].
  destruct (now - _lastQueryTime s <? _minInterval); cbn.
  - split; [reflexivity|]. split; [reflexivity | lia].
  - split; [reflexivity|]. split; [apply (settledOps_snoc_started s) | lia].
Qed.

Lemma drive_drains (outcomeOf : nat -> Outcome R E) (duration : nat -> Z) (fuel : nat) :
  forall enq s,
    Good enq s -> (measure s <= fuel)%nat ->
    Good enq (drive fuel outcomeOf duration s)
    /\ phase (drive fuel outcomeOf duration s) = Idle
    /\ settledOps (drive fuel outcomeOf duration s)
       = (settledOps s
          ++ List.map (fun op => (op, outcomeOf op))
               (runningOp s ++ pendingStart s ++ _queue s))%list.
Proof.
  induction fuel as [|fuel IH]; intros enq s HG Hm.
  - cbn. unfold measure in Hm.
    destruct (phase s) eqn:Hph; try lia.
    pose proof (good_idle _ _ HG Hph) as Hq.
    unfold runningOp, pendingStart. rewrite Hph, Hq. cbn. rewrite app_nil_r. auto.
  - cbn [drive]. destruct (phase s) as [|op u|op] eqn:Hph.
    + pose proof (good_idle _ _ HG Hph) as Hq.
      unfold runningOp, pendingStart. rewrite Hph, Hq. cbn. rewrite app_nil_r. auto.
    + assert (HG1 : Good enq (timerFired u s)).
      { replace enq with (enq ++ enqueuedOps [@ETimer R E u])%list by apply app_nil_r.
        apply (step_Good enq s (ETimer u) HG). unfold timely. rewrite Hph. lia. }
      assert (Hshape : timerFired u s = start op u s)
        by (unfold timerFired; rewrite Hph; reflexivity).
      rewrite Hshape in *.
      destruct (IH enq (start op u s) HG1) as (H1 & H2 & H3).
      { unfold measure in *. rewrite Hph in Hm. cbn. lia. }
      split; [exact H1|]. split; [exact H2|].
      rewrite H3. unfold runningOp, pendingStart, settledOps. rewrite Hph. cbn.
      rewrite (settledOps_snoc_started s). reflexivity.
    + set (now := _lastQueryTime s + duration op).
      assert (HG1 : Good enq (opSettled (outcomeOf op) now s)).
      { replace enq with (enq ++ enqueuedOps [ESettled (outcomeOf op) now])%list
          by apply app_nil_r.
        apply (step_Good enq s (ESettled (outcomeOf op) now) HG). exact I. }
      assert (Hshape : opSettled (outcomeOf op) now s
                       = loop now (mkState R E (_queue s) (_processing s) (_lastQueryTime s)
                                     (phase s) (observed s ++ [Settled op (outcomeOf op)])))
        by (unfold opSettled; rewrite Hph; reflexivity).
      rewrite Hshape in *.
      destruct (loop_takes_head
                  (mkState R E (_queue s) (_processing s) (_lastQueryTime s)
                     (phase s) (observed s ++ [Settled op (outcomeOf op)])) now)
        as (L1 & L2 & L3).
      set (s1 := loop now _) in *.
      destruct (IH enq s1 HG1) as (H1 & H2 & H3).
      { unfold measure in *. rewrite Hph in Hm. cbn [_queue] in L3. lia. }
      split; [exact H1|]. split; [exact H2|].
      rewrite H3, L1, L2. unfold settledOps, runningOp, pendingStart. cbn.
      rewrite Hph. rewrite flat_map_app. cbn. rewrite <- app_assoc. reflexivity.
Qed.

(** C5: whatever is enqueued, and whenever, as long as a timer does not
    fire before the time it was set for: the operations are started in the
    order they were enqueued (those started, then the one waiting for its
    slot, then the queue, are the operations enqueued, in order); one
    operation runs at a time; two consecutive starts are at least 300 ms
    apart.  An operation that throws rejects its own handle and the loop
    goes on with the rest of the queue; driven to the end, every queued
    operation is started and each handle is settled with the outcome of its
    own operation. *)
Theorem queue_fifo_spacing (evs : list (Event R E)) :
  timelyRun init evs ->
  ((startedOps (run init evs) ++ pendingStart (run init evs) ++ _queue (run init evs))%list
   = enqueuedOps evs
   /\ oneAtATime (observed (run init evs))
   /\ spaced _minInterval (startTimes (run init evs)))
  /\ (forall op e now,
        phase (run init evs) = Running op ->
        settledOps (opSettled (Threw e) now (run init evs))
        = (settledOps (run init evs) ++ [(op, Threw e)])%list
        /\ (runningOp (opSettled (Threw e) now (run init evs))
            ++ pendingStart (opSettled (Threw e) now (run init evs))
            ++ _queue (opSettled (Threw e) now (run init evs)))%list
           = _queue (run init evs))
  /\ (forall outcomeOf duration fuel,
        (2 * length (_queue (run init evs)) + 2 <= fuel)%nat ->
        phase (drive fuel outcomeOf duration (run init evs)) = Idle
        /\ startedOps (drive fuel outcomeOf duration (run init evs)) = enqueuedOps evs
        /\ settledOps (drive fuel outcomeOf duration (run init evs))
           = (settledOps (run init evs)
              ++ List.map (fun op => (op, outcomeOf op))
                   (runningOp (run init evs) ++ pendingStart (run init evs)
                    ++ _queue (run init evs)))%list
        /\ oneAtATime (observed (drive fuel outcomeOf duration (run init evs)))
        /\ spaced _minInterval (startTimes (drive fuel outcomeOf duration (run init evs)))).
Proof.
  intros Ht. pose proof (run_Good evs [] init init_Good Ht) as HG. cbn [app] in HG.
  set (s := run init evs) in *.
  split; [|split].
  - split; [exact (good_order _ _ HG)|].
    split; [exact (good_alt _ _ HG) | exact (good_spaced _ _ HG)].
  - intros op e now Hph. unfold opSettled. rewrite Hph.
    destruct (loop_takes_head
                (mkState R E (_queue s) (_processing s) (_lastQueryTime s)
                   (phase s) (observed s ++ [Settled op (Threw e)])) now)
      as (L1 & L2 & _).
    rewrite Hph in L1, L2. split; [|exact L1].
    rewrite L2. unfold settledOps. cbn. rewrite flat_map_app. reflexivity.
  - intros outcomeOf duration fuel Hfuel.
    destruct (drive_drains outcomeOf duration fuel _ s HG) as (H1 & H2 & H3).
    { unfold measure. destruct (phase s); lia. }
    split; [exact H2|]. split.
    + pose proof (good_order _ _ H1) as Ho.
      pose proof (good_idle _ _ H1 H2) as Hq.
      unfold pendingStart in Ho. rewrite H2, Hq in Ho. cbn in Ho.
      rewrite app_nil_r in Ho. exact Ho.
    + split; [exact H3|].
      split; [exact (good_alt _ _ H1) | exact (good_spaced _ _ H1)].
Qed.

End Facts.

(** Three operations enqueued at once at time 1000, the first throwing:
    they are started in order, 300 ms apart, and the handles of the second
    and the third are resolved. *)
Lemma queue_fifo_spacing_witness :
  timelyRun (@init string string) [EEnqueue 1%nat 1000; EEnqueue 2%nat 1000; EEnqueue 3%nat 1001]
  /\ observed
       (drive 8 (fun op => if (op =? 1)%nat then Threw "timeout" else Returned "in3")
          (fun _ => 40)
          (run (@init string string)
             [EEnqueue 1%nat 1000; EEnqueue 2%nat 1000; EEnqueue 3%nat 1001]))
     = [Started 1%nat 1000; Settled 1%nat (Threw "timeout");
        Started 2%nat 1300; Settled 2%nat (Returned "in3");
        Started 3%nat 1600; Settled 3%nat (Returned "in3")]
  /\ startedOps
       (drive 8 (fun op => if (op =? 1)%nat then Threw "timeout" else Returned "in3")
          (fun _ => 40)
          (run (@init string string)
             [EEnqueue 1%nat 1000; EEnqueue 2%nat 1000; EEnqueue 3%nat 1001]))
     = [1; 2; 3]%nat.
Proof.
  assert (Ht : timelyRun (@init string string)
                 [EEnqueue 1%nat 1000; EEnqueue 2%nat 1000; EEnqueue 3%nat 1001])
    by (cbn; tauto).
  split; [exact Ht|]. split; [vm_compute; reflexivity|].
  exact (proj1 (proj2 (proj2 (proj2 (queue_fifo_spacing string string _ Ht))
                         (fun op => if (op =? 1)%nat then Threw "timeout" else Returned "in3")
                         (fun _ => 40) 8%nat ltac:(vm_compute; lia)))).
Defined.

End QueueProofs.

(** ** The resolver: what a reply yields, and the source a selection gives *)

Module ResolverMore.
Import Js Card Scenario ResolverProofs.

(** *** The options of the input selector *)

(** X1: the input selector is empty exactly when the matrix declares no
    input option and has no enabled input slot.  When options are declared,
    the selector shows declared options only, at least one of them,
    whatever the output filter keeps; when none is declared, it shows one
    generated option per enabled slot, in slot order. *)
Theorem input_selector_empty_only_without_inputs (port : JsVal) (m : MatrixDevice) :
  (inputCommands port m = []
   <-> List.filter is_input_option (commands m) = []
       /\ List.filter slotEnabled (matrix_inputs m) = [])
  /\ (List.filter is_input_option (commands m) <> [] ->
      incl (inputCommands port m) (List.filter is_input_option (commands m)))
  /\ (List.filter is_input_option (commands m) = [] ->
      inputCommands port m
      = List.map generatedCommand (List.filter slotEnabled (matrix_inputs m))).
Proof.
  split; [|split].
  - destruct (List.filter is_input_option (commands m)) as [|c cs] eqn:Hd.
    + rewrite (inputCommands_generated port m Hd). split.
      * intros H. split; [reflexivity|].
        destruct (List.filter slotEnabled (matrix_inputs m)); [reflexivity | discriminate H].
      * intros [_ ->]. reflexivity.
    + split.
      * intros H. exfalso.
        assert (Hne : List.filter is_input_option (commands m) <> []) by congruence.
        exact (proj1 (inputCommands_declared port m Hne) H).
      * intros [H _]. discriminate H.
  - intros Hne. exact (proj2 (inputCommands_declared port m Hne)).
  - apply inputCommands_generated.
Qed.

Lemma input_selector_empty_only_without_inputs_witness :
  List.filter is_input_option (commands wideMatrix) <> []
  /\ incl (inputCommands (JNum 1) wideMatrix)
          (List.filter is_input_option (commands wideMatrix)).
Proof.
  assert (Hne : List.filter is_input_option (commands wideMatrix) <> [])
    by (intros H; vm_compute in H; discriminate H).
  split; [exact Hne|].
  exact (proj1 (proj2 (input_selector_empty_only_without_inputs (JNum 1) wideMatrix)) Hne).
Defined.

(** *** The text captured from a routing reply *)

(** A text made of digits only. *)
Fixpoint allDigits (s : string) : bool :=
  match s with
  | EmptyString => true
  | String c r => isDigit c && allDigits r
  end.

Lemma space_not_digit (c : ascii) : isSpace c = true -> isDigit c = false.
Proof.
  destruct c as [[] [] [] [] [] [] [] []]; vm_compute; congruence.
Qed.

Lemma hasDigit_trimStart (s : string) : hasDigit (trimStart s) = hasDigit s.
Proof.
  induction s as [|c r IH]; cbn; [reflexivity|].
  destruct (isSpace c) eqn:E; [|reflexivity].
  rewrite (space_not_digit c E). exact IH.
Qed.

Lemma hasDigit_trimEnd (s : string) : hasDigit (trimEnd s) = hasDigit s.
Proof.
  induction s as [|c r IH]; cbn; [reflexivity|].
  destruct (trimEnd r) as [|c' r'] eqn:Hr.
  - rewrite <- IH. cbn. destruct (isSpace c) eqn:E; cbn.
    + rewrite (space_not_digit c E). reflexivity.
    + reflexivity.
  - cbn [hasDigit]. rewrite <- IH. reflexivity.
Qed.

Lemma hasDigit_trim (s : string) : hasDigit (trim s) = hasDigit s.
Proof. unfold trim. rewrite hasDigit_trimEnd. apply hasDigit_trimStart. Qed.

Lemma takeDigits_allDigits (s : string) : allDigits (takeDigits s) = true.
Proof.
  induction s as [|c r IH]; cbn; [reflexivity|].
  destruct (isDigit c) eqn:E; cbn; [rewrite E; exact IH | reflexivity].
Qed.

Lemma takeDigits_prefix (s : string) : String.prefix (takeDigits s) s = true.
Proof.
  induction s as [|c r IH]; cbn; [reflexivity|].
  destruct (isDigit c); cbn; [|reflexivity].
  destruct (Ascii.ascii_dec c c); [exact IH | congruence].
Qed.

(** What [\d+] captures: digits, at least one, found where it is tried. *)
Definition digitRunOf (s d : string) : Prop :=
  d <> ""%string /\ allDigits d = true /\ includes d s = true.

Lemma includes_prefix (d s : string) : String.prefix d s = true -> includes d s = true.
Proof. intros H. destruct s; cbn in *; rewrite H; reflexivity. Qed.

Lemma includes_tail (d : string) (c : ascii) (r : string) :
  includes d r = true -> includes d (String c r) = true.
Proof. intros H. cbn [includes]. rewrite H. apply orb_true_r. Qed.

Lemma digits1_run (s d : string) : digits1 s = Some d -> digitRunOf s d.
Proof.
  unfold digits1. pose proof (takeDigits_allDigits s) as Ha.
  pose proof (takeDigits_prefix s) as Hp.
  destruct (takeDigits s) as [|c r] eqn:E; [discriminate|].
  intros [= <-]. split; [discriminate|]. split; [exact Ha|].
  apply includes_prefix, Hp.
Qed.

Lemma includes_trimStart (d s : string) :
  includes d (trimStart s) = true -> includes d s = true.
Proof.
  induction s as [|c r IH]; cbn [trimStart]; [trivial|].
  destruct (isSpace c); [|trivial]. intros H. apply includes_tail, IH, H.
Qed.

Lemma prefix_trimEnd (d s : string) :
  String.prefix d (trimEnd s) = true -> String.prefix d s = true.
Proof.
  revert d. induction s as [|c r IH]; intros d; cbn [trimEnd]; [trivial|].
  destruct d as [|x d']; [reflexivity|].
  destruct (trimEnd r) as [|c' r'] eqn:Hr.
  - destruct (isSpace c); cbn; [discriminate|].
    destruct (Ascii.ascii_dec x c); [|discriminate].
    apply IH.
  - cbn [String.prefix]. destruct (Ascii.ascii_dec x c); [|discriminate].
    apply IH.
Qed.

Lemma includes_trimEnd (d s : string) :
  includes d (trimEnd s) = true -> includes d s = true.
Proof.
  induction s as [|c r IH]; [trivial|].
  intros H.
  assert (Hcases : String.prefix d (trimEnd (String c r)) = true
                   \/ includes d (trimEnd r) = true).
  { cbn [trimEnd] in *. destruct (trimEnd r) as [|c' r'] eqn:Hr.
    - destruct (isSpace c).
      + left. destruct d; cbn in *; [reflexivity | discriminate].
      + cbn [includes] in H. apply orb_true_iff in H as [H|H]; [left; exact H|].
        right. exact H.
    - cbn [includes] in H. apply orb_true_iff in H as [H|H]; [left; exact H|].
      right. exact H. }
  destruct Hcases as [Hp|Hi].
  - apply includes_prefix, prefix_trimEnd, Hp.
  - apply includes_tail, IH, Hi.
Qed.

Lemma ciLiteral_includes (lit s r d : string) :
  ciLiteral lit s = Some r -> includes d r = true -> includes d s = true.
Proof.
  revert s. induction lit as [|l lit IH]; intros s; cbn.
  - intros [= ->]. trivial.
  - destruct s as [|c s']; [discriminate|].
    destruct (ciChar l c); [|discriminate].
    intros H Hr. apply includes_tail. exact (IH _ H Hr).
Qed.

(** A pattern whose capture is a run of digits of the text it is tried on. *)
Definition capturesRun (at_ : string -> option string) : Prop :=
  forall s d, at_ s = Some d -> digitRunOf s d.

Lemma search_run (at_ : string -> option string) :
  capturesRun at_ -> capturesRun (search at_).
Proof.
  intros Hat s. induction s as [|c r IH]; intros d; cbn.
  - destruct (at_ "") eqn:H0; [|discriminate]. intros [= <-]. exact (Hat _ _ H0).
  - destruct (at_ (String c r)) eqn:H0.
    + intros [= <-]. exact (Hat _ _ H0).
    + intros H. destruct (IH _ H) as (A & B & C).
      split; [exact A|]. split; [exact B | apply includes_tail, C].
Qed.

Lemma atIn_run : capturesRun atIn.
Proof.
  intros s d. unfold atIn. destruct (ciLiteral "in" s) as [r|] eqn:Hl; [|discriminate].
  intros H. destruct (digits1_run _ _ H) as (A & B & C).
  split; [exact A|]. split; [exact B | exact (ciLiteral_includes _ _ _ _ Hl C)].
Qed.

Lemma atInput_run : capturesRun atInput.
Proof.
  intros s d. unfold atInput.
  destruct (ciLiteral "input" s) as [r|] eqn:Hl; [|discriminate].
  intros H. destruct (digits1_run _ _ H) as (A & B & C).
  split; [exact A|]. split; [exact B|].
  exact (ciLiteral_includes _ _ _ _ Hl (includes_trimStart _ _ C)).
Qed.

Lemma atDigitsEnd_run : capturesRun atDigitsEnd.
Proof.
  intros s d. unfold atDigitsEnd. destruct (digits1 s) as [d'|] eqn:Hd; [|discriminate].
  destruct (trimStart (dropDigits s)); [|discriminate].
  intros [= <-]. exact (digits1_run _ _ Hd).
Qed.

Lemma atDigits_run : capturesRun atDigits.
Proof. intros s d. apply digits1_run. Qed.

Lemma search_atDigits_finds (s : string) :
  hasDigit s = true -> exists d, search atDigits s = Some d.
Proof.
  induction s as [|c r IH]; cbn [hasDigit]; [discriminate|].
  intros H. cbn [search]. unfold atDigits at 1, digits1. cbn [takeDigits].
  destruct (isDigit c) eqn:E.
  - eauto.
  - cbn in H. destruct (IH H) as [d Hd]. exists d. exact Hd.
Qed.

(** X2: a routing reply that holds a digit always yields an input number,
    and the number a reply yields is a non-empty run of digits that occurs
    in the reply: nothing else of the reply is ever compared with the
    inputs. *)
Theorem reply_yields_a_digit_run_of_it (text : string) :
  (hasDigit text = true -> exists d, parseInputNumber text = Some d)
  /\ (forall d, parseInputNumber text = Some d ->
                d <> ""%string /\ allDigits d = true /\ includes d text = true).
Proof.
  split.
  - intros H. rewrite <- hasDigit_trim in H.
    destruct (search_atDigits_finds _ H) as [d Hd].
    unfold parseInputNumber, orMatch.
    destruct (search atIn (trim text)); [eauto|].
    destruct (search atInput (trim text)); [eauto|].
    destruct (search atDigitsEnd (trim text)); eauto.
  - intros d H.
    assert (Hrun : digitRunOf (trim text) d).
    { unfold parseInputNumber, orMatch in H.
      destruct (search atIn (trim text)) eqn:H1.
      { injection H as <-. exact (search_run _ atIn_run _ _ H1). }
      destruct (search atInput (trim text)) eqn:H2.
      { injection H as <-. exact (search_run _ atInput_run _ _ H2). }
      destruct (search atDigitsEnd (trim text)) eqn:H3.
      { injection H as <-. exact (search_run _ atDigitsEnd_run _ _ H3). }
      exact (search_run _ atDigits_run _ _ H). }
    destruct Hrun as (A & B & C). split; [exact A|]. split; [exact B|].
    apply includes_trimStart, includes_trimEnd, C.
Qed.

Lemma reply_yields_a_digit_run_of_it_witness :
  hasDigit "OK: routed 4 (hdmi)" = true
  /\ exists d, parseInputNumber "OK: routed 4 (hdmi)" = Some d.
Proof.
  split; [reflexivity|].
  exact (proj1 (reply_yields_a_digit_run_of_it "OK: routed 4 (hdmi)") eq_refl).
Defined.

(** *** The source a selection gives *)

Lemma loadHACommands_source (env : Env) (h : HADevice) (s : Card) :
  _sourceDevice (loadHACommands env h s) = _sourceDevice s
  /\ _sourceIsHADevice (loadHACommands env h s) = _sourceIsHADevice s
  /\ _sourceMediaPlayerEntity (loadHACommands env h s) = _sourceMediaPlayerEntity s.
Proof. unfold loadHACommands. destruct (fetchHACommands env _); auto. Qed.

Lemma mediaPlayerEntity_source (env : Env) (h : HADevice) (s : Card) :
  _sourceDevice (mediaPlayerEntity env h s) = _sourceDevice s
  /\ _sourceIsHADevice (mediaPlayerEntity env h s) = _sourceIsHADevice s
  /\ _sourceCommands (mediaPlayerEntity env h s) = _sourceCommands s.
Proof.
  unfold mediaPlayerEntity.
  repeat (match goal with
          | |- context [match ?x with _ => _ end] => destruct x; cbn
          end); auto.
Qed.

Lemma loadProfileCommands_source (env : Env) (d : Device) (s : Card) :
  _sourceDevice (loadProfileCommands env d s) = _sourceDevice s
  /\ _sourceIsHADevice (loadProfileCommands env d s) = _sourceIsHADevice s
  /\ _sourceMediaPlayerEntity (loadProfileCommands env d s) = _sourceMediaPlayerEntity s.
Proof.
  unfold loadProfileCommands.
  repeat (match goal with
          | |- context [match ?x with _ => _ end] => destruct x; cbn
          end); auto.
Qed.

(** The device a linked id resolves to: a platform-native device first,
    an IR device otherwise (lines 471-521). *)
Definition linkedSource (s : Card) (linked : string) : option SourceDevice :=
  match List.find (fun d => ha_device_id d =? linked) (_haDevices s) with
  | Some haDevice => Some (SourceHA haDevice)
  | None => option_map SourceIR (List.find (fun d => device_id d =? linked) (_allDevices s))
  end.

(** The input slot the selection stands for (lines 460-468). *)
Definition selectedSlot (s : Card) : option MatrixInput :=
  match _matrixDevice s, nonEmpty (_selectedMatrixInput s) with
  | Some m, Some selected =>
      match List.find (fun c => optStrEq (command_id c) (Some selected))
                      (_matrixInputCommands s) with
      | Some inputCmd =>
          List.find (fun i => toString (index i) =? toString (input_value inputCmd))
                    (matrix_inputs m)
      | None => None
      end
  | _, _ => None
  end.

Lemma loadSourceDevice_source (env : Env) (s : Card) :
  _sourceDevice (_loadSourceDevice env s)
  = match selectedSlot s with
    | Some matrixInput =>
        match nonEmpty (input_device_id matrixInput) with
        | Some linked => linkedSource s linked
        | None => None
        end
    | None => None
    end.
Proof.
  unfold _loadSourceDevice, selectedSlot, linkedSource. cbn.
  destruct (_matrixDevice s) as [m|]; [|reflexivity].
  destruct (nonEmpty (_selectedMatrixInput s)) as [sel|]; [|reflexivity].
  destruct (List.find _ (_matrixInputCommands s)) as [c|]; [|reflexivity].
  destruct (List.find _ (matrix_inputs m)) as [i|]; [|reflexivity].
  destruct (nonEmpty (input_device_id i)) as [linked|]; [|reflexivity].
  destruct (List.find _ (_haDevices s)) as [h|].
  - rewrite (proj1 (loadHACommands_source _ _ _)).
    rewrite (proj1 (mediaPlayerEntity_source _ _ _)). reflexivity.
  - destruct (List.find _ (_allDevices s)) as [d|]; [|reflexivity].
    rewrite (proj1 (loadProfileCommands_source _ _ _)). reflexivity.
Qed.

Lemma loadSourceDevice_isHA (env : Env) (s : Card) :
  _sourceIsHADevice (_loadSourceDevice env s)
  = match _sourceDevice (_loadSourceDevice env s) with
    | Some (SourceHA _) => true
    | _ => false
    end.
Proof.
  unfold _loadSourceDevice. cbn.
  destruct (_matrixDevice s) as [m|]; [|reflexivity].
  destruct (nonEmpty (_selectedMatrixInput s)) as [sel|]; [|reflexivity].
  destruct (List.find _ (_matrixInputCommands s)) as [c|]; [|reflexivity].
  destruct (List.find _ (matrix_inputs m)) as [i|]; [|reflexivity].
  destruct (nonEmpty (input_device_id i)) as [linked|]; [|reflexivity].
  destruct (List.find _ (_haDevices s)) as [h|].
  - rewrite (proj1 (loadHACommands_source _ _ _)).
    rewrite (proj1 (proj2 (loadHACommands_source _ _ _))).
    rewrite (proj1 (mediaPlayerEntity_source _ _ _)).
    rewrite (proj1 (proj2 (mediaPlayerEntity_source _ _ _))). reflexivity.
  - destruct (List.find _ (_allDevices s)) as [d|]; [|reflexivity].
    rewrite (proj1 (loadProfileCommands_source _ _ _)).
    rewrite (proj1 (proj2 (loadProfileCommands_source _ _ _))). reflexivity.
Qed.

Lemma loadSourceDevice_send_state (env : Env) (s : Card) :
  calls (_loadSourceDevice env s) = calls s
  /\ clock (_loadSourceDevice env s) = clock s
  /\ _lastSendTime (_loadSourceDevice env s) = _lastSendTime s
  /\ timers (_loadSourceDevice env s) = timers s
  /\ nextTimerId (_loadSourceDevice env s) = nextTimerId s
  /\ _lastSent (_loadSourceDevice env s) = _lastSent s
  /\ _device (_loadSourceDevice env s) = _device s
  /\ _matrixDevice (_loadSourceDevice env s) = _matrixDevice s
  /\ _matrixInputCommands (_loadSourceDevice env s) = _matrixInputCommands s.
Proof.
  repeat split;
    unfold _loadSourceDevice, loadHACommands, mediaPlayerEntity, loadProfileCommands;
    cbn;
    repeat (match goal with
            | |- context [match ?x with _ => _ end] => destruct x eqn:?; cbn
            end);
    first [reflexivity | congruence].
Qed.



(** *** Options generated from the input slots *)

Lemma route_input_eqb (a b : string) :
  ("route_input_" ++ a =? "route_input_" ++ b) = (a =? b).
Proof. reflexivity. Qed.

Lemma find_generated (l : list MatrixInput) (slot : MatrixInput) :
  In slot l -> slotEnabled slot = true ->
  exists slot',
    List.find (fun c => optStrEq (command_id c)
                          (Some ("route_input_" ++ toString (index slot))))
              (List.map generatedCommand (List.filter slotEnabled l))
    = Some (generatedCommand slot')
    /\ toString (index slot') = toString (index slot).
Proof.
  intros Hin Hen. induction l as [|x l IH]; [destruct Hin|].
  cbn [List.filter]. destruct (slotEnabled x) eqn:Hx.
  - cbn [List.map List.find generatedCommand command_id optStrEq].
    rewrite route_input_eqb.
    destruct (toString (index x) =? toString (index slot)) eqn:E.
    + exists x. split; [reflexivity | apply String.eqb_eq, E].
    + destruct Hin as [->|Hin]; [rewrite String.eqb_refl in E; discriminate|].
      exact (IH Hin).
  - destruct Hin as [->|Hin]; [congruence | exact (IH Hin)].
Qed.

(** X4: an option generated from an input slot leads back to that slot.
    On a matrix without declared input options, selecting the option
    generated from an enabled slot (the first slot to carry its index)
    resolves the device linked to that very slot: a platform-native device
    with the linked id if there is one, else the IR device with that id,
    and no source when the slot has no linked device. *)
Theorem generated_option_resolves_its_slot (env : Env) (s : Card) (d : Device)
    (mid : string) (m : MatrixDevice) (slot : MatrixInput) :
  _device s = Some d ->
  nonEmpty (matrix_device_id d) = Some mid ->
  List.filter is_input_option (commands m) = [] ->
  slotEnabled slot = true ->
  List.find (fun i => toString (index i) =? toString (index slot)) (matrix_inputs m)
  = Some slot ->
  In (generatedCommand slot) (_matrixInputCommands (_loadMatrixDevice (FetchOk m) s))
  /\ _sourceDevice
       (_loadSourceDevice env
          (set_selectedMatrixInput (command_id (generatedCommand slot))
             (_loadMatrixDevice (FetchOk m) s)))
     = match nonEmpty (input_device_id slot) with
       | Some linked => linkedSource s linked
       | None => None
       end.
Proof.
  intros Hdev Hmid Hgen Hen Hfind.
  pose proof (proj1 (List.find_some _ _ Hfind)) as Hin.
  assert (Hload : _loadMatrixDevice (FetchOk m) s
                  = set_matrixInputCommands
                      (List.map generatedCommand (List.filter slotEnabled (matrix_inputs m)))
                      (set_matrixDevice (Some m) s)).
  { unfold _loadMatrixDevice. rewrite Hdev, Hmid.
    rewrite (inputCommands_generated _ _ Hgen). reflexivity. }
  rewrite Hload. split.
  - cbn. apply in_map, filter_In. split; assumption.
  - rewrite loadSourceDevice_source. unfold selectedSlot, linkedSource.
    cbn [_matrixDevice _selectedMatrixInput _matrixInputCommands _haDevices _allDevices
         set_selectedMatrixInput set_matrixInputCommands set_matrixDevice
         generatedCommand command_id].
    change (nonEmpty (Some ("route_input_" ++ toString (index slot))))
      with (Some ("route_input_" ++ toString (index slot))).
    destruct (find_generated (matrix_inputs m) slot Hin Hen) as (slot' & Hf & Hidx).
    rewrite Hf. cbn [generatedCommand input_value toString]. rewrite Hidx, Hfind.
    reflexivity.
Qed.

Lemma generated_option_resolves_its_slot_witness :
  _sourceDevice
    (_loadSourceDevice online
       (set_selectedMatrixInput (command_id (generatedCommand (slot 2 None (Some "cable") (Some true))))
          (_loadMatrixDevice (FetchOk slotMatrix) (cardAt 1000))))
  = Some (SourceIR cable).
Proof.
  exact (proj2 (generated_option_resolves_its_slot online (cardAt 1000) tv "orei" slotMatrix
                  (slot 2 None (Some "cable") (Some true))
                  eq_refl eq_refl eq_refl eq_refl eq_refl)).
Defined.

End ResolverMore.

(** ** The dispatcher: debounce, marker lifetime, release and groups *)

Module DispatcherMore.
Import Js Card Scenario ResolverProofs ResolverMore DispatcherProofs.
Local Open Scope Z_scope.

(** *** The debounce window is shared by the senders *)

(** The three functions that send one command to a device. *)
Inductive Sender : Type :=
| ViaSendCommand (ok : bool)
| ViaSendCommandSilent
| ViaSendCommandToDevice (ok : bool) (deviceId : string).

Definition sendVia (v : Sender) (command : string) (s : Card) : Card :=
  match v with
  | ViaSendCommand ok => _sendCommand ok command s
  | ViaSendCommandSilent => _sendCommandSilent command s
  | ViaSendCommandToDevice ok deviceId => _sendCommandToDevice ok command deviceId s
  end.

(** A sender that has a device to send to. *)
Definition hasTarget (v : Sender) : Prop :=
  match v with
  | ViaSendCommandToDevice _ deviceId => deviceId <> ""%string
  | _ => True
  end.

Lemma truthy_nonempty (x : string) : x <> ""%string -> truthy (JStr x) = true.
Proof. destruct x; [congruence | reflexivity]. Qed.

Lemma filter_dispatching_snoc (l : list Timer) (t : Timer) :
  dispatching t = false ->
  List.filter dispatching (l ++ [t]) = List.filter dispatching l.
Proof.
  intros H. rewrite filter_dispatching_app. cbn. rewrite H. apply app_nil_r.
Qed.

(** What a send that is not debounced leaves. *)
Lemma sendVia_accepted (v : Sender) (command : string) (s : Card) (dev : Device) :
  _device s = Some dev -> debounced s = false -> noRepeatPending s -> hasTarget v ->
  _device (sendVia v command s) = Some dev
  /\ clock (sendVia v command s) = clock s
  /\ _lastSendTime (sendVia v command s) = Some (clock s)
  /\ noRepeatPending (sendVia v command s)
  /\ List.map call_arg (calls (sendVia v command s))
     = (List.map call_arg (calls s) ++ [command])%list.
Proof.
  intros Hdev Hdeb Hnone Hv. unfold noRepeatPending in *.
  destruct v as [ok | | ok deviceId]; cbn [sendVia hasTarget] in *.
  - unfold _sendCommand. rewrite Hdev, Hdeb. destruct ok; cbn.
    + rewrite filter_dispatching_snoc by reflexivity.
      rewrite List.map_app. auto.
    + rewrite List.map_app. auto.
  - unfold _sendCommandSilent. rewrite Hdev, Hdeb. cbn.
    rewrite List.map_app. auto.
  - unfold _sendCommandToDevice, _sendCommandToDevice_start.
    rewrite (truthy_nonempty _ Hv), Hdeb. cbn.
    unfold _sendCommandToDevice_resume. destruct ok; cbn.
    + rewrite filter_dispatching_snoc by reflexivity.
      rewrite List.map_app. auto.
    + rewrite List.map_app. auto.
Qed.

(** A debounced send does nothing at all. *)
Lemma sendVia_debounced (v : Sender) (command : string) (s : Card) :
  debounced s = true -> sendVia v command s = s.
Proof.
  intros Hdeb. destruct v as [ok | | ok deviceId]; cbn [sendVia].
  - unfold _sendCommand. rewrite Hdeb. destruct (_device s); reflexivity.
  - unfold _sendCommandSilent. rewrite Hdeb. destruct (_device s); reflexivity.
  - unfold _sendCommandToDevice, _sendCommandToDevice_start. rewrite Hdeb.
    destruct (negb (truthy (JStr deviceId))); reflexivity.
Qed.

(** X5: the 150 ms debounce window is shared by [_sendCommand],
    [_sendCommandSilent] and [_sendCommandToDevice], and it is opened by a
    call that failed as well as by one that succeeded.  After one of them
    has issued a call (no hold being in progress, the clock not reading 0),
    any of them called less than 150 ms later does nothing at all; called
    150 ms later or more, it issues its call. *)
Theorem debounce_window_shared_by_senders (s : Card) (dev : Device)
    (v w : Sender) (command command' : string) (n : nat) :
  _device s = Some dev ->
  debounced s = false ->
  noRepeatPending s ->
  clock s <> 0 ->
  hasTarget v ->
  ((n < 150)%nat ->
   sendVia w command' (advance n (sendVia v command s))
   = advance n (sendVia v command s))
  /\ ((150 <= n)%nat -> hasTarget w ->
      List.map call_arg (calls (sendVia w command' (advance n (sendVia v command s))))
      = (List.map call_arg (calls s) ++ [command; command'])%list).
Proof.
  intros Hdev Hdeb Hnone Hclock Hv.
  destruct (sendVia_accepted v command s dev Hdev Hdeb Hnone Hv)
    as (A1 & A2 & A3 & A4 & A5).
  set (s1 := sendVia v command s) in *.
  assert (HI : Inv dev [] (calls s1) (Some (clock s)) (clock s) s1).
  { constructor; try assumption; try reflexivity. intros t i _ _ []. }
  pose proof (advance_quiet dev (calls s1) (Some (clock s)) n (clock s) s1 HI)
    as [B1 B2 B3 B4 B5 _].
  set (s2 := advance n s1) in *.
  assert (Hd2 : debounced s2 = (Z.of_nat n <? 150)).
  { unfold debounced. rewrite B4, B2.
    replace (clock s =? 0) with false by (symmetry; apply Z.eqb_neq; exact Hclock).
    cbn. f_equal. lia. }
  split.
  - intros Hn. apply sendVia_debounced. rewrite Hd2. apply Z.ltb_lt. lia.
  - intros Hn Hw.
    assert (Hd2' : debounced s2 = false) by (rewrite Hd2; apply Z.ltb_ge; lia).
    destruct (sendVia_accepted w command' s2 dev B1 Hd2' B5 Hw) as (_ & _ & _ & _ & C5).
    rewrite C5, B3, A5, <- app_assoc. reflexivity.
Qed.

Lemma debounce_window_shared_by_senders_witness :
  sendVia (ViaSendCommandToDevice true "cable") "guide"
    (advance 149 (sendVia (ViaSendCommand false) "power" (cardAt 1000)))
  = advance 149 (sendVia (ViaSendCommand false) "power" (cardAt 1000)).
Proof.
  refine (proj1 (debounce_window_shared_by_senders (cardAt 1000) tv
                   (ViaSendCommand false) (ViaSendCommandToDevice true "cable")
                   "power" "guide" 149 _ _ _ _ _) _).
  - reflexivity.
  - reflexivity.
  - reflexivity.
  - cbn. lia.
  - exact I.
  - lia.
Defined.

(** *** How long the sent marker lasts *)

(** The timeout that clears the marker [marker] if it is still shown. *)
Definition markerTimer (id : positive) (dueAt : Z) (marker : string) : Timer :=
  {| timer_id := id; due := dueAt; period := None; callback := CbClearSentIf marker |}.

(** The callbacks that clear [_lastSent] when it is [marker]. *)
Definition clearsMarker (marker : string) (cb : Callback) : bool :=
  match cb with
  | CbClearSent => true
  | CbSettle => true
  | CbClearSentIf m => (m =? marker)%string
  | _ => false
  end.

Lemma runCallback_marker (cb : Callback) (u : Card) :
  timers (runCallback cb u) = timers u
  /\ (_lastSent (runCallback cb u) = _lastSent u \/ _lastSent (runCallback cb u) = None)
  /\ (forall marker, clearsMarker marker cb = false -> _lastSent u = Some marker ->
                     _lastSent (runCallback cb u) = Some marker).
Proof.
  destruct cb as [|m|c|c| |]; cbn.
  - split; [reflexivity|]. split; [right; reflexivity | discriminate].
  - destruct (optStrEq (_lastSent u) (Some m)) eqn:E; cbn.
    + split; [reflexivity|]. split; [right; reflexivity|].
      intros marker Hm Hl. rewrite Hl in E. cbn in E.
      rewrite String.eqb_sym in E. congruence.
    + auto.
  - auto.
  - unfold _sendCommandSilent. destruct (_device u); [|auto].
    destruct (debounced u); cbn; auto.
  - unfold _updateToast. cbn. destruct (toastInDom u); cbn.
    + split; [reflexivity|]. split; [right; reflexivity | discriminate].
    + split; [reflexivity|]. split; [right; reflexivity | discriminate].
  - split; [reflexivity|]. split; [left; reflexivity | auto].
Qed.

Section Marker.
Variables (id0 : positive) (due0 : Z) (marker : string).

Let t0 : Timer := markerTimer id0 due0 marker.

(** The handle [id0] is that of the marker's timeout only. *)
Definition ownHandle (l : list Timer) : Prop :=
  forall t, In t l -> timer_id t = id0 -> t = t0.

(** The marker is cleared, or it is shown and its timeout is pending. *)
Definition cleared_or_pending (u : Card) : Prop :=
  _lastSent u = None \/ (_lastSent u = Some marker /\ In t0 (timers u)).

(** The marker is shown and no pending timer but its own clears it. *)
Definition shown (u : Card) : Prop :=
  _lastSent u = Some marker
  /\ forall t, In t (timers u) -> t = t0 \/ clearsMarker marker (callback t) = false.

Lemma ownHandle_table (u : Card) (t : Timer) :
  (timer_id t = id0 -> t = t0) ->
  ownHandle (timers u) ->
  ownHandle (match period t with
             | Some p => List.map (rearm (timer_id t) p) (timers u)
             | None => List.filter (fun x => negb (timer_id x =? timer_id t)%positive) (timers u)
             end).
Proof.
  intros Ht Hu. destruct (period t) as [p|] eqn:Hp.
  - intros x Hx Hid. apply in_map_iff in Hx as (y & <- & Hy).
    unfold rearm in *. destruct (timer_id y =? timer_id t)%positive eqn:E.
    + cbn in Hid. apply Pos.eqb_eq in E.
      assert (Hx : t = t0) by (apply Ht; congruence).
      rewrite Hx in Hp. discriminate Hp.
    + exact (Hu y Hy Hid).
  - intros x Hx Hid. apply filter_In in Hx as [Hx _]. exact (Hu x Hx Hid).
Qed.

Lemma other_keeps_t0 (u : Card) (t : Timer) :
  timer_id t <> id0 ->
  In t0 (timers u) ->
  In t0 (match period t with
         | Some p => List.map (rearm (timer_id t) p) (timers u)
         | None => List.filter (fun x => negb (timer_id x =? timer_id t)%positive) (timers u)
         end).
Proof.
  intros Hne Hin. destruct (period t) as [p|].
  - apply in_map_iff. exists t0. split; [|exact Hin].
    unfold rearm. replace (timer_id t0 =? timer_id t)%positive with false; [reflexivity|].
    symmetry. apply Pos.eqb_neq. cbn. congruence.
  - apply filter_In. split; [exact Hin|].
    apply negb_true_iff, Pos.eqb_neq. cbn. congruence.
Qed.

Lemma fireTimer_table (u : Card) (t : Timer) :
  timers (fireTimer u t)
  = if existsb (fun x => (timer_id x =? timer_id t)%positive) (timers u)
    then match period t with
         | Some p => List.map (rearm (timer_id t) p) (timers u)
         | None => List.filter (fun x => negb (timer_id x =? timer_id t)%positive) (timers u)
         end
    else timers u.
Proof.
  unfold fireTimer. destruct (existsb _ (timers u)); [|reflexivity].
  rewrite (proj1 (runCallback_marker _ _)). destruct (period t); reflexivity.
Qed.

Lemma fireTimer_lastSent (u : Card) (t : Timer) :
  (_lastSent (fireTimer u t) = _lastSent u \/ _lastSent (fireTimer u t) = None)
  /\ (clearsMarker marker (callback t) = false -> _lastSent u = Some marker ->
      _lastSent (fireTimer u t) = Some marker).
Proof.
  unfold fireTimer. destruct (existsb _ (timers u)); [|auto].
  set (u1 := match period t with Some p => _ | None => _ end).
  assert (H1 : _lastSent u1 = _lastSent u) by (unfold u1; destruct (period t); reflexivity).
  destruct (runCallback_marker (callback t) u1) as (_ & H2 & H3).
  rewrite <- H1. split; [exact H2|]. intros Hc Hl. apply H3; assumption.
Qed.

Lemma fireTimer_none (u : Card) (t : Timer) :
  _lastSent u = None -> _lastSent (fireTimer u t) = None.
Proof. intros H. destruct (proj1 (fireTimer_lastSent u t)); congruence. Qed.

Lemma fold_none (R : list Timer) :
  forall u, _lastSent u = None -> _lastSent (fold_left fireTimer R u) = None.
Proof.
  induction R as [|t R IH]; intros u H; cbn; [exact H|].
  apply IH, fireTimer_none, H.
Qed.

Lemma tick_none (u : Card) : _lastSent u = None -> _lastSent (tick u) = None.
Proof. intros H. unfold tick. apply fold_none. exact H. Qed.

Lemma advance_none (n : nat) :
  forall u, _lastSent u = None -> _lastSent (advance n u) = None.
Proof.
  induction n as [|n IH]; intros u H; cbn; [exact H|]. apply IH, tick_none, H.
Qed.

(** Firing the marker's own timeout clears the marker. *)
Lemma fire_own (u : Card) :
  cleared_or_pending u -> _lastSent (fireTimer u t0) = None.
Proof.
  intros [H|[H Hin]]; [apply fireTimer_none; exact H|].
  unfold fireTimer.
  replace (existsb (fun x => (timer_id x =? timer_id t0)%positive) (timers u)) with true.
  - cbn. rewrite H. cbn. rewrite String.eqb_refl. reflexivity.
  - symmetry. apply existsb_exists. exists t0. split; [exact Hin | apply Pos.eqb_refl].
Qed.

Lemma fire_other_marker (u : Card) (t : Timer) :
  timer_id t <> id0 ->
  ownHandle (timers u) -> cleared_or_pending u ->
  ownHandle (timers (fireTimer u t)) /\ cleared_or_pending (fireTimer u t).
Proof.
  intros Hne Hown Hcp. rewrite fireTimer_table. split.
  - destruct (existsb _ (timers u));
      [apply ownHandle_table; [intros E; congruence | exact Hown] | exact Hown].
  - destruct Hcp as [H|[H Hin]]; [left; apply fireTimer_none; exact H|].
    destruct (proj1 (fireTimer_lastSent u t)) as [E|E]; [|left; exact E].
    right. split; [congruence|]. rewrite fireTimer_table.
    destruct (existsb _ (timers u)); [apply other_keeps_t0; assumption | exact Hin].
Qed.

Lemma fold_marker (R : list Timer) :
  forall u,
    ownHandle R -> ownHandle (timers u) -> cleared_or_pending u ->
    ownHandle (timers (fold_left fireTimer R u))
    /\ cleared_or_pending (fold_left fireTimer R u)
    /\ (In t0 R -> _lastSent (fold_left fireTimer R u) = None).
Proof.
  induction R as [|t R IH]; intros u HR Hown Hcp; cbn [fold_left].
  - split; [exact Hown|]. split; [exact Hcp | intros []].
  - assert (HR' : ownHandle R) by (intros x Hx; apply HR; right; exact Hx).
    destruct (Pos.eq_dec (timer_id t) id0) as [Hid|Hne].
    + pose proof (HR t (or_introl eq_refl) Hid) as ->.
      pose proof (fire_own u Hcp) as Hnone.
      assert (Hown1 : ownHandle (timers (fireTimer u t0))).
      { rewrite fireTimer_table. destruct (existsb _ (timers u));
          [apply ownHandle_table; [reflexivity | exact Hown] | exact Hown]. }
      destruct (IH (fireTimer u t0) HR' Hown1 (or_introl Hnone)) as (I1 & I2 & _).
      split; [exact I1|]. split; [exact I2|]. intros _. apply fold_none. exact Hnone.
    + destruct (fire_other_marker u t Hne Hown Hcp) as [Hown1 Hcp1].
      destruct (IH (fireTimer u t) HR' Hown1 Hcp1) as (I1 & I2 & I3).
      split; [exact I1|]. split; [exact I2|].
      intros [->|Hin]; [cbn in Hne; congruence | exact (I3 Hin)].
Qed.

Lemma tick_marker (u : Card) :
  ownHandle (timers u) -> cleared_or_pending u ->
  ownHandle (timers (tick u)) /\ cleared_or_pending (tick u)
  /\ (due0 <= clock u + 1 -> _lastSent (tick u) = None).
Proof.
  intros Hown Hcp. unfold tick.
  set (u1 := set_clock (clock u + 1) u).
  assert (HR : ownHandle (List.filter (fun t => due t <=? clock u1) (timers u1))).
  { intros x Hx. apply filter_In in Hx as [Hx _]. exact (Hown x Hx). }
  destruct (fold_marker _ u1 HR Hown Hcp) as (I1 & I2 & I3).
  split; [exact I1|]. split; [exact I2|]. intros Hdue.
  destruct Hcp as [H|[H Hin]]; [apply fold_none; exact H|].
  apply I3. apply filter_In. split; [exact Hin|]. apply Z.leb_le. cbn. exact Hdue.
Qed.

(** The marker does not outlive its timeout. *)
Lemma marker_expires (n : nat) :
  forall u,
    ownHandle (timers u) -> cleared_or_pending u -> clock u < due0 ->
    due0 <= clock u + Z.of_nat n ->
    _lastSent (advance n u) = None.
Proof.
  induction n as [|n IH]; intros u Hown Hcp Hlt Hdue; [lia|].
  cbn [advance]. destruct (tick_marker u Hown Hcp) as (I1 & I2 & I3).
  destruct (Z.le_gt_cases due0 (clock u + 1)) as [Hnow|Hlater].
  - apply advance_none, I3, Hnow.
  - apply IH; [exact I1 | exact I2 | rewrite tick_clock; lia | rewrite tick_clock; lia].
Qed.

Lemma shown_table (u : Card) (t : Timer) :
  timer_id t <> id0 -> ownHandle (timers u) ->
  (forall x, In x (timers u) -> x = t0 \/ clearsMarker marker (callback x) = false) ->
  forall x,
    In x (match period t with
          | Some p => List.map (rearm (timer_id t) p) (timers u)
          | None => List.filter (fun x => negb (timer_id x =? timer_id t)%positive) (timers u)
          end) ->
    x = t0 \/ clearsMarker marker (callback x) = false.
Proof.
  intros Hne Hown Hall x Hx. destruct (period t) as [p|].
  - apply in_map_iff in Hx as (y & <- & Hy). unfold rearm.
    destruct (timer_id y =? timer_id t)%positive eqn:E.
    + destruct (Hall y Hy) as [->|Hc].
      * apply Pos.eqb_eq in E. cbn in E. congruence.
      * right. exact Hc.
    + exact (Hall y Hy).
  - apply filter_In in Hx as [Hx _]. exact (Hall x Hx).
Qed.

Lemma fold_shown (R : list Timer) :
  forall u,
    (forall t, In t R -> timer_id t <> id0 /\ clearsMarker marker (callback t) = false) ->
    ownHandle (timers u) -> shown u ->
    ownHandle (timers (fold_left fireTimer R u)) /\ shown (fold_left fireTimer R u).
Proof.
  induction R as [|t R IH]; intros u HR Hown Hs; cbn [fold_left]; [auto|].
  destruct (HR t (or_introl eq_refl)) as [Hne Hc]. destruct Hs as [Hl Hall].
  apply IH.
  - intros x Hx. apply HR. right. exact Hx.
  - rewrite fireTimer_table. destruct (existsb _ (timers u));
      [apply ownHandle_table; [intros E; congruence | exact Hown] | exact Hown].
  - split; [exact (proj2 (fireTimer_lastSent u t) Hc Hl)|].
    rewrite fireTimer_table. destruct (existsb _ (timers u)); [|exact Hall].
    apply shown_table; assumption.
Qed.

(** Until its timeout is due, the marker stays. *)
Lemma marker_stays (n : nat) :
  forall u,
    ownHandle (timers u) -> shown u -> In t0 (timers u) ->
    clock u + Z.of_nat n < due0 ->
    _lastSent (advance n u) = Some marker.
Proof.
  induction n as [|n IH]; intros u Hown Hs Hin Hdue; cbn [advance]; [exact (proj1 Hs)|].
  assert (Htick : ownHandle (timers (tick u)) /\ shown (tick u) /\ In t0 (timers (tick u))).
  { unfold tick. set (u1 := set_clock (clock u + 1) u).
    assert (HR : forall t, In t (List.filter (fun t => due t <=? clock u1) (timers u1)) ->
                           timer_id t <> id0 /\ clearsMarker marker (callback t) = false).
    { intros t Ht. apply filter_In in Ht as [Ht Hd]. apply Z.leb_le in Hd. cbn in Hd.
      assert (Hne : t <> t0) by (intros ->; cbn in Hd; lia).
      split.
      - intros Hid. apply Hne. exact (Hown t Ht Hid).
      - destruct (proj2 Hs t Ht) as [->|Hc]; [congruence | exact Hc]. }
    destruct (fold_shown _ u1 HR Hown Hs) as [F1 F2].
    split; [exact F1|]. split; [exact F2|].
    assert (Hcp : cleared_or_pending u1) by (right; split; [exact (proj1 Hs) | exact Hin]).
    assert (HR' : ownHandle (List.filter (fun t => due t <=? clock u1) (timers u1))).
    { intros x Hx. apply filter_In in Hx as [Hx _]. exact (Hown x Hx). }
    destruct (fold_marker _ u1 HR' Hown Hcp) as (_ & [G|[_ G]] & _); [|exact G].
    destruct F2 as [F2 _]. congruence. }
  destruct Htick as (T1 & T2 & T3).
  apply IH; [exact T1 | exact T2 | exact T3 | rewrite tick_clock; lia].
Qed.

End Marker.

(** X6: the sent marker of [_sendCommand] lasts 1000 ms at most, whatever
    other timers are pending: from 1000 ms after a successful send on,
    [_lastSent] is cleared.  It is shown during the whole 1000 ms when none of
    the timers pending at the send clears it (the unguarded timeout of a
    power button, the settle timeout of a released hold, or the timeout of
    an earlier send of the same command). *)
Theorem sent_marker_lasts_1000_ms (s : Card) (dev : Device) (command : string) :
  _device s = Some dev ->
  debounced s = false ->
  handlesFresh s ->
  (forall n, (1000 <= n)%nat ->
             _lastSent (advance n (_sendCommand true command s)) = None)
  /\ ((forall t, In t (timers s) -> clearsMarker command (callback t) = false) ->
      forall n, (n < 1000)%nat ->
                _lastSent (advance n (_sendCommand true command s)) = Some command).
Proof.
  intros Hdev Hdeb Hfresh.
  set (t0 := markerTimer (nextTimerId s) (clock s + 1000) command).
  assert (Hs1 : timers (_sendCommand true command s) = (timers s ++ [t0])%list
                /\ _lastSent (_sendCommand true command s) = Some command
                /\ clock (_sendCommand true command s) = clock s).
  { unfold _sendCommand. rewrite Hdev, Hdeb. cbn. auto. }
  destruct Hs1 as (H1 & H2 & H3).
  assert (Hown : ownHandle (nextTimerId s) (clock s + 1000) command
                   (timers (_sendCommand true command s))).
  { intros t Ht Hid. rewrite H1 in Ht. apply in_app_iff in Ht as [Ht|[<-|[]]].
    - specialize (Hfresh t Ht). lia.
    - reflexivity. }
  assert (Hin : In t0 (timers (_sendCommand true command s)))
    by (rewrite H1; apply in_app_iff; right; left; reflexivity).
  split.
  - intros n Hn.
    apply (marker_expires (nextTimerId s) (clock s + 1000) command n); try assumption.
    + right. split; assumption.
    + rewrite H3. lia.
    + rewrite H3. lia.
  - intros Hquiet n Hn.
    apply (marker_stays (nextTimerId s) (clock s + 1000) command n); try assumption.
    + split; [exact H2|]. intros t Ht. rewrite H1 in Ht.
      apply in_app_iff in Ht as [Ht|[<-|[]]]; [right; exact (Hquiet t Ht) | left; reflexivity].
    + rewrite H3. lia.
Qed.

Lemma sent_marker_lasts_1000_ms_witness :
  _lastSent (advance 999 (_sendCommand true "power" (cardAt 1000))) = Some "power"
  /\ _lastSent (advance 1000 (_sendCommand true "power" (cardAt 1000))) = None.
Proof.
  assert (Hfresh : handlesFresh (cardAt 1000)) by (intros t []).
  split.
  - refine (proj2 (sent_marker_lasts_1000_ms (cardAt 1000) tv "power" eq_refl eq_refl Hfresh)
              _ 999%nat _).
    + intros t [].
    + lia.
  - refine (proj1 (sent_marker_lasts_1000_ms (cardAt 1000) tv "power" eq_refl eq_refl Hfresh)
              1000%nat _).
    lia.
Defined.

(** *** The service a source command is sent with *)

(** X7: after [_loadSourceDevice], a button of the source-device section
    sends its command to the source with the service of the source's kind:
    [send_ha_command] for a platform-native device, [send_command] for an
    IR device. *)
Theorem source_button_uses_service_of_source_kind (env : Env) (s0 : Card) (ok : bool)
    (command : string) (src : SourceDevice) :
  _sourceDevice (_loadSourceDevice env s0) = Some src ->
  debounced (_loadSourceDevice env s0) = false ->
  source_device_id src <> ""%string ->
  calls (onClick ok command None None true (_loadSourceDevice env s0))
  = (calls s0
     ++ [{| service := match src with
                       | SourceHA _ => "send_ha_command"
                       | SourceIR _ => "send_command"
                       end;
            call_device_id := Some (source_device_id src);
            call_arg := command |}])%list.
Proof.
  intros Hsrc Hdeb Hid.
  pose proof (loadSourceDevice_isHA env s0) as Hflag.
  destruct (loadSourceDevice_send_state env s0) as (Hcalls & _).
  set (s := _loadSourceDevice env s0) in *.
  rewrite Hsrc in Hflag.
  unfold onClick, route. cbn [nonEmpty]. rewrite Hsrc.
  unfold _sendCommandToDevice, _sendCommandToDevice_start.
  rewrite (truthy_nonempty _ Hid), Hdeb. cbn [negb].
  cbn [_sourceIsHADevice _sourceDevice set_lastSendTime]. rewrite Hflag, Hsrc.
  rewrite String.eqb_refl.
  rewrite resume_calls. cbn. rewrite Hcalls.
  destruct src; reflexivity.
Qed.

Lemma source_button_uses_service_of_source_kind_witness :
  calls (onClick true "menu" None None true
           (_loadSourceDevice online
              (set_selectedMatrixInput (Some "route_input_1") (matrixCard slotMatrix))))
  = [{| service := "send_ha_command"; call_device_id := Some "atv"; call_arg := "menu" |}].
Proof.
  exact (source_button_uses_service_of_source_kind online
           (set_selectedMatrixInput (Some "route_input_1") (matrixCard slotMatrix))
           true "menu" (SourceHA appleTv) eq_refl eq_refl ltac:(discriminate)).
Defined.

(** *** Releasing a hold *)

(** X8: releasing twice is releasing once.  The press listeners call
    [_stopRepeat] on [mouseup] and again on [mouseleave]; the second call
    changes nothing: no second settle timeout, no timer cleared. *)
Theorem stopRepeat_twice_is_once (s : Card) :
  _stopRepeat (_stopRepeat s) = _stopRepeat s.
Proof.
  destruct (stopRepeat_timers s) as (_ & H1 & H2 & H3 & _).
  set (s' := _stopRepeat s) in *.
  unfold _stopRepeat at 1. rewrite H1. cbn. rewrite H2. cbn. rewrite H3. reflexivity.
Qed.

Lemma startRepeat_table (command : string) (s : Card) :
  timers (_startRepeat command s)
  = (timers s
     ++ [{| timer_id := nextTimerId s; due := clock s + 250; period := None;
            callback := CbFillDelay command |};
         repeatTimer (Pos.succ (nextTimerId s)) (clock s + 200) command])%list
  /\ _repeatInterval (_startRepeat command s) = Some (Pos.succ (nextTimerId s))
  /\ _fillDelayTimeout (_startRepeat command s) = Some (nextTimerId s)
  /\ _isHolding (_startRepeat command s) = true.
Proof.
  unfold _startRepeat. cbn.
  set (s1 := _updateToast (Some command) _).
  destruct (updateToast_same (Some command)
              (set_holdCommand (Some command) (set_isHolding true s)))
    as (_ & A4 & _ & _ & A5 & A6 & A7 & _).
  fold s1 in A4, A5, A6, A7. cbn in A4, A5, A6, A7.
  destruct (sendCommandSilent_frame command s1) as (_ & B2 & B3 & B4 & B5 & _).
  rewrite B2, B3, B4, B5, A4, A5, A6, A7. rewrite <- app_assoc. auto.
Qed.

(** X9: [_startRepeat] does not cancel an interval that is running.  When
    a second button is pressed while a hold is in progress (a second
    finger), the handle of the first interval is overwritten; releasing
    then clears the second interval only, and the interval of the first
    command stays in the timer table with no handle left to clear it. *)
Theorem second_press_leaks_first_interval (s : Card) (dev : Device)
    (first second : string) (held : nat) :
  _device s = Some dev ->
  debounced s = false ->
  noRepeatPending s ->
  handlesFresh s ->
  exists dueAt,
    List.filter dispatching
      (timers (_stopRepeat (_startRepeat second (advance held (_startRepeat first s)))))
    = [repeatTimer (Pos.succ (nextTimerId s)) dueAt first]
    /\ _repeatInterval (_stopRepeat (_startRepeat second (advance held (_startRepeat first s))))
       = None
    /\ _fillDelayTimeout (_stopRepeat (_startRepeat second (advance held (_startRepeat first s))))
       = None.
Proof.
  intros Hdev Hdeb Hnone Hfresh.
  destruct (startRepeat_Inv first s dev Hdev Hdeb Hnone Hfresh) as (HI & R1 & F1 & _ & N1).
  assert (H0 : HoldAt dev (Pos.succ (nextTimerId s)) (clock s) first (calls s) 0 0
                 (_startRepeat first s)).
  { unfold HoldAt. cbn [repeat].
    replace (clock s + 200 * Z.of_nat 1) with (clock s + 200) by lia.
    replace (clock s + 200 * Z.of_nat 0 + Z.of_nat 0) with (clock s) by lia.
    replace (Some (clock s + 200 * Z.of_nat 0)) with (Some (clock s)) by (f_equal; lia).
    exact HI. }
  destruct (hold_advance_calls dev _ _ first (calls s) held _ H0) as (dueAt & L & HA).
  destruct (advance_sameHold held (_startRepeat first s)) as (_ & S2 & _).
  set (s1 := advance held (_startRepeat first s)) in *.
  destruct (startRepeat_table second s1) as (T2 & R2 & F2 & H2).
  destruct (stopRepeat_timers (_startRepeat second s1)) as (T3 & R3 & F3 & _).
  exists dueAt. split; [|split; assumption].
  rewrite T3, R2, F2, H2, T2. rewrite S2, N1.
  rewrite filter_dispatching_app.
  rewrite (filter_swap dispatching), (filter_swap dispatching).
  rewrite filter_dispatching_app, (inv_dispatching _ _ _ _ _ _ HA).
  cbn. rewrite !Pos.eqb_refl.
  replace (Pos.succ (nextTimerId s) =? Pos.succ (Pos.succ (Pos.succ (nextTimerId s))))%positive
    with false by (symmetry; apply Pos.eqb_neq; lia).
  cbn.
  replace (Pos.succ (nextTimerId s) =? Pos.succ (Pos.succ (nextTimerId s)))%positive
    with false by (symmetry; apply Pos.eqb_neq; lia).
  reflexivity.
Qed.

Lemma second_press_leaks_first_interval_witness :
  exists dueAt,
    List.filter dispatching
      (timers (_stopRepeat (_startRepeat "volume_down"
                              (advance 300 (_startRepeat "volume_up" (cardAt 1000))))))
    = [repeatTimer 2%positive dueAt "volume_up"].
Proof.
  destruct (second_press_leaks_first_interval (cardAt 1000) tv "volume_up" "volume_down" 300
              eq_refl eq_refl eq_refl ltac:(intros t []))
    as (dueAt & H & _).
  exists dueAt. exact H.
Defined.

(** *** Group power: what is counted *)

Lemma successes_le_calls (tr : list GroupEffect) :
  (successes tr <= length (callsOf tr))%nat.
Proof.
  unfold successes, callsOf. induction tr as [|[c b|d] tr IH]; cbn; [lia| |exact IH].
  destruct b; cbn; lia.
Qed.

Lemma powerCall_at_most_one (m : Member) : (length (powerCall m) <= 1)%nat.
Proof.
  unfold powerCall, sendPower.
  destruct (member_type m =? "controlled")%string; [cbn; lia|].
  destruct (member_type m =? "serial")%string; [|cbn; lia].
  destruct (powerCmd m); cbn; lia.
Qed.

Lemma powerCalls_le_members (members : list Member) :
  (length (flat_map powerCall members) <= length members)%nat.
Proof.
  induction members as [|m members IH]; cbn; [lia|].
  rewrite length_app. pose proof (powerCall_at_most_one m). lia.
Qed.

(** X10: in the summary [Sent to n/m devices] of a group power command,
    [n] counts the calls that succeeded and [m] the members: [n] is at
    most the number of calls made, which is at most [m] (a serial member
    without a power command gets no call).  Without a group, or with no
    member, nothing is sent and the card is left as it is. *)
Theorem group_power_counts (ok : nat -> bool) (s : Card) :
  (snd (_sendGroupPowerCommand ok s)
   <= length (callsOf (snd (fst (_sendGroupPowerCommand ok s)))))%nat
  /\ (length (callsOf (snd (fst (_sendGroupPowerCommand ok s))))
      <= length (_groupMemberDevices s))%nat
  /\ (_deviceGroup s = None \/ _groupMemberDevices s = [] ->
      _sendGroupPowerCommand ok s = (s, [], 0%nat)).
Proof.
  unfold _sendGroupPowerCommand.
  destruct (_deviceGroup s) as [g|]; [|cbn; split; [lia|]; split; [lia | reflexivity]].
  destruct (_groupMemberDevices s) as [|m members] eqn:Hm;
    [cbn; split; [lia|]; split; [lia | reflexivity]|].
  cbn [length Nat.eqb].
  rewrite (groupPowerLoop_between ok (sequenceDelay g) (m :: members)
             (S (length members)) 0 0 eq_refl).
  cbn [fst snd]. rewrite between_calls.
  split; [|split].
  - rewrite <- (between_calls ok (sequenceDelay g) (m :: members) 0).
    apply successes_le_calls.
  - apply (powerCalls_le_members (m :: members)).
  - intros [H|H]; discriminate H.
Qed.

Lemma group_power_counts_witness :
  _groupMemberDevices (set_calls [] (cardAt 1000)) = []
  /\ _sendGroupPowerCommand secondFails (set_calls [] (cardAt 1000))
     = (set_calls [] (cardAt 1000), [], 0%nat).
Proof.
  split; [reflexivity|].
  exact (proj2 (proj2 (group_power_counts secondFails (set_calls [] (cardAt 1000))))
           (or_intror eq_refl)).
Defined.

(** *** Options that cannot be sent *)

Lemma find_in_generated (id : string) (l : list MatrixInput) (c : InputCommand) :
  List.find (fun c => optStrEq (command_id c) (Some id)) (List.map generatedCommand l)
  = Some c ->
  _generated c = true.
Proof.
  intros H. apply List.find_some in H as [H _].
  apply in_map_iff in H as (x & <- & _). reflexivity.
Qed.

(** X11: on a serial matrix without declared input options and without a
    routing template, every option [_loadMatrixDevice] offers is inert:
    selecting it makes no call and changes nothing, whether the call would
    have succeeded or not. *)
Theorem generated_options_without_template_are_inert (env : Env) (ok : bool)
    (s : Card) (d : Device) (mid : string) (m : MatrixDevice)
    (c : InputCommand) (commandId : string) :
  _device s = Some d ->
  nonEmpty (matrix_device_id d) = Some mid ->
  matrix_device_type d = Some "serial"%string ->
  List.filter is_input_option (commands m) = [] ->
  nonEmpty (routing_template m) = None ->
  In c (_matrixInputCommands (_loadMatrixDevice (FetchOk m) s)) ->
  command_id c = Some commandId ->
  _sendMatrixCommand env ok commandId (_loadMatrixDevice (FetchOk m) s)
  = _loadMatrixDevice (FetchOk m) s.
Proof.
  intros Hdev Hmid Hser Hgen Htpl Hin Hid.
  assert (Hload : _loadMatrixDevice (FetchOk m) s
                  = set_matrixInputCommands
                      (List.map generatedCommand (List.filter slotEnabled (matrix_inputs m)))
                      (set_matrixDevice (Some m) s)).
  { unfold _loadMatrixDevice. rewrite Hdev, Hmid.
    rewrite (inputCommands_generated _ _ Hgen). reflexivity. }
  rewrite Hload in *. cbn [_matrixInputCommands set_matrixInputCommands] in Hin.
  unfold _sendMatrixCommand.
  cbn [_matrixDevice _device _matrixInputCommands set_matrixInputCommands set_matrixDevice].
  rewrite Hdev, Hser.
  destruct (List.find (fun c0 => optStrEq (command_id c0) (Some commandId))
              (List.map generatedCommand (List.filter slotEnabled (matrix_inputs m))))
    as [c'|] eqn:Hf.
  - rewrite (find_in_generated _ _ _ Hf). cbn [optStrEq andb].
    rewrite String.eqb_refl, Htpl. reflexivity.
  - exfalso. pose proof (List.find_none _ _ Hf c Hin) as Hc.
    cbn beta in Hc. rewrite Hid in Hc. cbn in Hc.
    rewrite String.eqb_refl in Hc. discriminate.
Qed.

Lemma generated_options_without_template_are_inert_witness :
  _sendMatrixCommand online true "route_input_2"
    (_loadMatrixDevice
       (FetchOk {| commands := []; matrix_inputs := matrix_inputs slotMatrix;
                   query_template := None; routing_template := None |})
       (cardAt 1000))
  = _loadMatrixDevice
      (FetchOk {| commands := []; matrix_inputs := matrix_inputs slotMatrix;
                  query_template := None; routing_template := None |})
      (cardAt 1000).
Proof.
  refine (generated_options_without_template_are_inert online true (cardAt 1000) tv "orei"
            {| commands := []; matrix_inputs := matrix_inputs slotMatrix;
               query_template := None; routing_template := None |}
            (generatedCommand (slot 2 None (Some "cable") (Some true))) "route_input_2"
            eq_refl eq_refl eq_refl eq_refl eq_refl _ eq_refl).
  cbn. right. left. reflexivity.
Defined.

End DispatcherMore.

(** ** The cache: one fetch per key, eviction, failure and expiry *)

Module CacheMore.
Import VDADataCache CacheProofs.
Local Open Scope Z_scope.

Section Facts.
Variables V E : Type.
Implicit Types (s : State V E) (key : string) (p : positive).

(** X12: in every state the cache reaches from the empty one, a key has at
    most one pending promise, and it is the one [_loading] holds for the
    key: one fetch in flight per key. *)
Theorem one_pending_promise_per_key (evs : list (Event V E)) key p q :
  promises (run init evs) !! p = Some (Pending key) ->
  promises (run init evs) !! q = Some (Pending key) ->
  p = q /\ _loading (run init evs) !! key = Some p.
Proof.
  intros Hp Hq.
  destruct (run_wellFormed V E evs init (init_wellFormed V E)) as [Hwf _].
  apply Hwf in Hp. apply Hwf in Hq. split; [congruence | exact Hp].
Qed.

(** X13: [invalidate] does not cancel a fetch in flight.  A caller who
    fetches the key right after the eviction is given the pending promise
    and no producer is invoked; when that promise resolves, its value is
    stored and served for the next 5000 ms.  With nothing in flight, the
    fetch after an eviction invokes the producer, whatever was cached. *)
Theorem invalidate_keeps_fetch_in_flight s key :
  wellFormed s ->
  (forall pid fetchFn now v t t',
     _loading s !! key = Some pid ->
     fetch key fetchFn now (invalidate key s) = (invalidate key s, Shared pid)
     /\ (t' - t < _ttl ->
         fetch key fetchFn t' (resolved pid v t (invalidate key s))
         = (resolved pid v t (invalidate key s), Ready v)))
  /\ (forall fetchFn now,
        _loading s !! key = None ->
        snd (fetch key fetchFn now (invalidate key s)) = Shared (nextPromise s)
        /\ invocations key (fst (fetch key fetchFn now (invalidate key s)))
           = S (invocations key s)).
Proof.
  intros Hwf. split.
  - intros pid fn now v t t' Hl. split.
    + unfold fetch, fresh, invalidate. cbn. rewrite lookup_delete_eq, Hl. reflexivity.
    + intros Ht. unfold resolved. cbn [promises invalidate].
      rewrite (proj1 (proj1 Hwf key pid) Hl).
      unfold fetch, fresh. cbn. rewrite lookup_insert_eq. cbn.
      replace (t' - t <? _ttl) with true by (symmetry; apply Z.ltb_lt; exact Ht).
      reflexivity.
  - intros fn now Hl. unfold fetch, fresh, invalidate. cbn.
    rewrite lookup_delete_eq, Hl. cbn. split; [reflexivity|].
    rewrite invocations_snoc. rewrite String.eqb_refl.
    unfold invocations. cbn. lia.
Qed.

(** X14: when the producer behind a pending fetch fails, every caller that
    shares the promise receives the failure, the in-flight marker of the key
    is cleared, the stored values are left as they were, and the next fetch
    of the key that finds no fresh value invokes its producer. *)
Theorem rejected_reaches_waiters_and_clears s key pid (e : E) :
  wellFormed s ->
  _loading s !! key = Some pid ->
  received (rejected pid e s) (Shared pid) = Some (inr e)
  /\ _loading (rejected pid e s) !! key = None
  /\ _data (rejected pid e s) = _data s
  /\ forall fetchFn now,
       fresh key now s = None ->
       snd (fetch key fetchFn now (rejected pid e s)) = Shared (nextPromise s)
       /\ invocations key (fst (fetch key fetchFn now (rejected pid e s)))
          = S (invocations key s).
Proof.
  intros Hwf Hl. pose proof (proj1 (proj1 Hwf key pid) Hl) as Hp.
  unfold rejected. rewrite Hp. cbn.
  rewrite lookup_insert_eq, lookup_delete_eq.
  repeat split.
  - unfold fetch, fresh in *. cbn. destruct (_data s !! key) as [en|].
    + destruct (now - timestamp en <? _ttl); [discriminate|].
      rewrite lookup_delete_eq. reflexivity.
    + rewrite lookup_delete_eq. reflexivity.
  - unfold fetch, fresh in *. cbn. destruct (_data s !! key) as [en|].
    + destruct (now - timestamp en <? _ttl); [discriminate|].
      rewrite lookup_delete_eq. cbn. rewrite invocations_snoc, String.eqb_refl.
      unfold invocations. cbn. lia.
    + rewrite lookup_delete_eq. cbn. rewrite invocations_snoc, String.eqb_refl.
      unfold invocations. cbn. lia.
Qed.

(** X15: a value stored when a pending fetch resolves at time [t] is served
    without invoking a producer to every fetch made less than 5000 ms after
    [t]; a fetch made 5000 ms after [t] or later invokes its producer. *)
Theorem resolved_value_served_until_expiry s key pid (v : V) (t : Z) :
  promises s !! pid = Some (Pending key) ->
  forall fetchFn now,
    (now - t < 5000 ->
     fetch key fetchFn now (resolved pid v t s) = (resolved pid v t s, Ready v))
    /\ (5000 <= now - t ->
        snd (fetch key fetchFn now (resolved pid v t s)) = Shared (nextPromise s)
        /\ invocations key (fst (fetch key fetchFn now (resolved pid v t s)))
           = S (invocations key s)).
Proof.
  intros Hp fn now. unfold resolved. rewrite Hp.
  unfold fetch, fresh. cbn. rewrite lookup_insert_eq. cbn. split.
  - intros Ht. replace (now - t <? _ttl) with true
      by (symmetry; apply Z.ltb_lt; exact Ht). reflexivity.
  - intros Ht. replace (now - t <? _ttl) with false
      by (symmetry; apply Z.ltb_ge; exact Ht).
    rewrite lookup_delete_eq. cbn. split; [reflexivity|].
    rewrite invocations_snoc, String.eqb_refl. unfold invocations. cbn. lia.
Qed.

End Facts.

(** A card asks for the device list; the reply is still pending. *)
Definition asked : State string string := fst (fetch "devices" 7%nat 1000 init).

Lemma asked_wellFormed : wellFormed asked.
Proof.
  exact (step_wellFormed string string init (EFetch "devices" 7%nat 1000)
           (init_wellFormed string string)).
Qed.

Lemma one_pending_promise_per_key_witness :
  1%positive = 1%positive
  /\ _loading (run (@init string string) [EFetch "devices" 7%nat 1000]) !! "devices"
     = Some 1%positive.
Proof.
  apply (one_pending_promise_per_key string string [EFetch "devices" 7%nat 1000]
           "devices" 1%positive 1%positive); reflexivity.
Defined.

Lemma invalidate_keeps_fetch_in_flight_witness :
  wellFormed asked
  /\ _loading asked !! "devices" = Some 1%positive
  /\ fetch "devices" 8%nat 1010 (invalidate "devices" asked)
     = (invalidate "devices" asked, Shared 1%positive).
Proof.
  split; [exact asked_wellFormed|]. split; [reflexivity|].
  exact (proj1 (proj1 (invalidate_keeps_fetch_in_flight string string asked "devices"
                         asked_wellFormed)
                      1%positive 8%nat 1010 "payload" 1020 1030 eq_refl)).
Defined.

Lemma rejected_reaches_waiters_and_clears_witness :
  wellFormed asked
  /\ _loading asked !! "devices" = Some 1%positive
  /\ received (rejected 1%positive "offline" asked) (Shared 1%positive)
     = Some (inr "offline").
Proof.
  split; [exact asked_wellFormed|]. split; [reflexivity|].
  exact (proj1 (rejected_reaches_waiters_and_clears string string asked "devices"
                  1%positive "offline" asked_wellFormed eq_refl)).
Defined.

Lemma resolved_value_served_until_expiry_witness :
  fetch "devices" 8%nat 5999 (resolved 1%positive "payload" 1000 asked)
  = (resolved 1%positive "payload" 1000 asked, Ready "payload").
Proof.
  refine (proj1 (resolved_value_served_until_expiry string string asked "devices"
                   1%positive "payload" 1000 _ 8%nat 5999) _).
  - reflexivity.
  - lia.
Defined.

End CacheMore.

(** ** The query queue: settlement order, no stall, and what [enqueue] does *)

Module QueueMore.
Import VDAMatrixQueryQueue QueueProofs.
Local Open Scope Z_scope.

Section Facts.
Variables R E : Type.
Implicit Types (s : State R E) (obs : list (Observed R E)).

Definition optList (r : option nat) : list nat :=
  match r with Some op => [op] | None => [] end.

Lemma settled_then_running obs : forall r,
  alternates r obs ->
  (optList r
   ++ flat_map (fun o : Observed R E => match o with Started op _ => [op] | _ => [] end) obs)%list
  = (List.map fst
       (flat_map (fun o : Observed R E => match o with Settled op x => [(op, x)] | _ => [] end) obs)
     ++ optList (runningAfter R E r obs))%list.
Proof.
  induction obs as [|[op t|op o] obs IH]; intros r Ha; cbn in *.
  - rewrite app_nil_r. reflexivity.
  - destruct Ha as [-> Ha]. cbn. exact (IH (Some op) Ha).
  - destruct Ha as [-> Ha]. cbn. f_equal. exact (IH None Ha).
Qed.

(** X16: the handles are settled in the order the operations were
    enqueued.  Whatever is enqueued and whenever (a timer not firing before
    the time it was set for), the operations whose handles are settled,
    followed by the one running, are the operations started, in order; so
    the settled ones are a prefix of the enqueued ones and no later
    operation overtakes an earlier one. *)
Theorem handles_settle_in_enqueue_order (evs : list (Event R E)) :
  timelyRun init evs ->
  (List.map fst (settledOps (run init evs)) ++ runningOp (run init evs))%list
  = startedOps (run init evs)
  /\ enqueuedOps evs
     = (List.map fst (settledOps (run init evs))
        ++ runningOp (run init evs) ++ pendingStart (run init evs)
        ++ _queue (run init evs))%list.
Proof.
  intros Ht. pose proof (run_Good R E evs [] init (init_Good R E) Ht) as HG.
  cbn [app] in HG. set (s := run init evs) in *.
  assert (H1 : (List.map fst (settledOps s) ++ runningOp s)%list = startedOps s).
  { pose proof (settled_then_running (observed s) None (good_alt _ _ _ _ HG)) as H.
    cbn [optList app] in H. rewrite (good_running _ _ _ _ HG) in H.
    unfold settledOps, runningOp, startedOps. rewrite H.
    destruct (phase s); reflexivity. }
  split; [exact H1|].
  rewrite <- (good_order _ _ _ _ HG), <- H1, <- !app_assoc. reflexivity.
Qed.


(** X18: what [enqueue] does in a state the queue can reach.  While an
    operation runs or waits for its slot, the new operation is only
    appended to the queue.  On an idle queue it is started within the call
    when at least 300 ms have passed since the last start, and otherwise a
    timer is set for 300 ms after the last start and nothing is started. *)
Theorem enqueue_starts_waits_or_appends (evs : list (Event R E)) (op : nat) (now : Z) :
  timelyRun init evs ->
  (phase (run init evs) <> Idle ->
   enqueue op now (run init evs)
   = mkState R E (_queue (run init evs) ++ [op]) true (_lastQueryTime (run init evs))
       (phase (run init evs)) (observed (run init evs)))
  /\ (phase (run init evs) = Idle -> 300 <= now - _lastQueryTime (run init evs) ->
      enqueue op now (run init evs)
      = mkState R E [] true now (Running op)
          (observed (run init evs) ++ [Started op now]))
  /\ (phase (run init evs) = Idle -> now - _lastQueryTime (run init evs) < 300 ->
      enqueue op now (run init evs)
      = mkState R E [] true (_lastQueryTime (run init evs))
          (Waiting op (_lastQueryTime (run init evs) + 300)) (observed (run init evs))).
Proof.
  intros Ht. pose proof (run_Good R E evs [] init (init_Good R E) Ht) as HG.
  set (s := run init evs) in *.
  assert (Hlen : (length (_queue s ++ [op]) =? 0)%nat = false).
  { apply Nat.eqb_neq. rewrite length_app. cbn. lia. }
  split; [|split].
  - intros Hph. unfold enqueue, _processQueue. cbn.
    rewrite (proj2 (good_flag _ _ _ _ HG) Hph). reflexivity.
  - intros Hph Hgap. pose proof (good_idle _ _ _ _ HG Hph) as Hq.
    assert (Hp : _processing s = false).
    { destruct (_processing s) eqn:Hp; [|reflexivity].
      destruct (proj1 (good_flag _ _ _ _ HG) Hp Hph). }
    unfold enqueue, _processQueue. cbn [_processing _queue]. rewrite Hp, Hlen. cbn [orb].
    unfold loop. cbn [_queue _lastQueryTime _processing phase observed]. rewrite Hq. cbn [app].
    replace (now - _lastQueryTime s <? _minInterval) with false
      by (symmetry; apply Z.ltb_ge; unfold _minInterval; lia).
    reflexivity.
  - intros Hph Hgap. pose proof (good_idle _ _ _ _ HG Hph) as Hq.
    assert (Hp : _processing s = false).
    { destruct (_processing s) eqn:Hp; [|reflexivity].
      destruct (proj1 (good_flag _ _ _ _ HG) Hp Hph). }
    unfold enqueue, _processQueue. cbn [_processing _queue]. rewrite Hp, Hlen. cbn [orb].
    unfold loop. cbn [_queue _lastQueryTime _processing phase observed]. rewrite Hq. cbn [app].
    replace (now - _lastQueryTime s <? _minInterval) with true
      by (symmetry; apply Z.ltb_lt; unfold _minInterval; lia).
    f_equal. f_equal. unfold _minInterval. lia.
Qed.

End Facts.

(** Two queries enqueued at time 1000, the first ended at 1040. *)
Definition twoQueries : list (Event string string) :=
  [EEnqueue 1%nat 1000; EEnqueue 2%nat 1000; ESettled (Returned "in3") 1040].

Lemma twoQueries_timely : timelyRun init twoQueries.
Proof. cbn. tauto. Qed.

Lemma handles_settle_in_enqueue_order_witness :
  timelyRun init twoQueries
  /\ enqueuedOps twoQueries
     = (List.map fst (settledOps (run init twoQueries))
        ++ runningOp (run init twoQueries) ++ pendingStart (run init twoQueries)
        ++ _queue (run init twoQueries))%list.
Proof.
  split; [exact twoQueries_timely|].
  exact (proj2 (handles_settle_in_enqueue_order string string twoQueries twoQueries_timely)).
Defined.


Lemma enqueue_starts_waits_or_appends_witness :
  timelyRun init twoQueries
  /\ phase (run init twoQueries) <> Idle
  /\ enqueue 3%nat 1100 (run init twoQueries)
     = mkState string string (_queue (run init twoQueries) ++ [3%nat]) true
         (_lastQueryTime (run init twoQueries))
         (phase (run init twoQueries)) (observed (run init twoQueries)).
Proof.
  split; [exact twoQueries_timely|].
  assert (Hph : phase (run init twoQueries) <> Idle) by (vm_compute; discriminate).
  split; [exact Hph|].
  exact (proj1 (enqueue_starts_waits_or_appends string string twoQueries 3%nat 1100
                  twoQueries_timely) Hph).
Defined.

End QueueMore.

(** ** The routing query and its cache key *)

Module RoutingProofs.
Import Js Card CardView Scenario.

Lemma includes_underscore_app (a b : string) :
  includes "_" (a ++ "_" ++ b) = true.
Proof.
  induction a as [|c a IH].
  - change ("" ++ "_" ++ b) with (String "_" b). cbn.
    destruct (Ascii.ascii_dec "_" "_"); [destruct b; reflexivity | congruence].
  - change (String c a ++ "_" ++ b) with (String c (a ++ "_" ++ b)).
    cbn [includes]. rewrite IH. apply orb_true_r.
Qed.

(** The text after the last underscore determines the split. *)
Lemma key_split (a a' b b' : string) :
  includes "_" b = false -> includes "_" b' = false ->
  a ++ "_" ++ b = a' ++ "_" ++ b' -> a = a' /\ b = b'.
Proof.
  intros Hb Hb'. revert a'. induction a as [|c a IH]; intros [|c' a'] H.
  - change (String "_" b = String "_" b') in H. injection H as H. auto.
  - change (String "_" b = String c' (a' ++ "_" ++ b')) in H.
    injection H as Hc H. rewrite H, includes_underscore_app in Hb.
    discriminate Hb.
  - change (String c (a ++ "_" ++ b) = String "_" b') in H.
    injection H as Hc H. rewrite <- H, includes_underscore_app in Hb'.
    discriminate Hb'.
  - change (String c (a ++ "_" ++ b) = String c' (a' ++ "_" ++ b')) in H.
    injection H as Hc H. destruct (IH a' H) as [-> ->]. subst. auto.
Qed.

Lemma uint_no_underscore (u : Decimal.uint) :
  includes "_" (NilEmpty.string_of_uint u) = false.
Proof. induction u; cbn; try exact IHu; reflexivity. Qed.

(** The text of a numeric port holds no underscore. *)
Lemma number_no_underscore (n : Z) : includes "_" (toString (JNum n)) = false.
Proof.
  unfold toString, NilZero.string_of_int.
  destruct (Z.to_int n) as [u|u]; unfold NilZero.string_of_uint.
  - destruct u; try apply uint_no_underscore; reflexivity.
  - destruct u; cbn; try apply uint_no_underscore; reflexivity.
Qed.

(** X19: two cards share a cached routing reply only when they sit on the
    same output of the same matrix.  When the port texts hold no
    underscore (as the text of every number does), equal cache keys mean
    the same matrix id and the same port text, and then the same query
    for the same template.  No query is made at all unless the matrix is
    serial. *)
Theorem routing_cache_key_identifies_matrix_output (s s' : Card) (d d' : Device)
    (q q' : RoutingQuery) (id id' : string) :
  _device s = Some d -> _device s' = Some d' ->
  matrix_device_id d = Some id -> matrix_device_id d' = Some id' ->
  includes "_" (toString (matrix_port d)) = false ->
  includes "_" (toString (matrix_port d')) = false ->
  routingQuery s = Some q -> routingQuery s' = Some q' ->
  cacheKey q = cacheKey q' ->
  id = id'
  /\ toString (matrix_port d) = toString (matrix_port d')
  /\ matrix_device_type d = Some "serial"
  /\ (option_map query_template (_matrixDevice s)
      = option_map query_template (_matrixDevice s') ->
      queryCmd q = queryCmd q').
Proof.
  intros Hd Hd' Hid Hid' Hp Hp' Hq Hq' Hkey.
  unfold routingQuery in Hq, Hq'. rewrite Hd in Hq. rewrite Hd' in Hq'.
  destruct (_matrixDevice s) as [m|]; [|discriminate Hq].
  destruct (_matrixDevice s') as [m'|]; [|discriminate Hq'].
  destruct (negb (truthy (matrix_port d))); [discriminate Hq|].
  destruct (negb (truthy (matrix_port d'))); [discriminate Hq'|].
  destruct (matrix_device_type d) as [ty|] eqn:Hty; [|discriminate Hq].
  cbn [optStrEq] in Hq. destruct (ty =? "serial") eqn:Hser; [|discriminate Hq].
  apply String.eqb_eq in Hser. subst ty. cbn [negb] in Hq.
  destruct (negb (optStrEq (matrix_device_type d') (Some "serial"))); [discriminate Hq'|].
  destruct (nonEmpty (query_template m)) as [tpl|] eqn:Ht; [|discriminate Hq].
  destruct (nonEmpty (query_template m')) as [tpl'|] eqn:Ht'; [|discriminate Hq'].
  injection Hq as <-. injection Hq' as <-. cbn [cacheKey queryCmd] in *.
  rewrite Hid, Hid' in Hkey. cbn [idText] in Hkey.
  assert (Hk : id ++ "_" ++ toString (matrix_port d)
               = id' ++ "_" ++ toString (matrix_port d')).
  { cbn in Hkey. repeat (injection Hkey as Hkey). exact Hkey. }
  destruct (key_split _ _ _ _ Hp Hp' Hk) as [-> Hport].
  split; [reflexivity|]. split; [exact Hport|]. split; [reflexivity|].
  intros Hm. cbn in Hm. injection Hm as Hm. rewrite Hm in Ht.
  rewrite Ht in Ht'. injection Ht' as <-. rewrite Hport. reflexivity.
Qed.

Lemma routing_cache_key_identifies_matrix_output_witness :
  routingQuery (matrixCard slotMatrix)
  = Some {| cacheKey := "matrix_routing_orei_1"; queryMatrixId := Some "orei";
            queryCmd := "r av out1" |}
  /\ matrix_device_type tv = Some "serial".
Proof.
  split; [reflexivity|].
  exact (proj1 (proj2 (proj2
           (routing_cache_key_identifies_matrix_output
              (matrixCard slotMatrix) (matrixCard slotMatrix) tv tv
              {| cacheKey := "matrix_routing_orei_1"; queryMatrixId := Some "orei";
                 queryCmd := "r av out1" |}
              {| cacheKey := "matrix_routing_orei_1"; queryMatrixId := Some "orei";
                 queryCmd := "r av out1" |}
              "orei" "orei" eq_refl eq_refl eq_refl eq_refl
              (number_no_underscore 1) (number_no_underscore 1)
              eq_refl eq_refl eq_refl)))).
Defined.

End RoutingProofs.

(** ** The buttons the card renders, and where their commands go *)

Module ViewProofs.
Import Js Card CardView Scenario Household DispatcherProofs.

Lemma inList_In (x : string) (l : list string) : inList x l = true <-> In x l.
Proof.
  unfold inList. rewrite existsb_exists. split.
  - intros (y & Hy & E). apply String.eqb_eq in E. subst. exact Hy.
  - intros H. exists x. split; [exact H | apply String.eqb_refl].
Qed.

(** A button with the [data-command] attribute only, whose command is in
    [l]. *)
Definition plainFrom (l : list string) (b : Button) : Prop :=
  b = commandButton (data_command b) /\ In (data_command b) l.

Lemma buttonIf_plain (cond : bool) (cmd : string) (l : list string) (b : Button) :
  (cond = true -> In cmd l) -> In b (buttonIf cond cmd) -> plainFrom l b.
Proof.
  intros Hc. unfold buttonIf. destruct cond; [|intros []].
  intros [<-|[]]. split; [reflexivity | apply Hc; reflexivity].
Qed.

Lemma buttonFor_plain (p : string -> bool) (l : list string) (b : Button) :
  In b (buttonFor p l) -> plainFrom l b /\ p (data_command b) = true.
Proof.
  unfold buttonFor. destruct (List.find p l) as [cmd|] eqn:E; [|intros []].
  intros [<-|[]]. destruct (List.find_some _ _ E) as [Hin Hp].
  split; [split; [reflexivity | exact Hin] | exact Hp].
Qed.

Lemma map_commandButton_plain (l : list string) (b : Button) :
  In b (List.map commandButton l) -> plainFrom l b.
Proof.
  intros H. apply in_map_iff in H as (c & <- & Hc). split; [reflexivity | exact Hc].
Qed.

Lemma plainFrom_incl (l l' : list string) (b : Button) :
  incl l l' -> plainFrom l b -> plainFrom l' b.
Proof. intros Hi [H1 H2]. split; [exact H1 | exact (Hi _ H2)]. Qed.

Lemma filter_incl {A : Type} (f : A -> bool) (l : list A) : incl (List.filter f l) l.
Proof. intros x Hx. apply filter_In in Hx. tauto. Qed.

Lemma navSection_plain (r : RemoteCard) (b : Button) :
  In b (navSection r) -> plainFrom (navCmds r) b.
Proof.
  unfold navSection. destruct (0 <? length (navCmds r))%nat; [|intros []].
  rewrite !in_app_iff.
  intros [H|[H|[H|[H|[H|H]]]]];
    try (eapply buttonIf_plain; [|exact H]; apply inList_In).
  - destruct (inList "select" (navCmds r)) eqn:E1.
    + destruct H as [<-|[]]. split; [reflexivity | apply inList_In, E1].
    + destruct (inList "center" (navCmds r)) eqn:E3.
      * rewrite orb_true_r in H. destruct H as [<-|[]].
        split; [reflexivity | apply inList_In, E3].
      * rewrite orb_false_r in H. cbn [orb] in H.
        destruct (inList "enter" (navCmds r)) eqn:E2; [|destruct H].
        destruct H as [<-|[]]. split; [reflexivity | apply inList_In, E2].
  - eapply plainFrom_incl; [apply filter_incl|]. apply map_commandButton_plain, H.
Qed.

Lemma numSection_plain (r : RemoteCard) (b : Button) :
  In b (numSection r) -> plainFrom (numCmds r) b.
Proof.
  unfold numSection. destruct (0 <? length (numCmds r))%nat; [|intros []].
  intros H. apply in_flat_map in H as (n & _ & H).
  eapply buttonIf_plain; [|exact H]. apply inList_In.
Qed.

Lemma playSection_plain (r : RemoteCard) (b : Button) :
  In b (playSection r) -> plainFrom (playCmds r) b.
Proof.
  unfold playSection. destruct (0 <? length (playCmds r))%nat; [|intros []].
  rewrite !in_app_iff.
  intros [H|[H|[H|[H|[H|H]]]]];
    try (eapply buttonIf_plain; [|exact H]; apply inList_In);
    apply buttonFor_plain in H; tauto.
Qed.

(** The buttons of the volume group, and those of the channel group. *)
Lemma volChanSection_plain (r : RemoteCard) (b : Button) :
  In b (volChanSection r) ->
  (plainFrom (volCmds r) b /\ inList (data_command b) volumeCommands = true)
  \/ (plainFrom (chanCmds r) b
      /\ inList (data_command b) ["channel_up"; "chanup"; "channel_down"; "chandown"] = true).
Proof.
  unfold volChanSection.
  destruct ((0 <? length (volCmds r))%nat || (0 <? length (chanCmds r))%nat); [|intros []].
  rewrite in_app_iff. intros [H|H].
  - left. destruct (0 <? length (volCmds r))%nat; [|destruct H].
    rewrite !in_app_iff in H. destruct H as [H|[H|H]].
    + split; [eapply buttonIf_plain; [|exact H]; apply inList_In|].
      unfold buttonIf in H. destruct (inList _ _); [|destruct H].
      destruct H as [<-|[]]. reflexivity.
    + split; [eapply buttonIf_plain; [|exact H]; apply inList_In|].
      unfold buttonIf in H. destruct (inList _ _); [|destruct H].
      destruct H as [<-|[]]. reflexivity.
    + split; [eapply buttonIf_plain; [|exact H]; apply inList_In|].
      unfold buttonIf in H. destruct (inList _ _); [|destruct H].
      destruct H as [<-|[]]. reflexivity.
  - right. destruct (0 <? length (chanCmds r))%nat; [|destruct H].
    rewrite in_app_iff in H. destruct H as [H|H];
      apply buttonFor_plain in H as [Hp Hc]; (split; [exact Hp|]);
      apply orb_true_iff in Hc as [Hc|Hc]; apply String.eqb_eq in Hc;
      rewrite Hc; reflexivity.
Qed.

(** *** Which commands a section can hold *)

Lemma names_not_held (c : string) (names : list string) :
  forallb (fun n => negb (inList n volumeCommands) && negb (inList n repeatableCommands))
          names = true ->
  inList c names = true ->
  inList c volumeCommands = false /\ inList c repeatableCommands = false.
Proof.
  intros Hall Hc. apply inList_In in Hc.
  rewrite forallb_forall in Hall. specialize (Hall c Hc).
  apply andb_true_iff in Hall as [H1 H2].
  apply negb_true_iff in H1, H2. auto.
Qed.

(** A predicate on commands that none of the volume and repeat commands
    satisfies. *)
Lemma pattern_not_held (p : string -> bool) (c : string) :
  forallb (fun n => negb (p n)) (volumeCommands ++ repeatableCommands) = true ->
  p c = true ->
  inList c volumeCommands = false /\ inList c repeatableCommands = false.
Proof.
  intros Hall Hp. rewrite forallb_forall in Hall.
  split.
  - destruct (inList c volumeCommands) eqn:E; [|reflexivity].
    apply inList_In in E. specialize (Hall c (in_or_app _ _ _ (or_introl E))).
    rewrite Hp in Hall. discriminate.
  - destruct (inList c repeatableCommands) eqn:E; [|reflexivity].
    apply inList_In in E. specialize (Hall c (in_or_app _ _ _ (or_intror E))).
    rewrite Hp in Hall. discriminate.
Qed.

(** A button that is neither a volume button nor a hold button. *)
Definition clicked (b : Button) : Prop :=
  inList (data_command b) volumeCommands = false
  /\ inList (data_command b) repeatableCommands = false.

Lemma navCmds_clicked (r : RemoteCard) (b : Button) :
  In (data_command b) (navCmds r) -> clicked b.
Proof.
  intros H. apply filter_In in H as [_ H].
  exact (names_not_held _ navNames eq_refl H).
Qed.

Lemma playCmds_clicked (r : RemoteCard) (b : Button) :
  In (data_command b) (playCmds r) -> clicked b.
Proof.
  intros H. apply filter_In in H as [_ H].
  exact (names_not_held _ playNames eq_refl H).
Qed.

Lemma numCmds_clicked (r : RemoteCard) (b : Button) :
  In (data_command b) (numCmds r) -> clicked b.
Proof.
  intros H. apply filter_In in H as [_ H].
  apply (pattern_not_held isDigitCommand); [reflexivity | exact H].
Qed.

Lemma powerCmds_clicked (r : RemoteCard) (b : Button) :
  In (data_command b) (powerCmds r) -> clicked b.
Proof.
  intros H. apply filter_In in H as [_ H].
  apply (pattern_not_held (includes "power")); [reflexivity | exact H].
Qed.

Lemma inputCmds_clicked (r : RemoteCard) (b : Button) :
  In (data_command b) (inputCmds r) -> clicked b.
Proof.
  intros H. apply filter_In in H as [_ H].
  apply (pattern_not_held
           (fun c => includes "hdmi" c || includes "source" c || includes "input" c));
    [reflexivity | exact H].
Qed.

(** *** What a press sends *)

(** The call that sends [command] to the device [id] with [svc]. *)
Definition sendTo (svc id command : string) : ServiceCall :=
  {| service := svc; call_device_id := Some id; call_arg := command |}.

Lemma press_own (ok : bool) (cmd : string) (s : Card) (d : Device) :
  _device s = Some d -> debounced s = false ->
  (inList cmd repeatableCommands = true \/ _sourceDevice s = None
   \/ inList cmd volumeCommands = true) ->
  calls (press ok cmd None None false s) = (calls s ++ [sendOwn d cmd])%list.
Proof.
  intros Hdev Hdeb Hwhy. unfold press.
  destruct (inList cmd repeatableCommands) eqn:Hrep.
  - apply startRepeat_calls; assumption.
  - assert (Hroute : route s cmd None None false = RouteOwn).
    { unfold route. cbn [nonEmpty]. destruct Hwhy as [H|[H|H]].
      - discriminate H.
      - rewrite H. destruct (negb _); reflexivity.
      - rewrite H. reflexivity. }
    unfold onClick. rewrite Hroute. apply sendCommand_calls; assumption.
Qed.

Lemma press_source (ok : bool) (cmd : string) (flag : bool) (s : Card) (src : SourceDevice) :
  _sourceDevice s = Some src -> debounced s = false ->
  source_device_id src <> "" ->
  inList cmd repeatableCommands = false ->
  (flag = true \/ inList cmd volumeCommands = false) ->
  exists svc,
    calls (press ok cmd None None flag s)
    = (calls s ++ [sendTo svc (source_device_id src) cmd])%list.
Proof.
  intros Hsrc Hdeb Hid Hrep Hwhy. unfold press. rewrite Hrep.
  assert (Hroute : route s cmd None None flag = RouteSource src).
  { unfold route. cbn [nonEmpty]. rewrite Hsrc.
    destruct Hwhy as [->|H]; [reflexivity|]. rewrite H. destruct flag; reflexivity. }
  unfold onClick. rewrite Hroute.
  assert (Ht : truthy (JStr (source_device_id src)) = true)
    by (destruct (source_device_id src); [congruence | reflexivity]).
  destruct (start_calls cmd (source_device_id src) s Hdeb Ht) as (svc & Hi & Hc).
  exists svc. unfold _sendCommandToDevice.
  destruct (_sendCommandToDevice_start cmd (source_device_id src) s) as [s1 issued].
  cbn in Hi, Hc. subst issued. rewrite resume_calls. exact Hc.
Qed.


Lemma press_tv (ok : bool) (cmd id : string) (target : option string) (flag : bool) (s : Card) :
  debounced s = false -> id <> "" ->
  inList cmd repeatableCommands = false ->
  exists svc,
    calls (press ok cmd target (Some id) flag s) = (calls s ++ [sendTo svc id cmd])%list.
Proof.
  intros Hdeb Hid Hrep. unfold press. rewrite Hrep.
  assert (Ht : truthy (JStr id) = true) by (destruct id; [congruence | reflexivity]).
  assert (Hroute : route s cmd target (Some id) flag = RouteTv id).
  { unfold route. cbn [nonEmpty]. rewrite Ht. reflexivity. }
  unfold onClick. rewrite Hroute.
  unfold _sendCommandToDevice_start. rewrite Ht, Hdeb. cbn [negb].
  eexists. rewrite resume_calls. cbn. reflexivity.
Qed.

(** *** The remote of a card without a source *)


Lemma remoteCommands_source (r : RemoteCard) :
  hasSourceDevice r = true -> remoteCommands r = _sourceCommands (base r).
Proof. unfold remoteCommands. intros ->. reflexivity. Qed.

(** The sections drawn from [commands] (lines 1538-1549), the power row
    left out. *)
Lemma drawn_sections (r : RemoteCard) (b : Button) :
  In b (navSection r ++ volChanSection r ++ numSection r ++ playSection r
        ++ inputSection r)%list ->
  (plainFrom (_commands r) b /\ inList (data_command b) volumeCommands = true)
  \/ (plainFrom (remoteCommands r) b
      /\ inList (data_command b) ["channel_up"; "chanup"; "channel_down"; "chandown"] = true)
  \/ (plainFrom (remoteCommands r) b /\ clicked b).
Proof.
  rewrite !in_app_iff. intros [H|[H|[H|[H|H]]]].
  - right. right. pose proof (navSection_plain r b H) as Hp.
    split; [eapply plainFrom_incl; [apply filter_incl | exact Hp]|].
    exact (navCmds_clicked r b (proj2 Hp)).
  - destruct (volChanSection_plain r b H) as [[Hp Hv]|[Hp Hc]].
    + left. split; [eapply plainFrom_incl; [apply filter_incl | exact Hp] | exact Hv].
    + right. left. split; [eapply plainFrom_incl; [apply filter_incl | exact Hp] | exact Hc].
  - right. right. pose proof (numSection_plain r b H) as Hp.
    split; [eapply plainFrom_incl; [apply filter_incl | exact Hp]|].
    exact (numCmds_clicked r b (proj2 Hp)).
  - right. right. pose proof (playSection_plain r b H) as Hp.
    split; [eapply plainFrom_incl; [apply filter_incl | exact Hp]|].
    exact (playCmds_clicked r b (proj2 Hp)).
  - right. right. unfold inputSection in H.
    destruct (bool_decide _ && _); [destruct H|].
    pose proof (map_commandButton_plain _ b H) as Hp.
    split; [eapply plainFrom_incl; [apply filter_incl | exact Hp]|].
    exact (inputCmds_clicked r b (proj2 Hp)).
Qed.





(** *** The remote of a card in matrix mode *)

(** X21: in matrix mode (a source device with commands), the buttons of
    the remote that carry only a command are drawn from two lists and sent
    to two devices.  A volume button carries a command of the TV's profile
    and sends it to the TV.  Any other button carries a command of the
    source; clicked, it sends the command to the source; but the channel
    buttons are hold buttons, and a hold sends its command to the TV,
    although the command was taken from the source's list. *)
Theorem matrix_mode_buttons_origin_and_target (r : RemoteCard) (d : Device)
    (src : SourceDevice) (ok : bool) (cmd : string) :
  hasSourceDevice r = true ->
  _device (base r) = Some d ->
  _sourceDevice (base r) = Some src ->
  source_device_id src <> "" ->
  debounced (base r) = false ->
  In (commandButton cmd) (_renderRemoteContent r) ->
  (inList cmd volumeCommands = true ->
   In cmd (_commands r)
   /\ calls (base (pressButton ok (commandButton cmd) r))
      = (calls (base r) ++ [sendOwn d cmd])%list)
  /\ (inList cmd volumeCommands = false ->
      In cmd (_sourceCommands (base r))
      /\ (inList cmd repeatableCommands = true ->
          inList cmd ["channel_up"; "chanup"; "channel_down"; "chandown"] = true
          /\ calls (base (pressButton ok (commandButton cmd) r))
             = (calls (base r) ++ [sendOwn d cmd])%list)
      /\ (inList cmd repeatableCommands = false ->
          exists svc,
            calls (base (pressButton ok (commandButton cmd) r))
            = (calls (base r) ++ [sendTo svc (source_device_id src) cmd])%list)).
Proof.
  intros Hhas Hdev Hsrc Hid Hdeb Hin.
  assert (Hcases :
    (In cmd (_commands r) /\ inList cmd volumeCommands = true)
    \/ (In cmd (_sourceCommands (base r))
        /\ inList cmd ["channel_up"; "chanup"; "channel_down"; "chandown"] = true)
    \/ (In cmd (_sourceCommands (base r))
        /\ inList cmd volumeCommands = false /\ inList cmd repeatableCommands = false)).
  { unfold _renderRemoteContent in Hin. rewrite Hdev in Hin.
    apply in_app_iff in Hin as [Hin|Hin].
    - exfalso. unfold powerSection in Hin. rewrite Hhas in Hin.
      destruct Hin as [Hin|Hin]; [discriminate Hin|].
      apply in_app_iff in Hin as [Hin|Hin].
      + apply in_map_iff in Hin as (x & Hx & _). discriminate Hx.
      + destruct (inList "power" (powerCmds r)); [|destruct Hin].
        destruct Hin as [Hin|[]]. discriminate Hin.
    - destruct (drawn_sections r _ Hin) as [[[_ Hp] Hv]|[[[_ Hp] Hc]|[[_ Hp] [Hv Hr]]]];
        cbn [commandButton data_command] in *;
        rewrite ?(remoteCommands_source r Hhas) in *; auto. }
  assert (Hchan : inList cmd ["channel_up"; "chanup"; "channel_down"; "chandown"] = true ->
                  inList cmd volumeCommands = false /\ inList cmd repeatableCommands = true).
  { intros H. apply inList_In in H. cbn in H.
    destruct H as [<-|[<-|[<-|[<-|[]]]]]; split; reflexivity. }
  assert (Hvol : inList cmd volumeCommands = true ->
                 inList cmd ["channel_up"; "chanup"; "channel_down"; "chandown"] = false).
  { intros H. apply inList_In in H. cbn in H.
    destruct H as [<-|[<-|[<-|[]]]]; reflexivity. }
  unfold pressButton. cbn [base set_base commandButton data_command
    data_device_id data_tv_device_id data_source].
  split.
  - intros Hv. split.
    + destruct Hcases as [[H _]|[[_ H]|[_ [H _]]]]; [exact H | |congruence].
      rewrite (Hvol Hv) in H. discriminate H.
    + apply press_own; auto.
  - intros Hv.
    assert (Hs : In cmd (_sourceCommands (base r)))
      by (destruct Hcases as [[_ H]|[[H _]|[H _]]]; [congruence | exact H | exact H]).
    split; [exact Hs|]. split.
    + intros Hr. split.
      * destruct Hcases as [[_ H]|[[_ H]|[_ [_ H]]]]; [congruence | exact H | congruence].
      * apply press_own; auto.
    + intros Hr. apply press_source; auto.
Qed.

Lemma matrix_mode_buttons_origin_and_target_witness :
  In (commandButton "channel_up") (_renderRemoteContent tvOnMatrix)
  /\ In "channel_up" (_sourceCommands (base tvOnMatrix))
  /\ calls (base (pressButton true (commandButton "channel_up") tvOnMatrix))
     = [sendOwn tv "channel_up"].
Proof.
  assert (Hin : In (commandButton "channel_up") (_renderRemoteContent tvOnMatrix))
    by (vm_compute; tauto).
  split; [exact Hin|].
  destruct (proj2 (matrix_mode_buttons_origin_and_target tvOnMatrix tv (SourceIR cable) true
                     "channel_up" eq_refl eq_refl eq_refl ltac:(discriminate) eq_refl Hin)
              eq_refl)
    as (H1 & H2 & _).
  split; [exact H1|]. exact (proj2 (H2 eq_refl)).
Defined.



End ViewProofs.

(** ** Loading the device data *)

Module LoadProofs.
Import Js Card CardView Scenario Household DispatcherProofs ViewProofs.

Lemma In_omap {A B : Type} (f : A -> option B) (l : list A) (y : B) :
  In y (omap f l) <-> exists x, In x l /\ f x = Some y.
Proof.
  rewrite <- list_elem_of_In, list_elem_of_omap.
  split; intros (x & Hx & Hf); exists x; split; try exact Hf;
    apply list_elem_of_In; exact Hx.
Qed.

(** Whether a member reference resolves in the registry of its type. *)
Definition resolves (allDevices : list Device) (serialDevices : list SerialDevice)
    (ref : MemberRef) : bool :=
  (optStrEq (ref_device_type ref) (Some "controlled")
   && existsb (fun d => device_id d =? ref_device_id ref) allDevices)
  || (optStrEq (ref_device_type ref) (Some "serial")
      && existsb (fun d => serial_device_id d =? ref_device_id ref) serialDevices).

Lemma find_existsb {A : Type} (p : A -> bool) (l : list A) :
  existsb p l = bool_decide (is_Some (List.find p l)).
Proof.
  induction l as [|a l IH]; cbn; [reflexivity|].
  destruct (p a); cbn; [reflexivity | exact IH].
Qed.

Lemma hydrate_spec (allDevices : list Device) (serialDevices : list SerialDevice)
    (ref : MemberRef) :
  match hydrate allDevices serialDevices ref with
  | Some m =>
      resolves allDevices serialDevices ref = true
      /\ member_device_id m = ref_device_id ref
      /\ Some (member_type m) = ref_device_type ref
      /\ (member_type m = "controlled" \/ member_type m = "serial")
  | None => resolves allDevices serialDevices ref = false
  end.
Proof.
  unfold hydrate, resolves. rewrite !find_existsb.
  destruct (ref_device_type ref) as [ty|] eqn:Hty; cbn [optStrEq]; [|reflexivity].
  destruct (ty =? "controlled") eqn:Hc.
  - apply String.eqb_eq in Hc. subst ty.
    destruct (List.find _ allDevices) as [dev|] eqn:Hf; cbn.
    + apply List.find_some in Hf as [_ Hf]. apply String.eqb_eq in Hf. auto.
    + reflexivity.
  - destruct (ty =? "serial") eqn:Hs; [|reflexivity].
    apply String.eqb_eq in Hs. subst ty.
    destruct (List.find _ serialDevices) as [dev|] eqn:Hf; cbn.
    + apply List.find_some in Hf as [_ Hf]. apply String.eqb_eq in Hf. auto.
    + reflexivity.
Qed.

Lemma hydrated_ids (allDevices : list Device) (serialDevices : list SerialDevice)
    (ms : list MemberRef) :
  List.map member_device_id (omap (hydrate allDevices serialDevices) ms)
  = List.map ref_device_id (List.filter (resolves allDevices serialDevices) ms).
Proof.
  induction ms as [|ref ms IH]; [reflexivity|].
  cbn [List.filter]. pose proof (hydrate_spec allDevices serialDevices ref) as H.
  change (omap (hydrate allDevices serialDevices) (ref :: ms))
    with (match hydrate allDevices serialDevices ref with
          | Some y => y :: omap (hydrate allDevices serialDevices) ms
          | None => omap (hydrate allDevices serialDevices) ms
          end).
  destruct (hydrate allDevices serialDevices ref) as [m|].
  - destruct H as (-> & Hid & _). cbn. rewrite Hid, IH. reflexivity.
  - rewrite H. exact IH.
Qed.

(** The state [_loadDeviceData] leaves for a group. *)
Lemma loadDeviceData_group (env : Env) (data : Registries)
    (matrixReply : Fetched MatrixDevice) (r : RemoteCard) (g : GroupData) :
  config_device_id (_config r) <> "" ->
  List.find (fun g => group_id (group g) =? config_device_id (_config r)) (groups data)
  = Some g ->
  _loadDeviceData env (Some data) matrixReply r
  = set_isDeviceGroup true
      (set_base
         (_render
            (match members g with
             | Some ms =>
                 set_groupMemberDevices
                   (omap (hydrate (devices data) (serial_devices data)) ms)
             | None => fun s => s
             end
               (set_haDevices (ha_devices data)
                  (set_allDevices (devices data)
                     (set_deviceGroup (Some (group g)) (base r)))))) r).
Proof.
  intros Hid Hfind. unfold _loadDeviceData.
  replace (truthy (JStr (config_device_id (_config r)))) with true
    by (destruct (config_device_id (_config r)); [congruence | reflexivity]).
  cbn [negb]. rewrite Hfind. cbn.
  destruct (members g) as [ms|]; cbn; destruct (_device (base r)); reflexivity.
Qed.

(** X23: a card whose configured id names a group is a group card, even
    when a device has the same id.  No device, profile or matrix is
    loaded for it and it renders no command button; its member list holds,
    in the configured order, the references that resolve in the registry of
    their type (a controlled device or a serial device), the others being
    dropped. *)
Theorem group_id_loads_a_group_card (env : Env) (data : Registries)
    (matrixReply : Fetched MatrixDevice) (r : RemoteCard) (g : GroupData)
    (ms : list MemberRef) :
  config_device_id (_config r) <> "" ->
  List.find (fun g => group_id (group g) =? config_device_id (_config r)) (groups data)
  = Some g ->
  members g = Some ms ->
  _isDeviceGroup (_loadDeviceData env (Some data) matrixReply r) = true
  /\ _deviceGroup (base (_loadDeviceData env (Some data) matrixReply r)) = Some (group g)
  /\ _device (base (_loadDeviceData env (Some data) matrixReply r)) = _device (base r)
  /\ _commands (_loadDeviceData env (Some data) matrixReply r) = _commands r
  /\ _matrixDevice (base (_loadDeviceData env (Some data) matrixReply r))
     = _matrixDevice (base r)
  /\ documentButtons (_loadDeviceData env (Some data) matrixReply r) = []
  /\ List.map member_device_id
       (_groupMemberDevices (base (_loadDeviceData env (Some data) matrixReply r)))
     = List.map ref_device_id
         (List.filter (resolves (devices data) (serial_devices data)) ms)
  /\ (forall m,
        In m (_groupMemberDevices (base (_loadDeviceData env (Some data) matrixReply r))) ->
        member_type m = "controlled" \/ member_type m = "serial").
Proof.
  intros Hid Hfind Hms. rewrite (loadDeviceData_group env data matrixReply r g Hid Hfind).
  rewrite Hms. cbn.
  repeat split; try reflexivity.
  - apply hydrated_ids.
  - intros m Hm. apply In_omap in Hm as (ref & _ & Hh).
    pose proof (hydrate_spec (devices data) (serial_devices data) ref) as H.
    rewrite Hh in H. tauto.
Qed.

Lemma group_id_loads_a_group_card_witness :
  List.map member_device_id (_groupMemberDevices (base cinemaCard))
  = ["living_tv"; "amp"; "projector"].
Proof.
  exact (proj1 (proj2 (proj2 (proj2 (proj2 (proj2 (proj2
           (group_id_loads_a_group_card online registries FetchNotOk
              (configured "cinema" None) cinemaGroup _
              ltac:(discriminate) eq_refl eq_refl)))))))).
Defined.

(** *** Loading a device *)

(** Whether the profile request of [_loadCommands] throws for [d]: the
    device has no profile id, or the request fails. *)
Definition profileThrows (env : Env) (d : Device) : bool :=
  match device_profile_id d with
  | None => true
  | Some profileId =>
      match (if startsWith "builtin:" profileId
             then fetchBuiltinProfile env
                    (substring 8 (String.length profileId - 8) profileId)
             else fetchProfile env profileId) with
      | FetchThrows => true
      | _ => false
      end
  end.

Lemma loadCommands_throws (env : Env) (r : RemoteCard) (d : Device) :
  _device (base r) = Some d ->
  match _loadCommands env r with
  | None => profileThrows env d = true
  | Some r' => profileThrows env d = false /\ base r' = base r
               /\ _config r' = _config r /\ _isDeviceGroup r' = _isDeviceGroup r
               /\ _outputDevices r' = _outputDevices r /\ _tvDevices r' = _tvDevices r
  end.
Proof.
  intros Hdev. unfold _loadCommands, profileThrows. rewrite Hdev.
  destruct (device_profile_id d) as [pid|]; [|reflexivity].
  destruct (startsWith "builtin:" pid).
  - destruct (fetchBuiltinProfile env _); cbn; auto 10.
  - destruct (fetchProfile env _); cbn; auto 10.
Qed.

(** The state in which [_loadDeviceData] finds a device and no group. *)
Definition found (data : Registries) (d : Device) (r : RemoteCard) : RemoteCard :=
  set_base (set_haDevices (ha_devices data)
              (set_device (Some d)
                 (set_allDevices (devices data) (set_deviceGroup None (base r)))))
           (set_isDeviceGroup false r).

Lemma loadDeviceData_device (env : Env) (data : Registries)
    (matrixReply : Fetched MatrixDevice) (r : RemoteCard) (d : Device) :
  config_device_id (_config r) <> "" ->
  List.find (fun g => group_id (group g) =? config_device_id (_config r)) (groups data)
  = None ->
  List.find (fun d => device_id d =? config_device_id (_config r)) (devices data)
  = Some d ->
  _loadDeviceData env (Some data) matrixReply r
  = set_base (_render (base (loadDevice env matrixReply (devices data) d (found data d r))))
             (loadDevice env matrixReply (devices data) d (found data d r)).
Proof.
  intros Hid Hg Hd. unfold _loadDeviceData.
  replace (truthy (JStr (config_device_id (_config r)))) with true
    by (destruct (config_device_id (_config r)); [congruence | reflexivity]).
  cbn [negb]. rewrite Hg. cbn. rewrite Hd. reflexivity.
Qed.

(** X24: when the profile request of [_loadCommands] throws (the device
    has no profile id, or the request fails), [_loadDeviceData] stops
    there: the device is shown, but its matrix is not loaded and the
    configured TVs are not resolved, whatever the matrix would have
    answered.  When the profile request is answered, even with an error
    status, the matrix of a linked device is loaded. *)
Theorem profile_failure_skips_the_matrix (env : Env) (data : Registries)
    (matrixReply : Fetched MatrixDevice) (r : RemoteCard) (d : Device) :
  config_device_id (_config r) <> "" ->
  List.find (fun g => group_id (group g) =? config_device_id (_config r)) (groups data)
  = None ->
  List.find (fun d => device_id d =? config_device_id (_config r)) (devices data)
  = Some d ->
  _device (base (_loadDeviceData env (Some data) matrixReply r)) = Some d
  /\ (profileThrows env d = true ->
      _matrixDevice (base (_loadDeviceData env (Some data) matrixReply r))
      = _matrixDevice (base r)
      /\ _matrixInputCommands (base (_loadDeviceData env (Some data) matrixReply r))
         = _matrixInputCommands (base r)
      /\ _commands (_loadDeviceData env (Some data) matrixReply r) = _commands r
      /\ _tvDevices (_loadDeviceData env (Some data) matrixReply r) = _tvDevices r)
  /\ (profileThrows env d = false ->
      forall mid m,
        nonEmpty (matrix_device_id d) = Some mid -> matrixReply = FetchOk m ->
        _matrixDevice (base (_loadDeviceData env (Some data) matrixReply r)) = Some m
        /\ _matrixInputCommands (base (_loadDeviceData env (Some data) matrixReply r))
           = inputCommands (matrix_port d) m).
Proof.
  intros Hid Hg Hd. rewrite (loadDeviceData_device env data matrixReply r d Hid Hg Hd).
  unfold loadDevice.
  pose proof (loadCommands_throws env (found data d r) d eq_refl) as Hc.
  destruct (_loadCommands env (found data d r)) as [r1|].
  - destruct Hc as (Hc & Hb & Hcfg & _). split; [|split].
    + cbn [base set_base]. unfold _loadMatrixDevice. rewrite Hb. cbn [found base set_base _device
        set_haDevices set_device].
      destruct (nonEmpty (matrix_device_id d)); [|destruct (truthy _ && _);
        destruct (tv_devices _); reflexivity].
      destruct matrixReply; destruct (truthy _ && _); destruct (tv_devices _); reflexivity.
    + intros Ht. congruence.
    + intros _ mid m Hmid ->.
      assert (Hm : _loadMatrixDevice (FetchOk m) (base r1)
                   = set_matrixInputCommands (inputCommands (matrix_port d) m)
                       (set_matrixDevice (Some m) (base r1))).
      { unfold _loadMatrixDevice. rewrite Hb. cbn [found base set_base _device
          set_haDevices set_device]. rewrite Hmid. reflexivity. }
      rewrite Hm. destruct (truthy _ && _); destruct (tv_devices _); split; reflexivity.
  - split; [reflexivity|]. split.
    + intros _. repeat split; reflexivity.
    + intros Ht. congruence.
Qed.

Lemma profile_failure_skips_the_matrix_witness :
  profileThrows online projector = true
  /\ _device (base (_loadDeviceData online (Some registries) (FetchOk slotMatrix)
                      (configured "projector" (Some ["living_tv"]))))
     = Some projector
  /\ _matrixDevice (base (_loadDeviceData online (Some registries) (FetchOk slotMatrix)
                            (configured "projector" (Some ["living_tv"]))))
     = None.
Proof.
  split; [reflexivity|].
  destruct (profile_failure_skips_the_matrix online registries (FetchOk slotMatrix)
              (configured "projector" (Some ["living_tv"])) projector
              ltac:(discriminate) eq_refl eq_refl)
    as (H1 & H2 & _).
  split; [exact H1|]. exact (proj1 (H2 eq_refl)).
Defined.

(** *** The TV power buttons *)




End LoadProofs.

(** ** The editor: what it offers, and how it labels it *)

Module EditorProofs.
Import Js Card Scenario Household.

(** *** Quick buttons picked in the editor *)

Lemma filter_kept (f g : string -> bool) (l : list string) :
  (forall x, In x l -> f x = true -> g x = true) ->
  List.filter g (List.filter f l) = List.filter f l.
Proof.
  intros H. induction l as [|a l IH]; [reflexivity|].
  cbn. destruct (f a) eqn:Ha.
  - cbn. rewrite (H a (or_introl eq_refl) Ha). f_equal.
    apply IH. intros x Hx. apply H. right. exact Hx.
  - apply IH. intros x Hx. apply H. right. exact Hx.
Qed.

(** X26: the editor lists the keys of the profile's [codes] for every
    kind of profile, while the card uses them for a built-in profile only
    and the [learned_commands] for a custom one.  For a built-in profile
    both ask for the same profile and hold the same commands, so every
    quick button checked in the editor is shown by the card, in the
    editor's order; unchecking all of them stores no list, and the card
    falls back to the default buttons of the device type. *)
Theorem editor_and_card_commands (env : Env) (e : CardEditor.Editor)
    (r : CardView.RemoteCard) (d : Device) (profileId : string) (profile : Profile) :
  CardView.config_device_id (CardEditor._config e) <> "" ->
  existsb (fun g => group_id (CardView.group g)
                    =? CardView.config_device_id (CardEditor._config e))
          (CardEditor._deviceGroups e) = false ->
  List.find (fun d => device_id d =? CardView.config_device_id (CardEditor._config e))
            (CardEditor._devices e) = Some d ->
  device_profile_id d = Some profileId ->
  profileId <> "" ->
  _device (CardView.base r) = Some d ->
  (startsWith "builtin:" profileId = true ->
   fetchBuiltinProfile env (substring 8 (String.length profileId - 8) profileId)
   = FetchOk profile ->
   CardEditor._availableCommands (CardEditor._loadAvailableCommands env e) = codes profile
   /\ exists r',
        CardView._loadCommands env r = Some r'
        /\ CardView._commands r' = codes profile
        /\ forall checked,
             match CardView.quick_buttons
                     (CardEditor._config
                        (CardEditor.quickButtonsChanged checked
                           (CardEditor._loadAvailableCommands env e))) with
             | Some picked =>
                 picked = List.filter checked (codes profile)
                 /\ CardView._getQuickButtons
                      (CardView.set_config
                         (CardEditor._config
                            (CardEditor.quickButtonsChanged checked
                               (CardEditor._loadAvailableCommands env e))) r')
                    = picked
             | None =>
                 List.filter checked (codes profile) = []
                 /\ CardView._getQuickButtons
                      (CardView.set_config
                         (CardEditor._config
                            (CardEditor.quickButtonsChanged checked
                               (CardEditor._loadAvailableCommands env e))) r')
                    = List.filter (fun cmd => inList cmd (codes profile))
                                  (CardView.defaults (device_type profile))
             end)
  /\ (startsWith "builtin:" profileId = false ->
      fetchProfile env profileId = FetchOk profile ->
      CardEditor._availableCommands (CardEditor._loadAvailableCommands env e) = codes profile
      /\ exists r',
           CardView._loadCommands env r = Some r'
           /\ CardView._commands r' = learned_commands profile).
Proof.
  intros Hid Hgrp Hfind Hpid Hne Hdev.
  assert (Htruthy : truthy (JStr (CardView.config_device_id (CardEditor._config e))) = true)
    by (destruct (CardView.config_device_id (CardEditor._config e));
        [congruence | reflexivity]).
  assert (Hnon : nonEmpty (Some profileId) = Some profileId)
    by (destruct profileId; [congruence | reflexivity]).
  split.
  - intros Hb Hfetch.
    assert (Hname : replaceFirst "builtin:" "" profileId
                    = substring 8 (String.length profileId - 8) profileId).
    { unfold startsWith in Hb. destruct profileId as [|c p]; [discriminate Hb|].
      cbn [replaceFirst]. rewrite Hb. reflexivity. }
    assert (Hload : CardEditor._loadAvailableCommands env e
                    = CardEditor.set_availableCommands (codes profile) e).
    { unfold CardEditor._loadAvailableCommands.
      rewrite Htruthy, Hgrp, Hfind, Hpid, Hnon, Hb, Hname, Hfetch. reflexivity. }
    rewrite Hload. split; [reflexivity|].
    exists (CardView.set_deviceType (device_type profile)
              (CardView.set_commands (codes profile) r)).
    split; [|split; [reflexivity|]].
    + unfold CardView._loadCommands. rewrite Hdev, Hpid, Hb, Hfetch. reflexivity.
    + intros checked. unfold CardEditor.quickButtonsChanged.
      cbn [CardEditor._availableCommands CardEditor.set_availableCommands].
      assert (Hk : List.filter (fun cmd => inList cmd (codes profile))
                     (List.filter checked (codes profile))
                   = List.filter checked (codes profile)).
      { apply filter_kept. intros c Hc _. apply ViewProofs.inList_In, Hc. }
      destruct (List.filter checked (codes profile)) as [|x xs] eqn:Hsel.
      * split; reflexivity.
      * split; [reflexivity|]. exact Hk.
  - intros Hb Hfetch. split.
    + unfold CardEditor._loadAvailableCommands.
      rewrite Htruthy, Hgrp, Hfind, Hpid, Hnon, Hb, Hfetch. reflexivity.
    + exists (CardView.set_deviceType (device_type profile)
                (CardView.set_commands (learned_commands profile) r)).
      split; [|reflexivity].
      unfold CardView._loadCommands. rewrite Hdev, Hpid, Hb, Hfetch. reflexivity.
Qed.

(** The editor opened on the card of the cable box. *)
Definition cableEditor : CardEditor.Editor := {|
  CardEditor._config := {| CardView.config_device_id := "cable";
                           CardView.quick_buttons := None;
                           CardView.tv_devices := None |};
  CardEditor._devices := CardView.devices registries;
  CardEditor._deviceGroups := CardView.groups registries;
  CardEditor._availableCommands := []
|}.

Lemma editor_and_card_commands_witness :
  CardEditor._availableCommands (CardEditor._loadAvailableCommands online cableEditor) = []
  /\ exists r',
       CardView._loadCommands online
         (CardView._loadDeviceData online (Some registries) FetchNotOk
            (configured "cable" None)) = Some r'
       /\ CardView._commands r' = ["power"; "channel_up"; "channel_down"; "guide"].
Proof.
  exact (proj2 (editor_and_card_commands online cableEditor
                  (CardView._loadDeviceData online (Some registries) FetchNotOk
                     (configured "cable" None))
                  cable "cable_profile"
                  {| codes := []; learned_commands := ["power"; "channel_up"; "channel_down"; "guide"];
                     device_type := Some "cable_box" |}
                  ltac:(discriminate) eq_refl eq_refl eq_refl ltac:(discriminate) eq_refl)
           eq_refl eq_refl).
Defined.

(** *** Labels *)

(** A character of a command name written in snake case. *)
Definition isSnake (c : ascii) : bool :=
  let n := nat_of_ascii c in
  ((48 <=? n)%nat && (n <=? 57)%nat) || ((97 <=? n)%nat && (n <=? 122)%nat)
  || (n =? 95)%nat.

Definition snakeCase (s : string) : bool :=
  forallb isSnake (list_ascii_of_string s).

(** From a label back to a name: lower case, a space read as an
    underscore. *)
Fixpoint labelToName (s : string) : string :=
  match s with
  | EmptyString => EmptyString
  | String c r =>
      String (if Ascii.eqb (lowerChar c) " " then "_"%char else lowerChar c) (labelToName r)
  end.

Lemma label_char (c : ascii) (afterWord : bool) :
  isSnake c = true ->
  (let c' := if Ascii.eqb c "_" then " "%char else c in
   let out := if CardEditor.isWord c' && negb afterWord
              then CardEditor.upperWord c' else c' in
   if Ascii.eqb (lowerChar out) " " then "_"%char else lowerChar out) = c.
Proof.
  destruct afterWord;
    destruct c as [[] [] [] [] [] [] [] []]; vm_compute; intros H;
    first [reflexivity | discriminate H].
Qed.

Lemma label_roundtrip (s : string) :
  forall afterWord,
    snakeCase s = true ->
    labelToName (CardEditor.upperAtWordStart afterWord (CardEditor.underscoresToSpaces s)) = s.
Proof.
  induction s as [|c s IH]; intros aw H; [reflexivity|].
  unfold snakeCase in H. cbn [list_ascii_of_string forallb] in H.
  apply andb_true_iff in H as [Hc Hs].
  cbn [CardEditor.underscoresToSpaces CardEditor.upperAtWordStart labelToName].
  pose proof (label_char c aw Hc) as Hlc. cbn zeta in Hlc. rewrite Hlc.
  f_equal. apply IH. exact Hs.
Qed.

Lemma label_length (s : string) :
  forall afterWord,
    String.length (CardEditor.upperAtWordStart afterWord (CardEditor.underscoresToSpaces s))
    = String.length s.
Proof.
  induction s as [|c s IH]; intros aw; [reflexivity|].
  cbn. f_equal. apply IH.
Qed.

(** X27: the label the editor shows for a command can be read back.  For a
    command name in snake case (lower-case letters, digits, underscores),
    lower-casing the label and reading its spaces as underscores gives the
    name again, so two different snake-case commands never get the same
    label; and a label has the length of its name, whatever the name. *)
Theorem command_label_reads_back (cmd cmd' : string) :
  String.length (CardEditor._formatCommandName cmd) = String.length cmd
  /\ (snakeCase cmd = true ->
      labelToName (CardEditor._formatCommandName cmd) = cmd)
  /\ (snakeCase cmd = true -> snakeCase cmd' = true ->
      CardEditor._formatCommandName cmd = CardEditor._formatCommandName cmd' ->
      cmd = cmd').
Proof.
  split; [apply label_length|]. split; [apply label_roundtrip|].
  intros H H' E. rewrite <- (label_roundtrip cmd false H), <- (label_roundtrip cmd' false H').
  unfold CardEditor._formatCommandName in E. rewrite E. reflexivity.
Qed.

Lemma command_label_reads_back_witness :
  CardEditor._formatCommandName "volume_up" = "Volume Up"
  /\ labelToName (CardEditor._formatCommandName "volume_up") = "volume_up".
Proof.
  split; [reflexivity|].
  exact (proj1 (proj2 (command_label_reads_back "volume_up" "volume_up")) eq_refl).
Defined.

End EditorProofs.
